(** * Calendar Card Pro: logger, action dispatch and pointer-gesture machine

    A shallow embedding of [src/utils/logger-utils.ts] and
    [src/utils/interaction.ts].  Module-level [let] variables and the
    variables closed over by [setupInteractions] become fields of explicit
    state records; a function that reads or writes them becomes a state
    transformer.  JavaScript exceptions are explicit ([Outcome]); timers,
    window listeners and the DOM children the code manipulates are part of
    the modelled world.

    Not modelled: CSS text and, in the gesture machine, inline [style]
    assignments and the [requestAnimationFrame] callbacks (they only assign
    styles).  The DOM-construction helpers, which no handler of the gesture
    machine calls, are embedded on their own over a store of nodes
    (module [Dom]). *)

From Stdlib Require Import ZArith NArith Bool String Ascii List Lia Reals.
From stdpp Require Import base list strings.

(** ** JavaScript values that reach the logger or are thrown *)

Inductive Value :=
| VString (s : string)
| VError (name message : string) (stack : option string)
| VOther (label : string).

Inductive Outcome (A : Type) :=
| Ret (a : A)
| Throw (e : Value).
Arguments Ret {A} a.
Arguments Throw {A} e.

(** JavaScript truthiness of an optional string: [undefined] and the empty
    string are falsy. *)
Definition truthy (s : option string) : bool :=
  match s with
  | Some s => negb (String.eqb s "")
  | None => false
  end.

(** * logger-utils.ts *)

Module Logger.

Inductive LogLevel := ERROR | WARN | INFO | DEBUG.

Definition level (l : LogLevel) : Z :=
  match l with ERROR => 0 | WARN => 1 | INFO => 2 | DEBUG => 3 end.

Inductive ConsoleMethod :=
| ConsoleGroupCollapsed | ConsoleGroupEnd | ConsoleLog | ConsoleWarn | ConsoleError.

Record ConsoleCall := { method : ConsoleMethod; args : list Value }.

(** The module-level variables, the console the module writes to, and the
    [window.__CALENDAR_CARD_PRO_DEBUG__] property. *)
Record State := {
  DEBUG_MODE : bool;
  BANNER_SHOWN : bool;
  CURRENT_LOG_LEVEL : LogLevel;
  console : list ConsoleCall;
  window_debug : option bool
}.

Definition initial : State :=
  {| DEBUG_MODE := false; BANNER_SHOWN := false; CURRENT_LOG_LEVEL := WARN;
     console := []; window_debug := None |}.

Definition join (sep : string) (l : list string) : string := String.concat sep l.

Definition LOG_STYLES_title : string :=
  join ";" ["background: #424242"; "color: white"; "display: inline-block";
            "line-height: 20px"; "text-align: center";
            "border-radius: 20px 0 0 20px"; "font-size: 12px";
            "font-weight: bold"; "padding: 4px 8px 4px 12px"; "margin: 5px 0"].
Definition LOG_STYLES_version : string :=
  join ";" ["background: #4fc3f7"; "color: white"; "display: inline-block";
            "line-height: 20px"; "text-align: center";
            "border-radius: 0 20px 20px 0"; "font-size: 12px";
            "font-weight: bold"; "padding: 4px 12px 4px 8px"; "margin: 5px 0"].
Definition LOG_STYLES_prefix : string := join ";" ["color: #4fc3f7"; "font-weight: bold"].
Definition LOG_STYLES_error : string := join ";" ["color: #f44336"; "font-weight: bold"].
Definition LOG_STYLES_warn : string := join ";" ["color: #ff9800"; "font-weight: bold"].

Definition emit (m : ConsoleMethod) (a : list Value) (s : State) : State :=
  {| DEBUG_MODE := DEBUG_MODE s; BANNER_SHOWN := BANNER_SHOWN s;
     CURRENT_LOG_LEVEL := CURRENT_LOG_LEVEL s;
     console := console s ++ [{| method := m; args := a |}];
     window_debug := window_debug s |}.

Definition set_mode (debugMode : bool) (s : State) : State :=
  {| DEBUG_MODE := debugMode; BANNER_SHOWN := BANNER_SHOWN s;
     CURRENT_LOG_LEVEL := if debugMode then DEBUG else WARN;
     console := console s; window_debug := window_debug s |}.

Definition set_banner_shown (s : State) : State :=
  {| DEBUG_MODE := DEBUG_MODE s; BANNER_SHOWN := true;
     CURRENT_LOG_LEVEL := CURRENT_LOG_LEVEL s;
     console := console s; window_debug := window_debug s |}.

Definition setLogLevel (l : LogLevel) (s : State) : State :=
  {| DEBUG_MODE := DEBUG_MODE s; BANNER_SHOWN := BANNER_SHOWN s;
     CURRENT_LOG_LEVEL := l;
     console := console s; window_debug := window_debug s |}.

Definition set_window_debug (b : bool) (s : State) : State :=
  {| DEBUG_MODE := DEBUG_MODE s; BANNER_SHOWN := BANNER_SHOWN s;
     CURRENT_LOG_LEVEL := CURRENT_LOG_LEVEL s;
     console := console s; window_debug := Some b |}.

Definition banner (version : string) : list ConsoleCall :=
  [ {| method := ConsoleGroupCollapsed;
       args := [VString ("%c📅 Calendar Card Pro%cv" +:+ version +:+ " ");
                VString LOG_STYLES_title; VString LOG_STYLES_version] |};
    {| method := ConsoleLog;
       args := [VString "%c Description: %c A calendar card that supports multiple calendars with individual styling. ";
                VString "font-weight: bold"; VString "font-weight: normal"] |};
    {| method := ConsoleLog;
       args := [VString "%c GitHub: %c https://github.com/alexpfau/calendar-card-pro ";
                VString "font-weight: bold"; VString "font-weight: normal"] |};
    {| method := ConsoleGroupEnd; args := [] |} ].

Definition printVersionBanner (version : string) (s : State) : State :=
  if BANNER_SHOWN s then s
  else
    let s := emit ConsoleGroupCollapsed
               [VString ("%c📅 Calendar Card Pro%cv" +:+ version +:+ " ");
                VString LOG_STYLES_title; VString LOG_STYLES_version] s in
    let s := emit ConsoleLog
               [VString "%c Description: %c A calendar card that supports multiple calendars with individual styling. ";
                VString "font-weight: bold"; VString "font-weight: normal"] s in
    let s := emit ConsoleLog
               [VString "%c GitHub: %c https://github.com/alexpfau/calendar-card-pro ";
                VString "font-weight: bold"; VString "font-weight: normal"] s in
    let s := emit ConsoleGroupEnd [] s in
    set_banner_shown s.

Definition initializeLogger (version : string) (debugMode : bool) (s : State) : State :=
  printVersionBanner version (set_mode debugMode s).

Definition tag (message : string) : Value :=
  VString ("%c[Calendar-Card-Pro] " +:+ message).

Definition error (messageOrError : Value) (data : list Value) (s : State) : State :=
  if (level (CURRENT_LOG_LEVEL s) <? level ERROR)%Z then s
  else
    match messageOrError with
    | VError _ message stack =>
        let errorMessage := if String.eqb message "" then "Unknown error" else message in
        let s := emit ConsoleError [tag ("Error: " +:+ errorMessage); VString LOG_STYLES_error] s in
        let s := match stack with
                 | Some st => if String.eqb st "" then s else emit ConsoleError [VString st] s
                 | None => s
                 end in
        match data with
        | [] => s
        | _ => emit ConsoleError (VString "Additional context:" :: data) s
        end
    | VString message =>
        match data with
        | [] => emit ConsoleError [tag message; VString LOG_STYLES_error] s
        | _ => emit ConsoleError (tag message :: VString LOG_STYLES_error :: data) s
        end
    | VOther _ =>
        emit ConsoleError
          (tag "Unknown error type:" :: VString LOG_STYLES_error :: messageOrError :: data) s
    end.

Definition leveled (threshold : LogLevel) (m : ConsoleMethod) (style : string)
    (message : string) (data : list Value) (s : State) : State :=
  if (level threshold <=? level (CURRENT_LOG_LEVEL s))%Z then
    match data with
    | [] => emit m [tag message; VString style] s
    | _ => emit m (tag message :: VString style :: data) s
    end
  else s.

Definition warn := leveled WARN ConsoleWarn LOG_STYLES_warn.
Definition info := leveled INFO ConsoleLog LOG_STYLES_prefix.
Definition debug := leveled DEBUG ConsoleLog LOG_STYLES_prefix.

Definition setDebugMode (enable : bool) (s : State) : State :=
  let s := set_mode enable s in
  let s := info ("Debug mode " +:+ (if enable then "enabled" else "disabled")) [] s in
  set_window_debug enable s.

(** [String(err)] for a value that is not an [Error]. *)
Definition String_of (v : Value) : string :=
  match v with
  | VString s => s
  | VError name message _ => name +:+ ": " +:+ message
  | VOther label => label
  end.

Definition logError (err : Value) (context : option string) (s : State) : State :=
  let errorMessage := match err with VError _ message _ => message | _ => String_of err end in
  let contextInfo := match context with
                     | Some c => if String.eqb c "" then "" else " during " +:+ c
                     | None => ""
                     end in
  let s := error (VString ("Error" +:+ contextInfo +:+ ": " +:+ errorMessage)) [] s in
  match err with
  | VError _ _ (Some st) => if String.eqb st "" then s else emit ConsoleError [VString st] s
  | _ => s
  end.

Definition handleApiError (err : Value) (s : State) : State :=
  error err [VOther "enhancedContext"] s.

(** One call of an exported function of the module. *)
Inductive Call :=
| CallInitializeLogger (version : string) (debugMode : bool)
| CallPrintVersionBanner (version : string)
| CallError (messageOrError : Value) (data : list Value)
| CallWarn (message : string) (data : list Value)
| CallInfo (message : string) (data : list Value)
| CallDebug (message : string) (data : list Value)
| CallSetLogLevel (l : LogLevel)
| CallSetDebugMode (enable : bool)
| CallLogError (err : Value) (context : option string)
| CallHandleApiError (err : Value).

Definition call (c : Call) (s : State) : State :=
  match c with
  | CallInitializeLogger v d => initializeLogger v d s
  | CallPrintVersionBanner v => printVersionBanner v s
  | CallError m d => error m d s
  | CallWarn m d => warn m d s
  | CallInfo m d => info m d s
  | CallDebug m d => debug m d s
  | CallSetLogLevel l => setLogLevel l s
  | CallSetDebugMode e => setDebugMode e s
  | CallLogError e c => logError e c s
  | CallHandleApiError e => handleApiError e s
  end.

(** A session: the calls made since the module was loaded, in order. *)
Definition session (cs : list Call) : State := fold_left (fun s c => call c s) cs initial.

Definition prints_banner (c : Call) : bool :=
  match c with
  | CallInitializeLogger _ _ | CallPrintVersionBanner _ => true
  | _ => false
  end.

Definition is_banner_head (c : ConsoleCall) : bool :=
  match method c with ConsoleGroupCollapsed => true | _ => false end.

(** How many banners the console shows. *)
Definition banners (s : State) : nat := length (filter (fun c => is_banner_head c = true) (console s)).

End Logger.

(** * interaction.ts *)

(** ** Data *)

(** An element of the [entities] configuration array: an entity id, or an
    object with an [entity] field. *)
Inductive EntityConfig :=
| EntityString (id : string)
| EntityObject (entity : string) (color : option string).

(** The fields of a [PointerEvent] the handlers read. *)
Record PointerEvent := {
  pointerId : Z;
  clientX : Z;
  clientY : Z;
  pointerType : string
}.

(** [Types.ActionConfig] and the two fields of [Types.Config] used here; the
    declarations are in [config/types], the fields are those the code reads. *)
Record ActionConfig := {
  action : option string;
  navigation_path : option string;
  service : option string;
  service_data : option (list (string * string));
  url_path : option string
}.

Record Config := {
  tap_action : option ActionConfig;
  hold_action : option ActionConfig
}.

(** Calls that leave the module: the host page, Home Assistant, the card.
    [ClearOpener] is the assignment [newTab.opener = null]. *)
Inductive ExternalCall :=
| ElementDispatchMoreInfo (entity : string)
| HistoryPushState (path : string)
| WindowDispatchLocationChanged
| HassCallService (domain name : string) (serviceData : list (string * string))
| WindowOpen (url : string)
| ClearOpener (url : string)
| ToggleExpanded
| NavigatorVibrate (ms : Z).

(** What the host does when called: it may throw, [window.open] may return
    no tab, [navigator.vibrate] may be missing. *)
Record Host := {
  raises : ExternalCall -> option Value;
  opens_tab : string -> bool;
  has_vibrate : bool
}.

(** The arguments of one [setupInteractions] call, with the instance id it
    draws and the result of its [querySelector]. *)
Record Env := {
  host : Host;
  config : Config;
  hass : bool;
  entityId : string;
  instanceId : string;
  hasRippleContainer : bool
}.

Record InteractionState := {
  state_instanceId : string;
  holdTimer : option nat;
  holdTriggered : bool;
  holdIndicator : option nat;
  activePointerId : option Z;
  lastActionTime : N;
  pendingHoldAction : bool
}.

(** The closure one [pointerDownHandler] call creates: its event, its ripple,
    its [hasMoved] variable, and which of its three window listeners are
    still registered. *)
Record Gesture := {
  ev : PointerEvent;
  ripple : nat;
  hasMoved : bool;
  moveListener : bool;
  upListener : bool;
  cancelListener : bool
}.

Definition startX (g : Gesture) : Z := clientX (ev g).
Definition startY (g : Gesture) : Z := clientY (ev g).

(** The functions handed to [setTimeout], with what they close over. *)
Inductive Callback :=
| HoldCallback (downEv : PointerEvent) (isTouch : bool)
| RippleReleaseCallback (r : nat)
| RippleFadeCallback (r : nat)
| RippleRemoveCallback (r : nat)
| IndicatorRemoveCallback (i : nat)
| RebuildCallback.

Record Timer := { handle : nat; due : N; callback : Callback }.

(** Which call site of [handleAction] in [handlePointerUp] was reached. *)
Inductive Fired := FiredTap | FiredHold.

Record World := {
  (* variables of setupInteractions *)
  state : InteractionState;
  stateRef : nat;
  activeRipples : list nat;
  gestures : list Gesture;
  (* listeners on the element and on window *)
  downAttached : bool;
  navigationAttached : bool;
  (* DOM *)
  rippleChildren : list nat;
  bodyChildren : list nat;
  isConnected : bool;
  (* event loop *)
  timers : list Timer;
  now : N;
  (* allocation *)
  nextRef : nat;
  nextElement : nat;
  nextHandle : nat;
  (* observations *)
  logger : Logger.State;
  effects : list (ExternalCall * option Value);
  fired : list Fired;
  uncaught : list Value
}.

Definition on_state (f : InteractionState -> InteractionState) (w : World) : World :=
  Build_World (f (state w)) (stateRef w) (activeRipples w) (gestures w) (downAttached w)
    (navigationAttached w) (rippleChildren w) (bodyChildren w) (isConnected w) (timers w)
    (now w) (nextRef w) (nextElement w) (nextHandle w) (logger w) (effects w) (fired w)
    (uncaught w).
Definition replace_state (s : InteractionState) (w : World) : World :=
  Build_World s (nextRef w) (activeRipples w) (gestures w) (downAttached w)
    (navigationAttached w) (rippleChildren w) (bodyChildren w) (isConnected w) (timers w)
    (now w) (S (nextRef w)) (nextElement w) (nextHandle w) (logger w) (effects w) (fired w)
    (uncaught w).
Definition on_activeRipples (f : list nat -> list nat) (w : World) : World :=
  Build_World (state w) (stateRef w) (f (activeRipples w)) (gestures w) (downAttached w)
    (navigationAttached w) (rippleChildren w) (bodyChildren w) (isConnected w) (timers w)
    (now w) (nextRef w) (nextElement w) (nextHandle w) (logger w) (effects w) (fired w)
    (uncaught w).
Definition on_gestures (f : list Gesture -> list Gesture) (w : World) : World :=
  Build_World (state w) (stateRef w) (activeRipples w) (f (gestures w)) (downAttached w)
    (navigationAttached w) (rippleChildren w) (bodyChildren w) (isConnected w) (timers w)
    (now w) (nextRef w) (nextElement w) (nextHandle w) (logger w) (effects w) (fired w)
    (uncaught w).
Definition set_downAttached (b : bool) (w : World) : World :=
  Build_World (state w) (stateRef w) (activeRipples w) (gestures w) b
    (navigationAttached w) (rippleChildren w) (bodyChildren w) (isConnected w) (timers w)
    (now w) (nextRef w) (nextElement w) (nextHandle w) (logger w) (effects w) (fired w)
    (uncaught w).
Definition set_navigationAttached (b : bool) (w : World) : World :=
  Build_World (state w) (stateRef w) (activeRipples w) (gestures w) (downAttached w)
    b (rippleChildren w) (bodyChildren w) (isConnected w) (timers w)
    (now w) (nextRef w) (nextElement w) (nextHandle w) (logger w) (effects w) (fired w)
    (uncaught w).
Definition on_rippleChildren (f : list nat -> list nat) (w : World) : World :=
  Build_World (state w) (stateRef w) (activeRipples w) (gestures w) (downAttached w)
    (navigationAttached w) (f (rippleChildren w)) (bodyChildren w) (isConnected w) (timers w)
    (now w) (nextRef w) (nextElement w) (nextHandle w) (logger w) (effects w) (fired w)
    (uncaught w).
Definition on_bodyChildren (f : list nat -> list nat) (w : World) : World :=
  Build_World (state w) (stateRef w) (activeRipples w) (gestures w) (downAttached w)
    (navigationAttached w) (rippleChildren w) (f (bodyChildren w)) (isConnected w) (timers w)
    (now w) (nextRef w) (nextElement w) (nextHandle w) (logger w) (effects w) (fired w)
    (uncaught w).
Definition set_isConnected (b : bool) (w : World) : World :=
  Build_World (state w) (stateRef w) (activeRipples w) (gestures w) (downAttached w)
    (navigationAttached w) (rippleChildren w) (bodyChildren w) b (timers w)
    (now w) (nextRef w) (nextElement w) (nextHandle w) (logger w) (effects w) (fired w)
    (uncaught w).
Definition on_timers (f : list Timer -> list Timer) (w : World) : World :=
  Build_World (state w) (stateRef w) (activeRipples w) (gestures w) (downAttached w)
    (navigationAttached w) (rippleChildren w) (bodyChildren w) (isConnected w) (f (timers w))
    (now w) (nextRef w) (nextElement w) (nextHandle w) (logger w) (effects w) (fired w)
    (uncaught w).
Definition set_now (t : N) (w : World) : World :=
  Build_World (state w) (stateRef w) (activeRipples w) (gestures w) (downAttached w)
    (navigationAttached w) (rippleChildren w) (bodyChildren w) (isConnected w) (timers w)
    t (nextRef w) (nextElement w) (nextHandle w) (logger w) (effects w) (fired w)
    (uncaught w).
Definition bump_nextElement (w : World) : World :=
  Build_World (state w) (stateRef w) (activeRipples w) (gestures w) (downAttached w)
    (navigationAttached w) (rippleChildren w) (bodyChildren w) (isConnected w) (timers w)
    (now w) (nextRef w) (S (nextElement w)) (nextHandle w) (logger w) (effects w) (fired w)
    (uncaught w).
Definition bump_nextHandle (w : World) : World :=
  Build_World (state w) (stateRef w) (activeRipples w) (gestures w) (downAttached w)
    (navigationAttached w) (rippleChildren w) (bodyChildren w) (isConnected w) (timers w)
    (now w) (nextRef w) (nextElement w) (S (nextHandle w)) (logger w) (effects w) (fired w)
    (uncaught w).
Definition on_logger (f : Logger.State -> Logger.State) (w : World) : World :=
  Build_World (state w) (stateRef w) (activeRipples w) (gestures w) (downAttached w)
    (navigationAttached w) (rippleChildren w) (bodyChildren w) (isConnected w) (timers w)
    (now w) (nextRef w) (nextElement w) (nextHandle w) (f (logger w)) (effects w) (fired w)
    (uncaught w).
Definition on_effects (f : list (ExternalCall * option Value) -> list (ExternalCall * option Value))
    (w : World) : World :=
  Build_World (state w) (stateRef w) (activeRipples w) (gestures w) (downAttached w)
    (navigationAttached w) (rippleChildren w) (bodyChildren w) (isConnected w) (timers w)
    (now w) (nextRef w) (nextElement w) (nextHandle w) (logger w) (f (effects w)) (fired w)
    (uncaught w).
Definition on_fired (f : list Fired -> list Fired) (w : World) : World :=
  Build_World (state w) (stateRef w) (activeRipples w) (gestures w) (downAttached w)
    (navigationAttached w) (rippleChildren w) (bodyChildren w) (isConnected w) (timers w)
    (now w) (nextRef w) (nextElement w) (nextHandle w) (logger w) (effects w) (f (fired w))
    (uncaught w).
Definition on_uncaught (f : list Value -> list Value) (w : World) : World :=
  Build_World (state w) (stateRef w) (activeRipples w) (gestures w) (downAttached w)
    (navigationAttached w) (rippleChildren w) (bodyChildren w) (isConnected w) (timers w)
    (now w) (nextRef w) (nextElement w) (nextHandle w) (logger w) (effects w) (fired w)
    (f (uncaught w)).

(** Assignments to the fields of the object [state] refers to. *)
Definition with_holdTimer (t : option nat) (s : InteractionState) : InteractionState :=
  Build_InteractionState (state_instanceId s) t (holdTriggered s) (holdIndicator s)
    (activePointerId s) (lastActionTime s) (pendingHoldAction s).
Definition with_holdTriggered (b : bool) (s : InteractionState) : InteractionState :=
  Build_InteractionState (state_instanceId s) (holdTimer s) b (holdIndicator s)
    (activePointerId s) (lastActionTime s) (pendingHoldAction s).
Definition with_holdIndicator (i : option nat) (s : InteractionState) : InteractionState :=
  Build_InteractionState (state_instanceId s) (holdTimer s) (holdTriggered s) i
    (activePointerId s) (lastActionTime s) (pendingHoldAction s).
Definition with_activePointerId (p : option Z) (s : InteractionState) : InteractionState :=
  Build_InteractionState (state_instanceId s) (holdTimer s) (holdTriggered s) (holdIndicator s)
    p (lastActionTime s) (pendingHoldAction s).
Definition with_lastActionTime (t : N) (s : InteractionState) : InteractionState :=
  Build_InteractionState (state_instanceId s) (holdTimer s) (holdTriggered s) (holdIndicator s)
    (activePointerId s) t (pendingHoldAction s).
Definition with_pendingHoldAction (b : bool) (s : InteractionState) : InteractionState :=
  Build_InteractionState (state_instanceId s) (holdTimer s) (holdTriggered s) (holdIndicator s)
    (activePointerId s) (lastActionTime s) b.

(** Assignments to the variables of a gesture closure. *)
Definition with_hasMoved (b : bool) (g : Gesture) : Gesture :=
  Build_Gesture (ev g) (ripple g) b (moveListener g) (upListener g) (cancelListener g).
Definition with_moveListener (b : bool) (g : Gesture) : Gesture :=
  Build_Gesture (ev g) (ripple g) (hasMoved g) b (upListener g) (cancelListener g).
Definition with_upListener (b : bool) (g : Gesture) : Gesture :=
  Build_Gesture (ev g) (ripple g) (hasMoved g) (moveListener g) b (cancelListener g).
Definition with_cancelListener (b : bool) (g : Gesture) : Gesture :=
  Build_Gesture (ev g) (ripple g) (hasMoved g) (moveListener g) (upListener g) b.

(** ** Computations: world-passing with exceptions *)

Definition M (A : Type) : Type := World -> Outcome A * World.

Definition ret {A} (a : A) : M A := fun w => (Ret a, w).

(** Sequencing: what the first computation throws ends the sequence. *)
Definition bind {A B} (m : M A) (f : A -> M B) : M B := fun w =>
  match m w with
  | (Ret a, w') => f a w'
  | (Throw e, w') => (Throw e, w')
  end.

Declare Scope js_scope.
Delimit Scope js_scope with js.
Notation "x ← y ; z" := (bind y (fun x => z))
  (at level 20, y at level 100, z at level 200, only parsing) : js_scope.
Notation "x ;; z" := (bind x (fun _ => z))
  (at level 100, z at level 200, only parsing, right associativity) : js_scope.
Local Open Scope js_scope.

Definition gets {A} (f : World -> A) : M A := fun w => (Ret (f w), w).
Definition modify (f : World -> World) : M unit := fun w => (Ret tt, f w).
Definition skip : M unit := ret tt.

(** [try { body } catch (e) { handler e }] *)
Definition try_catch {A} (body : M A) (handler : Value -> M A) : M A := fun w =>
  match body w with
  | (Ret a, w') => (Ret a, w')
  | (Throw e, w') => handler e w'
  end.

(** A listener or timer callback called by the browser: what it throws is
    reported, and does not reach the other listeners. *)
Definition deliver (m : M unit) (w : World) : World :=
  match m w with
  | (Ret _, w') => w'
  | (Throw e, w') => on_uncaught (fun l => l ++ [e]) w'
  end.

(** [String.prototype.split] on a one-character separator. *)
Fixpoint split (sep : ascii) (s : string) : list string :=
  match s with
  | EmptyString => [EmptyString]
  | String c rest =>
      if Ascii.eqb c sep then EmptyString :: split sep rest
      else match split sep rest with
           | part :: parts => String c part :: parts
           | [] => [String c EmptyString]
           end
  end.

(** [Array.prototype.indexOf]; [None] is [-1]. *)
Fixpoint indexOf (x : nat) (l : list nat) : option nat :=
  match l with
  | [] => None
  | y :: l' => if Nat.eqb y x then Some 0%nat else S <$> indexOf x l'
  end.

(** [Math.sqrt(dx * dx + dy * dy) > limit], on integer coordinates and a
    non-negative integer limit. *)
Definition distance_exceeds (limit dx dy : Z) : bool := (limit * limit <? dx * dx + dy * dy)%Z.

(** ** getPrimaryEntityId

    [entities[0]] of an empty array is [undefined]; reading [.entity] of it
    throws a [TypeError]. *)
Definition getPrimaryEntityId (entities : list EntityConfig) : Outcome string :=
  match entities !! 0%nat with
  | Some (EntityString firstEntity) => Ret firstEntity
  | Some (EntityObject entity _) => Ret entity
  | None => Throw (VError "TypeError" "Cannot read properties of undefined (reading 'entity')" None)
  end.

Definition is_hold (t : Timer) : bool :=
  match callback t with HoldCallback _ _ => true | _ => false end.

Section Setup.

Variable env : Env.

(** *** Host and browser primitives *)

(** A call to the host, logged with what it threw, if anything. *)
Definition external (c : ExternalCall) : M unit := fun w =>
  match raises (host env) c with
  | Some e => (Throw e, on_effects (fun l => l ++ [(c, Some e)]) w)
  | None => (Ret tt, on_effects (fun l => l ++ [(c, None)]) w)
  end.

Definition Logger_debug (message : string) (data : list Value) : M unit :=
  modify (on_logger (Logger.debug message data)).
Definition Logger_info (message : string) (data : list Value) : M unit :=
  modify (on_logger (Logger.info message data)).
Definition Logger_warn (message : string) (data : list Value) : M unit :=
  modify (on_logger (Logger.warn message data)).
Definition Logger_error (message : string) (data : list Value) : M unit :=
  modify (on_logger (Logger.error (VString message) data)).

Definition setTimeout (cb : Callback) (delay : N) : M nat := fun w =>
  (Ret (nextHandle w),
   bump_nextHandle
     (on_timers (fun ts => ts ++ [{| handle := nextHandle w; due := (now w + delay)%N;
                                     callback := cb |}]) w)).

Definition clearTimeout (h : nat) : M unit :=
  modify (on_timers (filter (fun t => handle t ≠ h))).

Definition Date_now : M N := gets now.

Definition createElement : M nat := fun w => (Ret (nextElement w), bump_nextElement w).

(** [parent.removeChild(node)]; a node occurs at most once among the
    children of its parent. *)
Definition removeChild (node : nat) (children : list nat) : list nat :=
  filter (fun c => c ≠ node) children.

Definition assign (f : InteractionState -> InteractionState) : M unit :=
  modify (on_state f).

Definition gesture (i : nat) : M (option Gesture) := gets (fun w => gestures w !! i).

Definition assign_gesture (i : nat) (f : Gesture -> Gesture) : M unit :=
  modify (on_gestures (alter f i)).

(** [if (state.holdTimer !== null) { clearTimeout(state.holdTimer);
    state.holdTimer = null; }] *)
Definition clearHoldTimer : M unit :=
  s ← gets state;
  match holdTimer s with
  | Some t => clearTimeout t;; assign (with_holdTimer None)
  | None => skip
  end.

(** *** Actions *)

Definition fireMoreInfo (entity : string) : M unit :=
  if String.eqb entity "" then
    Logger_warn "Cannot show more-info - no entity ID provided" []
  else
    Logger_info ("Firing more-info for entity: " +:+ entity) [];;
    try_catch
      (external (ElementDispatchMoreInfo entity))
      (fun error => Logger_error "Error firing more-info event:" [error]).

(** The ['location-changed'] listener [setupInteractions] registers. *)
Definition navigationListener : M unit :=
  Logger_info ("Navigation detected for " +:+ instanceId env +:+ ", rebuilding interaction system") [];;
  _ ← setTimeout RebuildCallback 250;
  skip.

(** [window.dispatchEvent(locationChangedEvent)]: the host may throw;
    otherwise the registered listener runs before the call returns. *)
Definition dispatchLocationChanged : M unit :=
  external WindowDispatchLocationChanged;;
  attached ← gets navigationAttached;
  if attached then modify (deliver navigationListener) else skip.

Definition handleNavigation (actionConfig : ActionConfig) : M unit :=
  if negb (truthy (navigation_path actionConfig)) then
    Logger_warn "Cannot navigate - no navigation path provided" []
  else
    let path := default "" (navigation_path actionConfig) in
    Logger_info ("Navigating to: " +:+ path) [];;
    try_catch
      (external (HistoryPushState path);;
       dispatchLocationChanged)
      (fun error => Logger_error "Error during navigation:" [error]).

Definition callService (actionConfig : ActionConfig) : M unit :=
  if negb (truthy (service actionConfig)) then
    Logger_warn "Cannot call service - no service specified" []
  else
    let name := default "" (service actionConfig) in
    match split "." name with
    | [domain; service] =>
        let serviceData := default [] (service_data actionConfig) in
        Logger_info ("Calling service " +:+ domain +:+ "." +:+ service) [VOther "serviceData"];;
        try_catch
          (external (HassCallService domain service serviceData))
          (fun error =>
             Logger_error ("Error calling service " +:+ domain +:+ "." +:+ service +:+ ":") [error])
    | _ =>
        Logger_error ("Invalid service format: " +:+ name +:+ " - must be domain.service") []
    end.

Definition openUrl (actionConfig : ActionConfig) : M unit :=
  if negb (truthy (url_path actionConfig)) then
    Logger_warn "Cannot open URL - no URL path provided" []
  else
    let url_path := default "" (url_path actionConfig) in
    Logger_info ("Opening URL: " +:+ url_path) [];;
    try_catch
      (url ← (if negb (String.prefix "http://" url_path)
                  && negb (String.prefix "https://" url_path)
                  && negb (String.prefix "/" url_path)
              then
                Logger_warn ("Potentially unsafe URL: " +:+ url_path +:+ " - adding https://") [];;
                ret ("https://" +:+ url_path)
              else ret url_path);
       external (WindowOpen url);;
       if opens_tab (host env) url then external (ClearOpener url) else skip)
      (fun error => Logger_error "Error opening URL:" [error]).

Definition handleAction (actionConfig : option ActionConfig) : M unit :=
  match actionConfig with
  | None => Logger_debug "No action or action set to none - ignoring" []
  | Some actionConfig =>
      if negb (truthy (action actionConfig))
         || bool_decide (action actionConfig = Some "none")
      then Logger_debug "No action or action set to none - ignoring" []
      else
        let name := default "" (action actionConfig) in
        Logger_info ("Executing action: " +:+ name) [];;
        try_catch
          (if String.eqb name "more-info" then fireMoreInfo (entityId env)
           else if String.eqb name "navigate" then handleNavigation actionConfig
           else if String.eqb name "call-service" then
             if hass env then callService actionConfig
             else Logger_warn "Cannot call service - hass object not available" []
           else if String.eqb name "url" then openUrl actionConfig
           else if String.eqb name "expand" then external ToggleExpanded
           else Logger_warn ("Unknown action type: " +:+ name) [])
          (fun error => Logger_error ("Error executing action " +:+ name +:+ ":") [error])
  end.

(** *** Visual feedback *)

Definition createRippleEffect (event : PointerEvent) : M nat :=
  Logger_info "Creating ripple effect" [VOther "{x, y, container}"];;
  r ← createElement;
  modify (on_rippleChildren (fun l => l ++ [r]));;
  ret r.

Definition removeRippleEffect (r : nat) (delay : N) : M unit :=
  children ← gets rippleChildren;
  if negb (bool_decide (r ∈ children)) then skip
  else _ ← setTimeout (RippleFadeCallback r) delay; skip.

Definition createHoldIndicator (event : PointerEvent) : M nat :=
  Logger_info "Creating hold indicator" [VOther "{x, y}"];;
  i ← createElement;
  modify (on_bodyChildren (fun l => l ++ [i]));;
  ret i.

Definition removeHoldIndicator (i : nat) : M unit :=
  children ← gets bodyChildren;
  if negb (bool_decide (i ∈ children)) then skip
  else _ ← setTimeout (IndicatorRemoveCallback i) 300; skip.

(** *** setupInteractions *)

(** [config.x_action && config.x_action.action !== 'none'] *)
Definition configured (a : option ActionConfig) : bool :=
  match a with
  | Some actionConfig => negb (bool_decide (action actionConfig = Some "none"))
  | None => false
  end.

Definition clearRippleContainer : M unit :=
  modify (on_rippleChildren (fun _ => []));;
  modify (on_activeRipples (fun _ => [])).

Definition createFreshState : InteractionState :=
  {| state_instanceId := instanceId env;
     holdTimer := None;
     holdTriggered := false;
     holdIndicator := None;
     activePointerId := None;
     lastActionTime := 0;
     pendingHoldAction := false |}.

Definition resetInteractions : M unit :=
  clearHoldTimer;;
  s ← gets state;
  children ← gets bodyChildren;
  match holdIndicator s with
  | Some i =>
      if bool_decide (i ∈ children) then
        modify (on_bodyChildren (removeChild i));;
        assign (with_holdIndicator None)
      else skip
  | None => skip
  end;;
  clearRippleContainer;;
  modify (replace_state createFreshState);;
  Logger_debug ("Interaction state fully reset for " +:+ instanceId env) [].

(** The function given to [window.setTimeout] in [pointerDownHandler]. *)
Definition holdCallback (downEv : PointerEvent) (isTouch : bool) : M unit :=
  s ← gets state;
  if bool_decide (activePointerId s = Some (pointerId downEv)) then
    Logger_debug ("Hold threshold reached for " +:+ instanceId env) [VOther "{state}"];;
    assign (with_holdTriggered true);;
    assign (with_pendingHoldAction true);;
    i ← createHoldIndicator downEv;
    assign (with_holdIndicator (Some i));;
    if isTouch && has_vibrate (host env) then
      try_catch (external (NavigatorVibrate 50)) (fun _ => skip)
    else skip
  else skip.

Definition pointerDownHandler (downEv : PointerEvent) : M unit :=
  assign (with_holdTriggered false);;
  assign (with_pendingHoldAction false);;
  assign (with_activePointerId (Some (pointerId downEv)));;
  let isTouch := String.eqb (pointerType downEv) "touch" in
  r ← createRippleEffect downEv;
  modify (on_activeRipples (fun l => l ++ [r]));;
  (if configured (hold_action (config env)) then
     clearHoldTimer;;
     t ← setTimeout (HoldCallback downEv isTouch) 500;
     assign (with_holdTimer (Some t))
   else skip);;
  modify (on_gestures (fun l => l ++ [{| ev := downEv; ripple := r; hasMoved := false;
                                         moveListener := true; upListener := true;
                                         cancelListener := true |}])).

(** The three window listeners of the gesture closure at index [i]. *)
Definition handlePointerMove (i : nat) (moveEv : PointerEvent) : M unit :=
  g ← gesture i;
  match g with
  | None => skip
  | Some g =>
      s ← gets state;
      if negb (bool_decide (activePointerId s = Some (pointerId (ev g)))) then skip
      else
        let dx := (clientX moveEv - startX g)%Z in
        let dy := (clientY moveEv - startY g)%Z in
        if distance_exceeds 10 dx dy then
          assign_gesture i (with_hasMoved true);;
          clearHoldTimer
        else skip
  end.

Definition handlePointerUp (i : nat) (upEv : PointerEvent) : M unit :=
  assign_gesture i (with_moveListener false);;
  g ← gesture i;
  match g with
  | None => skip
  | Some g =>
      s ← gets state;
      if negb (bool_decide (activePointerId s = Some (pointerId (ev g)))) then skip
      else
        clearHoldTimer;;
        assign (with_activePointerId None);;
        s ← gets state;
        (if pendingHoldAction s && negb (hasMoved g) then
           Logger_debug ("Executing hold action on pointer up for " +:+ instanceId env)
             [VOther "{state}"];;
           (if configured (hold_action (config env)) then
              modify (on_fired (fun l => l ++ [FiredHold]));;
              handleAction (hold_action (config env));;
              t ← Date_now;
              assign (with_lastActionTime t)
            else skip);;
           assign (with_pendingHoldAction false)
         else if negb (holdTriggered s) && negb (hasMoved g)
                 && configured (tap_action (config env)) then
           Logger_debug ("Executing tap action for " +:+ instanceId env) [VOther "{state}"];;
           modify (on_fired (fun l => l ++ [FiredTap]));;
           handleAction (tap_action (config env));;
           t ← Date_now;
           assign (with_lastActionTime t)
         else skip);;
        s ← gets state;
        children ← gets bodyChildren;
        match holdIndicator s with
        | Some ind =>
            if bool_decide (ind ∈ children) then
              removeHoldIndicator ind;;
              assign (with_holdIndicator None)
            else skip
        | None => skip
        end;;
        assign (with_holdTriggered false);;
        assign (with_pendingHoldAction false);;
        _ ← setTimeout (RippleReleaseCallback (ripple g)) 100;
        assign_gesture i (with_upListener false);;
        assign_gesture i (with_cancelListener false)
  end.

Definition handlePointerCancel (i : nat) : M unit :=
  assign_gesture i (with_moveListener false);;
  g ← gesture i;
  match g with
  | None => skip
  | Some g =>
      clearHoldTimer;;
      assign (with_activePointerId None);;
      assign (with_holdTriggered false);;
      assign (with_pendingHoldAction false);;
      s ← gets state;
      children ← gets bodyChildren;
      match holdIndicator s with
      | Some ind =>
          if bool_decide (ind ∈ children) then
            removeHoldIndicator ind;;
            assign (with_holdIndicator None)
          else skip
      | None => skip
      end;;
      ripples ← gets activeRipples;
      match indexOf (ripple g) ripples with
      | Some index =>
          removeRippleEffect (ripple g) 0;;
          modify (on_activeRipples (delete index))
      | None => skip
      end;;
      assign_gesture i (with_upListener false);;
      assign_gesture i (with_cancelListener false)
  end.

(** *** Timer callbacks *)

Definition runCallback (cb : Callback) : M unit :=
  match cb with
  | HoldCallback downEv isTouch => holdCallback downEv isTouch
  | RippleReleaseCallback r =>
      ripples ← gets activeRipples;
      match indexOf r ripples with
      | Some index =>
          removeRippleEffect r 100;;
          modify (on_activeRipples (delete index))
      | None => skip
      end
  | RippleFadeCallback r =>
      _ ← setTimeout (RippleRemoveCallback r) 300; skip
  | RippleRemoveCallback r =>
      modify (on_rippleChildren (removeChild r))
  | IndicatorRemoveCallback i =>
      modify (on_bodyChildren (removeChild i))
  | RebuildCallback =>
      connected ← gets isConnected;
      if connected then
        modify (set_downAttached false);;
        resetInteractions;;
        modify (set_downAttached true);;
        Logger_debug ("Interaction system fully rebuilt after navigation for " +:+ instanceId env) []
      else skip
  end.

(** The cleanup function [setupInteractions] returns. *)
Definition cleanup : M unit :=
  modify (set_downAttached false);;
  modify (set_navigationAttached false);;
  resetInteractions;;
  Logger_debug ("Interaction system cleanup complete for " +:+ instanceId env) [].

(** *** The browser side *)

(** What the page looks like when [setupInteractions] is called. *)
Record Page := {
  page_logger : Logger.State;
  page_now : N;
  page_connected : bool
}.

Definition blank (p : Page) : World :=
  {| state := createFreshState; stateRef := 0; activeRipples := []; gestures := [];
     downAttached := false; navigationAttached := false;
     rippleChildren := []; bodyChildren := []; isConnected := page_connected p;
     timers := []; now := page_now p;
     nextRef := 1; nextElement := 0; nextHandle := 0;
     logger := page_logger p; effects := []; fired := []; uncaught := [] |}.

Definition setupInteractions (p : Page) : World :=
  let w := on_logger (Logger.debug ("Creating interaction setup with ID: " +:+ instanceId env) [])
             (blank p) in
  if negb (configured (tap_action (config env)))
     && negb (configured (hold_action (config env)))
  then w
  else if negb (hasRippleContainer env) then
    on_logger (Logger.warn "Cannot set up interactions - missing ripple container" []) w
  else set_navigationAttached true (set_downAttached true w).

(** Dispatch of a window event to the gesture closures whose listener for
    it is registered, in registration order. *)
Definition dispatch (registered : Gesture -> bool) (listener : nat -> M unit)
    (w : World) : World :=
  fold_left
    (fun w i =>
       match gestures w !! i with
       | Some g => if registered g then deliver (listener i) w else w
       | None => w
       end)
    (seq 0 (length (gestures w))) w.

(** A listener registered with [{ once: true }] is removed before it is
    called. *)
Definition once (unregister : Gesture -> Gesture) (listener : nat -> M unit) (i : nat) : M unit :=
  assign_gesture i unregister;; listener i.

Definition fireTimer (h : nat) (w : World) : World :=
  match List.find (fun t => Nat.eqb (handle t) h) (timers w) with
  | Some t =>
      if (due t <=? now w)%N then
        deliver (runCallback (callback t)) (on_timers (filter (fun t' => handle t' ≠ h)) w)
      else w
  | None => w
  end.

Inductive Event :=
| PointerDown (e : PointerEvent)
| PointerMove (e : PointerEvent)
| PointerUp (e : PointerEvent)
| PointerCancel (e : PointerEvent)
| LocationChanged
| TimerFires (h : nat)
| Elapse (dt : N)
| Attach (connected : bool)
| Cleanup.

Definition step (w : World) (e : Event) : World :=
  match e with
  | PointerDown downEv =>
      if downAttached w then deliver (pointerDownHandler downEv) w else w
  | PointerMove moveEv =>
      dispatch moveListener (fun i => handlePointerMove i moveEv) w
  | PointerUp upEv =>
      dispatch upListener (once (with_upListener false) (fun i => handlePointerUp i upEv)) w
  | PointerCancel _ =>
      dispatch cancelListener (once (with_cancelListener false) handlePointerCancel) w
  | LocationChanged =>
      if navigationAttached w then deliver navigationListener w else w
  | TimerFires h => fireTimer h w
  | Elapse dt => set_now (now w + dt)%N w
  | Attach connected => set_isConnected connected w
  | Cleanup => deliver cleanup w
  end.

Definition run (w : World) (es : list Event) : World := fold_left step es w.

Inductive reachable : World -> Prop :=
| reachable_setup p : reachable (setupInteractions p)
| reachable_step w e : reachable w -> reachable (step w e).

End Setup.

(** * Vocabulary of the properties *)

(** What [navigationListener] adds to the world: the rebuild timer. *)
Definition schedule_rebuild (w : World) : World :=
  bump_nextHandle
    (on_timers (fun ts => ts ++ [{| handle := nextHandle w; due := (now w + 250)%N;
                                    callback := RebuildCallback |}]) w).

(** Everything [handleAction] can change: the console, the log of external
    calls, and the rebuild timer a navigation schedules. *)
Definition action_result (lg : Logger.State) (fx : list (ExternalCall * option Value))
    (nav : bool) (w : World) : World :=
  let w := on_effects (fun l => l ++ fx) (on_logger (fun _ => lg) w) in
  if nav then schedule_rebuild w else w.

(** The action types [handleAction] dispatches to an effect. *)
Definition dispatches (actionConfig : option ActionConfig) : bool :=
  match actionConfig with
  | Some a =>
      match action a with
      | Some name =>
          bool_decide (name ∈ ["more-info"; "navigate"; "call-service"; "url"; "expand"])
      | None => false
      end
  | None => false
  end.

(** A console call that reports [e] through [console.error]. *)
Definition reports (e : Value) (c : Logger.ConsoleCall) : Prop :=
  Logger.method c = Logger.ConsoleError ∧ e ∈ Logger.args c.

(** The console grew from [lg0] to [lg] by calls that report every
    exception recorded in [fx]. *)
Definition accounted (lg0 lg : Logger.State) (fx : list (ExternalCall * option Value)) : Prop :=
  ∃ calls, Logger.console lg = Logger.console lg0 ++ calls
           ∧ ∀ c e, (c, Some e) ∈ fx → ∃ call, call ∈ calls ∧ reports e call.

(** Invariants of the worlds [setupInteractions] and the events produce. *)
Record Inv (w : World) : Prop := {
  inv_handles : ∀ t, t ∈ timers w → handle t < nextHandle w;
  inv_hold : ∀ t, t ∈ timers w → is_hold t = true → holdTimer (state w) = Some (handle t);
  inv_indicator : ∀ i, holdIndicator (state w) = Some i →
                  i ∈ bodyChildren w ∧ i < nextElement w;
  inv_removal : ∀ t i, t ∈ timers w → callback t = IndicatorRemoveCallback i →
                holdIndicator (state w) ≠ Some i ∧ i < nextElement w;
  inv_ripples : NoDup (activeRipples w);
  inv_ripples_fresh : ∀ r, r ∈ activeRipples w → r < nextElement w;
  inv_ref : stateRef w < nextRef w
}.

(** No gesture of pointer [pid] still has its move or up listener. *)
Definition dormant (pid : Z) (g : Gesture) : bool :=
  negb (pointerId (ev g) =? pid)%Z || (negb (moveListener g) && negb (upListener g)).





(** The gesture of [downEv] is the most recent closure, owns the state, and
    has all its listeners; [moved] and [held] are its [hasMoved] variable and
    the two hold flags. *)
Record tracking (w : World) (downEv : PointerEvent) (stale : list Gesture) (r : nat)
    (moved held : bool) : Prop := {
  tracking_active : activePointerId (state w) = Some (pointerId downEv);
  tracking_gestures :
    gestures w = stale ++ [{| ev := downEv; ripple := r; hasMoved := moved;
                              moveListener := true; upListener := true;
                              cancelListener := true |}];
  tracking_stale : forallb (dormant (pointerId downEv)) stale = true;
  tracking_pending : pendingHoldAction (state w) = held;
  tracking_triggered : holdTriggered (state w) = held
}.

(** The hold timer [h] of [downEv] is pending and due at [d]. *)
Definition armed (w : World) (h : nat) (d : N) (downEv : PointerEvent) : Prop :=
  holdTimer (state w) = Some h ∧
  ∃ isTouch,
    List.find (fun t => Nat.eqb (handle t) h) (timers w)
    = Some {| handle := h; due := d; callback := HoldCallback downEv isTouch |}.


(** The state between gestures. *)
Definition idle (s : InteractionState) : Prop :=
  holdTimer s = None ∧ activePointerId s = None ∧
  holdTriggered s = false ∧ pendingHoldAction s = false.


(** ** A sample card *)

Module Sample.

Definition quietHost : Host :=
  {| raises := fun _ => None; opens_tab := fun _ => true; has_vibrate := true |}.

(** A host on which every external call throws. *)
Definition failingHost : Host :=
  {| raises := fun _ => Some (VError "Error" "host failure" None);
     opens_tab := fun _ => true; has_vibrate := true |}.

Definition act (name : string) : ActionConfig :=
  {| action := Some name; navigation_path := Some "/lovelace/calendar";
     service := Some "light.toggle"; service_data := None;
     url_path := Some "example.org" |}.

Definition card (h : Host) : Env :=
  {| host := h;
     config := {| tap_action := Some (act "expand"); hold_action := Some (act "more-info") |};
     hass := true; entityId := "calendar.family"; instanceId := "interaction_k3x9q2m1z";
     hasRippleContainer := true |}.

Definition env : Env := card quietHost.

Definition page : Page :=
  {| page_logger := Logger.initial; page_now := 1000; page_connected := true |}.

Definition start : World := setupInteractions env page.

Definition pointer (id x y : Z) : PointerEvent :=
  {| pointerId := id; clientX := x; clientY := y; pointerType := "touch" |}.

Definition finger : PointerEvent := pointer 1 40 40.






(** The first gesture of the card, held until the hold timer has fired. *)
Definition held : World := run env start [PointerDown finger; Elapse 500; TimerFires 0].

(** The closure of that gesture. *)
Definition finger_closure : Gesture :=
  {| ev := finger; ripple := 0; hasMoved := false; moveListener := true;
     upListener := true; cancelListener := true |}.


(** A second finger going down while the first is held. *)
Definition thumb : PointerEvent := pointer 2 200 200.
Definition taken_over : World := step env held (PointerDown thumb).

(** The first gesture of the card, just begun. *)
Definition pressed : World := step env start (PointerDown finger).

(** A navigation during that gesture, the element detached before the
    settling delay has passed. *)
Definition detached : World :=
  run env pressed [LocationChanged; Attach false; Elapse 250; TimerFires 1].

End Sample.

(** * Vocabulary of the further properties *)

(** The version the first banner call of a session was given. *)
Fixpoint first_version (cs : list Logger.Call) : option string :=
  match cs with
  | [] => None
  | Logger.CallInitializeLogger version _ :: _ => Some version
  | Logger.CallPrintVersionBanner version :: _ => Some version
  | _ :: cs => first_version cs
  end.

(** The [console.groupCollapsed] calls of a console: the heads of the
    banners it shows. *)
Definition banner_heads (l : list Logger.ConsoleCall) : list Logger.ConsoleCall :=
  filter (fun c => Logger.is_banner_head c = true) l.

(** A logging call printed something. *)
Definition printed (s s' : Logger.State) : Prop := Logger.console s' ≠ Logger.console s.

(** How often the character [sep] occurs in [s]. *)
Fixpoint occurrences (sep : ascii) (s : string) : nat :=
  match s with
  | EmptyString => 0
  | String c rest => (if Ascii.eqb c sep then 1 else 0) + occurrences sep rest
  end.

(** The check [openUrl] makes on a URL before it opens it. *)
Definition checked_url (url : string) : bool :=
  String.prefix "http://" url || String.prefix "https://" url || String.prefix "/" url.

(** The action type whose case of [handleAction] makes the call [c];
    [navigator.vibrate] is called by no action. *)
Definition effect_of (c : ExternalCall) : option string :=
  match c with
  | ElementDispatchMoreInfo _ => Some "more-info"
  | HistoryPushState _ | WindowDispatchLocationChanged => Some "navigate"
  | HassCallService _ _ _ => Some "call-service"
  | WindowOpen _ | ClearOpener _ => Some "url"
  | ToggleExpanded => Some "expand"
  | NavigatorVibrate _ => None
  end.

(** The window listeners of a gesture closure go in order: the move
    listener no later than the up listener, the up listener no later than
    the cancel listener. *)
Definition unwinding (g : Gesture) : bool :=
  (upListener g || negb (moveListener g)) && (cancelListener g || negb (upListener g)).

(** The pending hold timers. *)
Definition hold_timers (w : World) : list Timer :=
  filter (fun t => is_hold t = true) (timers w).

(** What holds between two events besides [Inv]. *)
Record Orderly (w : World) : Prop := {
  orderly_flags : holdTriggered (state w) = pendingHoldAction (state w);
  orderly_listeners : Forall (fun g => unwinding g = true) (gestures w);
  orderly_hold : length (hold_timers w) ≤ 1;
  orderly_handle : ∀ h, holdTimer (state w) = Some h → h < nextHandle w
}.

(** [setupInteractions] registers its listeners and returns the cleanup
    function that removes them: some action is configured and the element
    has a ripple container.  (Otherwise it returns a function that does
    nothing.) *)
Definition interactive (env : Env) : bool :=
  (configured (tap_action (config env)) || configured (hold_action (config env)))
  && hasRippleContainer env.

Definition is_rebuild (t : Timer) : bool :=
  match callback t with RebuildCallback => true | _ => false end.

Definition is_cleanup (e : Event) : bool :=
  match e with Cleanup => true | _ => false end.

(** An instance after its cleanup: no listener on the element or for
    navigation, no pointer tracked, and no timer left that could track one
    or register a listener. *)
Record retired (w : World) : Prop := {
  retired_down : downAttached w = false;
  retired_navigation : navigationAttached w = false;
  retired_pointer : activePointerId (state w) = None;
  retired_timers : ∀ t, t ∈ timers w → is_hold t = false ∧ is_rebuild t = false
}.

(** A retired instance that has performed nothing since [w0]. *)
Definition still (w0 w : World) : Prop :=
  retired w ∧ fired w = fired w0 ∧ effects w = effects w0.

(** A world in which the instance listens to nothing and waits for
    nothing. *)
Definition bare (w : World) : Prop :=
  downAttached w = false ∧ navigationAttached w = false
  ∧ gestures w = [] ∧ timers w = [].

(** A card with no action configured. *)
Module Plain.

Definition env : Env :=
  {| host := Sample.quietHost;
     config := {| tap_action := None; hold_action := Some (Sample.act "none") |};
     hass := true; entityId := "calendar.family"; instanceId := "interaction_p0q8r7s6t";
     hasRippleContainer := true |}.

End Plain.

(** A hold indicator nothing will remove: it is in the document, the state
    does not refer to it, and no timer is set to remove it. *)
Record orphaned (i : nat) (w : World) : Prop := {
  orphaned_shown : i ∈ bodyChildren w;
  orphaned_lost : holdIndicator (state w) ≠ Some i;
  orphaned_old : i < nextElement w;
  orphaned_timers : ∀ t, t ∈ timers w → callback t ≠ IndicatorRemoveCallback i
}.

(** * The DOM helpers of interaction.ts

    [createInteractionDom], [moveContentToLayer], [setupInteractionDom] and
    [setupRippleEffects] work on elements they are given.  The document is
    a store of nodes; a node is named by its index in the store.  Of a node
    the functions read and write its class list, its inline style, its
    children and its parent. *)

Module Dom.

(** [HTMLElement]; an [Element] that is none (an SVG element); a node
    that is no element (text, comment). *)
Inductive NodeKind := HTMLElement | OtherElement | OtherNode.

Record Node := {
  kind : NodeKind;
  classes : list string;
  style : list (string * string);
  childNodes : list nat;
  parentNode : option nat;
  (* what getComputedStyle reports for the node *)
  computedPosition : string;
  computedPadding : string
}.

Definition with_classes (l : list string) (n : Node) : Node :=
  Build_Node (kind n) l (style n) (childNodes n) (parentNode n) (computedPosition n)
    (computedPadding n).
Definition with_style (l : list (string * string)) (n : Node) : Node :=
  Build_Node (kind n) (classes n) l (childNodes n) (parentNode n) (computedPosition n)
    (computedPadding n).
Definition with_childNodes (l : list nat) (n : Node) : Node :=
  Build_Node (kind n) (classes n) (style n) l (parentNode n) (computedPosition n)
    (computedPadding n).
Definition with_parentNode (p : option nat) (n : Node) : Node :=
  Build_Node (kind n) (classes n) (style n) (childNodes n) p (computedPosition n)
    (computedPadding n).

(** The document and the logger the helpers write to. *)
Record Tree := { nodes : list Node; console : Logger.State }.

Definition on_nodes (f : list Node → list Node) (t : Tree) : Tree :=
  {| nodes := f (nodes t); console := console t |}.

Definition M (A : Type) : Type := Tree → Outcome A * Tree.

Definition ret {A} (a : A) : M A := fun t => (Ret a, t).
Definition bind {A B} (m : M A) (f : A → M B) : M B := fun t =>
  match m t with
  | (Ret a, t') => f a t'
  | (Throw e, t') => (Throw e, t')
  end.

Declare Scope dom_scope.
Delimit Scope dom_scope with dom.
Notation "x ← y ; z" := (bind y (fun x => z))
  (at level 20, y at level 100, z at level 200, only parsing) : dom_scope.
Notation "x ;; z" := (bind x (fun _ => z))
  (at level 100, z at level 200, only parsing, right associativity) : dom_scope.
Local Open Scope dom_scope.

Definition gets {A} (f : Tree → A) : M A := fun t => (Ret (f t), t).
Definition modify (f : Tree → Tree) : M unit := fun t => (Ret tt, f t).
Definition assign (i : nat) (f : Node → Node) : M unit := modify (on_nodes (alter f i)).

(** [document.createElement('div')]: a new element, in no tree. *)
Definition createElement : M nat := fun t =>
  (Ret (length (nodes t)),
   on_nodes (fun ns => ns ++ [{| kind := HTMLElement; classes := []; style := [];
                                 childNodes := []; parentNode := None;
                                 computedPosition := ""; computedPadding := "" |}]) t).

(** [el.className = c], for a single class name. *)
Definition set_className (i : nat) (c : string) : M unit := assign i (with_classes [c]).


(** [el.style.prop = value] *)
Definition set_style (i : nat) (prop value : string) : M unit :=
  assign i (fun n => with_style (style n ++ [(prop, value)]) n).

(** [child instanceof HTMLElement] *)
Definition isHTMLElement (i : nat) (ns : list Node) : bool :=
  match ns !! i with
  | Some n => match kind n with HTMLElement => true | _ => false end
  | None => false
  end.

Definition isElement (i : nat) (ns : list Node) : bool :=
  match ns !! i with
  | Some n => match kind n with OtherNode => false | _ => true end
  | None => false
  end.

(** [a] is [n] or an ancestor of [n]; the parent chain of a node of a
    tree is shorter than the store. *)
Fixpoint inclusive_ancestor (fuel : nat) (ns : list Node) (a n : nat) : bool :=
  Nat.eqb a n
  || match fuel with
     | 0 => false
     | S fuel =>
         match ns !! n with
         | Some node =>
             match parentNode node with
             | Some p => inclusive_ancestor fuel ns a p
             | None => false
             end
         | None => false
         end
     end.

(** Take [child] out of the children of its parent. *)
Definition detach (child : nat) (ns : list Node) : list Node :=
  match ns !! child with
  | Some c =>
      match parentNode c with
      | Some p => alter (fun n => with_childNodes (filter (fun x => x ≠ child) (childNodes n)) n)
                    p ns
      | None => ns
      end
  | None => ns
  end.

(** [parent.appendChild(child)]: it throws when [parent] is no element
    or [child] contains [parent]; otherwise [child] leaves its parent and
    becomes the last child of [parent]. *)
Definition appendChild (parent child : nat) : M unit := fun t =>
  if negb (isElement parent (nodes t))
     || inclusive_ancestor (length (nodes t)) (nodes t) child parent
  then (Throw (VError "HierarchyRequestError" "The operation would yield an incorrect node tree."
                 None), t)
  else
    (Ret tt,
     on_nodes (fun ns =>
                 alter (with_parentNode (Some parent)) child
                   (alter (fun n => with_childNodes (childNodes n ++ [child]) n) parent
                      (detach child ns))) t).


Definition children_of (i : nat) (ns : list Node) : list nat :=
  match ns !! i with Some n => childNodes n | None => [] end.






(** ** createInteractionDom *)

(** The object [createInteractionDom] returns. *)
Module Created.

Record Layers := {
  container : nat;
  bgLayer : nat;
  rippleContainer : nat;
  contentLayer : nat
}.

End Created.

Definition createInteractionDom : M Created.Layers :=
  container ← createElement;
  set_className container "card-container";;
  bgLayer ← createElement;
  set_className bgLayer "card-bg-layer";;
  appendChild container bgLayer;;
  rippleContainer ← createElement;
  set_className rippleContainer "card-ripple-container";;
  appendChild container rippleContainer;;
  contentLayer ← createElement;
  set_className contentLayer "card-content-layer";;
  appendChild container contentLayer;;
  ret {| Created.container := container; Created.bgLayer := bgLayer;
         Created.rippleContainer := rippleContainer;
         Created.contentLayer := contentLayer |}.

(** ** moveContentToLayer *)

(** [while (sourceContainer.firstChild) { ... }], for at most [fuel]
    rounds; [None] when the loop has not ended by then. *)
Fixpoint moveChildren (fuel : nat) (sourceContainer contentLayer : nat) (t : Tree)
    : option (Outcome unit * Tree) :=
  match fuel with
  | 0 => None
  | S fuel =>
      match children_of sourceContainer (nodes t) with
      | [] => Some (Ret tt, t)
      | child :: _ =>
          match
            ((if isHTMLElement child (nodes t)
              then set_style child "backgroundColor" "transparent"
              else ret tt);;
             appendChild contentLayer child) t
          with
          | (Ret _, t') => moveChildren fuel sourceContainer contentLayer t'
          | (Throw e, t') => Some (Throw e, t')
          end
      end
  end.

Definition moveContentToLayer (fuel : nat) (sourceContainer contentLayer : nat) (t : Tree)
    : option (Outcome unit * Tree) :=
  if negb (isHTMLElement sourceContainer (nodes t)) then Some (Ret tt, t)
  else
    let padding := match nodes t !! sourceContainer with
                   | Some n => computedPadding n
                   | None => ""
                   end in
    match (set_style contentLayer "padding" padding;;
           set_style contentLayer "backgroundColor" "transparent") t with
    | (Ret _, t') => moveChildren fuel sourceContainer contentLayer t'
    | (Throw e, t') => Some (Throw e, t')
    end.

(** ** setupInteractionDom *)


(** The object [setupInteractionDom] returns: the layers, without the
    container. *)
Record Layers := {
  bgLayer : nat;
  rippleContainer : nat;
  contentLayer : nat
}.


(** ** setupRippleEffects

    What the function does to the element it is given: the property
    [_rippleHandler] and the element's pointer-down listeners.  A handler
    is named by the number of the [setupRippleEffects] call that created
    it; listeners others have registered are [Foreign]. *)

Inductive Listener := RippleHandler (call : nat) | Foreign (name : string).

Global Instance Listener_eq_dec : EqDecision Listener.
Proof. solve_decision. Defined.

Record Target := {
  _rippleHandler : option Listener;
  pointerdown : list Listener;
  calls : nat;
  target_console : Logger.State
}.

(** [container.removeEventListener('pointerdown', l)] *)
Definition removeEventListener (l : Listener) (c : Target) : Target :=
  {| _rippleHandler := _rippleHandler c;
     pointerdown := filter (fun x => x ≠ l) (pointerdown c);
     calls := calls c; target_console := target_console c |}.

(** [container.addEventListener('pointerdown', l)]: a listener that is
    registered is not registered again. *)
Definition addEventListener (l : Listener) (c : Target) : Target :=
  {| _rippleHandler := _rippleHandler c;
     pointerdown := if bool_decide (l ∈ pointerdown c) then pointerdown c
                    else pointerdown c ++ [l];
     calls := calls c; target_console := target_console c |}.

Definition set_rippleHandler (h : option Listener) (c : Target) : Target :=
  {| _rippleHandler := h; pointerdown := pointerdown c;
     calls := calls c; target_console := target_console c |}.

(** [if (container._rippleHandler) { removeEventListener(...); delete
    container._rippleHandler; }]: the body of the returned cleanup
    function, and the first step of a setup. *)
Definition dropRippleHandler (c : Target) : Target :=
  match _rippleHandler c with
  | Some h => set_rippleHandler None (removeEventListener h c)
  | None => c
  end.

Definition setupRippleEffects (c : Target) : Target :=
  let c := {| _rippleHandler := _rippleHandler c; pointerdown := pointerdown c;
              calls := calls c;
              target_console := Logger.info "Setting up ripple effects" [] (target_console c) |} in
  let c := dropRippleHandler c in
  let h := RippleHandler (calls c) in
  let c := set_rippleHandler (Some h) c in
  let c := addEventListener h c in
  {| _rippleHandler := _rippleHandler c; pointerdown := pointerdown c;
     calls := S (calls c); target_console := target_console c |}.

(** The calls a page makes for one element: a setup, or a cleanup function
    an earlier setup returned (they all do the same). *)
Inductive Use := Setup | Cleanup.

Definition use (c : Target) (u : Use) : Target :=
  match u with
  | Setup => setupRippleEffects c
  | Cleanup => dropRippleHandler c
  end.

(** An element no setup has touched, with the listeners of others. *)
Definition untouched (others : list string) (lg : Logger.State) : Target :=
  {| _rippleHandler := None; pointerdown := Foreign <$> others; calls := 0;
     target_console := lg |}.

(** The element as a sequence of setups and cleanups leaves it. *)
Definition one_handler (others : list string) (c : Target) : Prop :=
  pointerdown c
  = (Foreign <$> others) ++ match _rippleHandler c with Some h => [h] | None => [] end
  ∧ ∀ h, _rippleHandler c = Some h → ∃ k, h = RippleHandler k ∧ S k = calls c.

(** ** A sample document

    A card (node 0) with a heading and a text node, and beside it an
    empty layer (node 1). *)
Definition sample : Tree :=
  {| nodes :=
       [ {| kind := HTMLElement; classes := ["card"]; style := []; childNodes := [2; 3];
            parentNode := None; computedPosition := "static"; computedPadding := "16px" |};
         {| kind := HTMLElement; classes := ["card-content-layer"]; style := [];
            childNodes := []; parentNode := None; computedPosition := "";
            computedPadding := "" |};
         {| kind := HTMLElement; classes := ["heading"]; style := []; childNodes := [];
            parentNode := Some 0; computedPosition := "static"; computedPadding := "0px" |};
         {| kind := OtherNode; classes := []; style := []; childNodes := [];
            parentNode := Some 0; computedPosition := ""; computedPadding := "" |} ];
     console := Logger.initial |}.

End Dom.

(** The listener [setupRippleEffects] registers, over the world of the
    gesture machine: it draws a ripple in the ripple container and starts a
    timeout of 300 ms.  The timeout is no [Callback] of the machine; the
    handler returns its ripple and the handle the timeout takes, and
    [rippleTimeout] is what the timeout calls. *)
Definition rippleHandler (ev : PointerEvent) : M (nat * nat) :=
  Logger_debug "Ripple handler triggered" [VOther "{pointerId, time}"];;
  ripple ← createRippleEffect ev;
  timeout ← gets nextHandle;
  modify bump_nextHandle;;
  ret (ripple, timeout).

Definition rippleTimeout (ripple : nat) : M unit := removeRippleEffect ripple 0.

(** * Proofs *)

Arguments Logger.info : simpl never.
Arguments Logger.debug : simpl never.
Arguments Logger.warn : simpl never.
Arguments Logger.error : simpl never.
Arguments String.append : simpl never.
Arguments String.eqb : simpl never.
Arguments String.prefix : simpl never.
Arguments split : simpl never.

(** ** The sample card, run *)

Example split_service : split "." "light.toggle" = ["light"; "toggle"].
Proof. reflexivity. Qed.

Example split_no_dot : split "." "toggle" = ["toggle"].
Proof. reflexivity. Qed.

Example split_two_dots : split "." "a.b.c" = ["a"; "b"; "c"].
Proof. reflexivity. Qed.

Example ten_units_is_within : distance_exceeds 10 6 8 = false.
Proof. reflexivity. Qed.

Example beyond_ten_units : distance_exceeds 10 6 9 = true.
Proof. reflexivity. Qed.

(** The comparison on squares is the comparison the source makes, on real
    numbers. *)
Lemma distance_exceeds_sqrt (limit dx dy : Z) :
  (0 <= limit)%Z →
  distance_exceeds limit dx dy = true ↔ (IZR limit < sqrt (IZR (dx * dx + dy * dy)))%R.
Proof.
  intros Hl. unfold distance_exceeds. rewrite Z.ltb_lt.
  assert (Hsq : sqrt (IZR (limit * limit)) = IZR limit).
  { rewrite mult_IZR. apply sqrt_square. apply IZR_le. exact Hl. }
  split.
  - intros H. rewrite <- Hsq. apply sqrt_lt_1_alt. split.
    + apply IZR_le. nia.
    + apply IZR_lt. exact H.
  - intros H. rewrite <- Hsq in H. apply sqrt_lt_0_alt in H. apply lt_IZR. exact H.
Qed.

Example tap_toggles_expanded :
  effects (run Sample.env Sample.start
             [PointerDown Sample.finger; Elapse 80; PointerUp Sample.finger])
  = [(ToggleExpanded, None)].
Proof. reflexivity. Qed.

Example hold_shows_more_info :
  effects (run Sample.env Sample.start
             [PointerDown Sample.finger; Elapse 500; TimerFires 0; Elapse 40;
              PointerUp Sample.finger])
  = [(NavigatorVibrate 50, None); (ElementDispatchMoreInfo "calendar.family", None)].
Proof. reflexivity. Qed.

Example early_timer_does_not_fire :
  step Sample.env (run Sample.env Sample.pressed [Elapse 499]) (TimerFires 0)
  = run Sample.env Sample.pressed [Elapse 499].
Proof. reflexivity. Qed.

(** On a host that throws, the tap is reported on the console and reaches
    nobody as an exception. *)
Example failed_toggle_is_reported :
  let w := run (Sample.card Sample.failingHost)
             (setupInteractions (Sample.card Sample.failingHost) Sample.page)
             [PointerDown Sample.finger; PointerUp Sample.finger] in
  effects w = [(ToggleExpanded, Some (VError "Error" "host failure" None))]
  ∧ map Logger.method (Logger.console (logger w)) = [Logger.ConsoleError]
  ∧ uncaught w = [] ∧ fired w = [FiredTap] ∧ idle (state w).
Proof. vm_compute. repeat split; reflexivity. Qed.

(** ** The logger *)

Section LoggerFacts.

Import Logger.

Lemma banners_emit m a s :
  banners (emit m a s)
  = (banners s + if is_banner_head {| method := m; args := a |} then 1 else 0)%nat.
Proof.
  unfold banners, emit. simpl. rewrite filter_app, length_app. f_equal.
  rewrite filter_cons, filter_nil.
  destruct m; simpl; reflexivity.
Qed.

Lemma shown_emit m a s : BANNER_SHOWN (emit m a s) = BANNER_SHOWN s.
Proof. reflexivity. Qed.

Lemma error_keeps m d s :
  banners (error m d s) = banners s ∧ BANNER_SHOWN (error m d s) = BANNER_SHOWN s.
Proof.
  unfold error. destruct (_ <? _)%Z; [done|].
  destruct m as [msg|n msg [st|]|l], d as [|d0 d]; simpl;
    repeat match goal with |- context [if ?c then _ else _] => destruct c end;
    rewrite ?banners_emit; simpl; rewrite ?Nat.add_0_r; done.
Qed.

Lemma leveled_keeps th m st msg d s :
  m ≠ ConsoleGroupCollapsed →
  banners (leveled th m st msg d s) = banners s
  ∧ BANNER_SHOWN (leveled th m st msg d s) = BANNER_SHOWN s.
Proof.
  intros Hm. unfold leveled. destruct (_ <=? _)%Z; [|done].
  destruct d; rewrite banners_emit; destruct m; simpl; rewrite ?Nat.add_0_r; done.
Qed.

Lemma printVersionBanner_first v s :
  BANNER_SHOWN s = false →
  console (printVersionBanner v s) = console s ++ banner v
  ∧ BANNER_SHOWN (printVersionBanner v s) = true
  ∧ banners (printVersionBanner v s) = S (banners s).
Proof.
  intros H. unfold printVersionBanner. rewrite H. split; [|split].
  - simpl. rewrite <- !app_assoc. reflexivity.
  - reflexivity.
  - unfold banners. simpl. rewrite <- !app_assoc. simpl.
    rewrite filter_app, length_app. simpl. lia.
Qed.

Lemma printVersionBanner_again v s :
  BANNER_SHOWN s = true → printVersionBanner v s = s.
Proof. intros H. unfold printVersionBanner. rewrite H. reflexivity. Qed.

(** A call that is not a banner call leaves the banner alone. *)
Lemma call_keeps c s :
  prints_banner c = false →
  banners (call c s) = banners s ∧ BANNER_SHOWN (call c s) = BANNER_SHOWN s.
Proof.
  destruct c; simpl; try discriminate; intros _.
  - apply error_keeps.
  - apply leveled_keeps; discriminate.
  - apply leveled_keeps; discriminate.
  - apply leveled_keeps; discriminate.
  - done.
  - unfold setDebugMode, info.
    destruct (leveled_keeps INFO ConsoleLog LOG_STYLES_prefix
                ("Debug mode " +:+ (if enable then "enabled" else "disabled")) []
                (set_mode enable s)) as [Hb Hs]; [discriminate|].
    split.
    + unfold banners in *. simpl in *. exact Hb.
    + simpl. exact Hs.
  - unfold logError.
    match goal with |- context [error ?m ?d s] =>
      destruct (error_keeps m d s) as [Hb Hs]; set (s' := error m d s) in * end.
    destruct err as [?|? ? [st|]|?]; try done.
    destruct (String.eqb st ""); [done|].
    rewrite banners_emit. simpl. rewrite Nat.add_0_r. done.
  - apply error_keeps.
Qed.

Lemma call_banner c s :
  prints_banner c = true →
  banners (call c s) = (if BANNER_SHOWN s then banners s else S (banners s))
  ∧ BANNER_SHOWN (call c s) = true.
Proof.
  destruct c; simpl; try discriminate; intros _.
  - unfold initializeLogger.
    change (banners s) with (banners (set_mode debugMode s)).
    change (BANNER_SHOWN s) with (BANNER_SHOWN (set_mode debugMode s)).
    generalize (set_mode debugMode s). intros s'.
    destruct (BANNER_SHOWN s') eqn:E.
    + rewrite printVersionBanner_again by done. done.
    + destruct (printVersionBanner_first version s' E) as (_ & ? & ?). done.
  - destruct (BANNER_SHOWN s) eqn:E.
    + rewrite printVersionBanner_again by done. done.
    + destruct (printVersionBanner_first version s E) as (_ & ? & ?). done.
Qed.

Lemma run_calls cs s :
  let s' := fold_left (fun s c => call c s) cs s in
  banners s' = (if BANNER_SHOWN s || negb (existsb prints_banner cs) then banners s
                else S (banners s))
  ∧ BANNER_SHOWN s' = BANNER_SHOWN s || existsb prints_banner cs.
Proof.
  revert s. induction cs as [|c cs IH]; intros s; simpl.
  - rewrite !orb_true_r, orb_false_r. done.
  - destruct (IH (call c s)) as [Hb Hs]. simpl in Hb, Hs. rewrite Hb, Hs.
    destruct (prints_banner c) eqn:Ec.
    + destruct (call_banner c s Ec) as [Hb' Hs']. rewrite Hb', Hs'. simpl.
      rewrite orb_true_r. destruct (BANNER_SHOWN s); done.
    + destruct (call_keeps c s Ec) as [Hb' Hs']. rewrite Hb', Hs'. simpl. done.
Qed.

End LoggerFacts.

(** C9. The banner is printed at most once per session: a session's console
    shows one banner if the session contains a call of [printVersionBanner]
    or [initializeLogger] and none otherwise, the flag [BANNER_SHOWN] is set
    exactly from the first such call on, the first call appends the banner,
    and a later call prints nothing ([printVersionBanner] returns the state
    it was given). *)
Theorem banner_printed_once (cs : list Logger.Call) :
  let s := Logger.session cs in
  Logger.banners s = (if existsb Logger.prints_banner cs then 1 else 0)%nat
  ∧ Logger.BANNER_SHOWN s = existsb Logger.prints_banner cs
  ∧ (existsb Logger.prints_banner cs = false →
     ∀ version debugMode,
       Logger.console (Logger.printVersionBanner version s)
       = Logger.console s ++ Logger.banner version
       ∧ Logger.BANNER_SHOWN (Logger.printVersionBanner version s) = true
       ∧ Logger.console (Logger.initializeLogger version debugMode s)
         = Logger.console s ++ Logger.banner version
       ∧ Logger.BANNER_SHOWN (Logger.initializeLogger version debugMode s) = true)
  ∧ (existsb Logger.prints_banner cs = true →
     ∀ version debugMode,
       Logger.printVersionBanner version s = s
       ∧ Logger.console (Logger.initializeLogger version debugMode s) = Logger.console s).
Proof.
  intros s. destruct (run_calls cs Logger.initial) as [Hb Hs].
  fold (Logger.session cs) in Hb, Hs. fold s in Hb, Hs. simpl in Hb, Hs.
  split; [|split; [|split]].
  - rewrite Hb. destruct (existsb _ cs); reflexivity.
  - exact Hs.
  - intros E version debugMode. rewrite E in Hs.
    destruct (printVersionBanner_first version s Hs) as (H1 & H2 & _).
    assert (Hs' : Logger.BANNER_SHOWN (Logger.set_mode debugMode s) = false) by exact Hs.
    destruct (printVersionBanner_first version _ Hs') as (H3 & H4 & _).
    repeat split; assumption.
  - intros E version debugMode. rewrite E in Hs. split.
    + apply printVersionBanner_again, Hs.
    + unfold Logger.initializeLogger. rewrite printVersionBanner_again by exact Hs.
      reflexivity.
Qed.

Lemma banner_printed_once_witness :
  Logger.console (Logger.printVersionBanner "3.0.1" (Logger.session []))
  = Logger.banner "3.0.1"
  ∧ Logger.printVersionBanner "3.0.2"
      (Logger.session [Logger.CallInitializeLogger "3.0.1" true])
    = Logger.session [Logger.CallInitializeLogger "3.0.1" true].
Proof.
  split.
  - destruct (banner_printed_once []) as (_ & _ & H & _).
    destruct (H eq_refl "3.0.1" false) as (H1 & _). exact H1.
  - destruct (banner_printed_once [Logger.CallInitializeLogger "3.0.1" true])
      as (_ & _ & _ & H).
    destruct (H eq_refl "3.0.2" false) as (H1 & _). exact H1.
Defined.

(** ** getPrimaryEntityId *)

(** C10. For a non-empty list [getPrimaryEntityId] returns the identifier of
    the first element: the element itself when it is a string, its [entity]
    field otherwise.  For the empty list it does not return: reading
    [entity] of [undefined] throws a [TypeError]. *)
Theorem getPrimaryEntityId_first (entities : list EntityConfig) :
  match entities with
  | EntityString id :: _ => getPrimaryEntityId entities = Ret id
  | EntityObject entity _ :: _ => getPrimaryEntityId entities = Ret entity
  | [] => ∃ message, getPrimaryEntityId entities = Throw (VError "TypeError" message None)
  end.
Proof.
  destruct entities as [|[id|entity color] rest]; simpl.
  - eexists. reflexivity.
  - reflexivity.
  - reflexivity.
Qed.

(** ** Symbolic execution *)

Ltac unfold_world :=
  cbv [on_state replace_state on_activeRipples on_gestures set_downAttached
       set_navigationAttached on_rippleChildren on_bodyChildren set_isConnected on_timers
       set_now bump_nextElement bump_nextHandle on_logger on_effects on_fired on_uncaught
       state stateRef activeRipples gestures downAttached navigationAttached rippleChildren
       bodyChildren isConnected timers now nextRef nextElement nextHandle logger effects
       fired uncaught].

Ltac open_world w :=
  destruct w as [st ref ripples gs down nav_on rchildren bchildren connected ts clock
                 nref nelem nh lg0 fx0 fd uc].

Ltac unfold_m :=
  cbv [bind ret modify gets skip try_catch deliver external Logger_debug Logger_info
       Logger_warn Logger_error setTimeout].

(** ** Actions never raise *)

Section ConsoleFacts.

Import Logger.

Lemma console_leveled th m st msg d s :
  ∃ calls, console (leveled th m st msg d s) = console s ++ calls.
Proof.
  unfold leveled. destruct (_ <=? _)%Z.
  - destruct d; eexists; reflexivity.
  - exists []. symmetry. apply app_nil_r.
Qed.

Lemma console_error_string msg e s :
  console (error (VString msg) [e] s)
  = console s ++ [{| method := ConsoleError;
                     args := [tag msg; VString LOG_STYLES_error; e] |}].
Proof.
  unfold error.
  replace (level (CURRENT_LOG_LEVEL s) <? level ERROR)%Z with false; [reflexivity|].
  symmetry. apply Z.ltb_ge. destruct (CURRENT_LOG_LEVEL s); simpl; lia.
Qed.

Lemma console_error m d s : ∃ calls, console (error m d s) = console s ++ calls.
Proof.
  unfold error. destruct (_ <? _)%Z.
  - exists []. symmetry. apply app_nil_r.
  - destruct m as [msg|n msg [st|]|l], d as [|d0 d]; simpl;
      repeat match goal with |- context [if ?c then _ else _] => destruct c end;
      simpl; rewrite <- ?app_assoc; eexists; reflexivity.
Qed.

Lemma accounted_refl lg : accounted lg lg [].
Proof.
  exists []. split; [symmetry; apply app_nil_r|].
  intros c e H. inversion H.
Qed.

(** Console output before the action does not matter. *)
Lemma accounted_after th m st msg d lg0 lg fx :
  accounted (leveled th m st msg d lg0) lg fx → accounted lg0 lg fx.
Proof.
  intros (calls & Hc & Hr). destruct (console_leveled th m st msg d lg0) as [pre Hp].
  exists (pre ++ calls). split.
  - rewrite Hc, Hp, app_assoc. reflexivity.
  - intros c e H. destruct (Hr c e H) as (call & Hin & Hrep).
    exists call. split; [|exact Hrep]. apply elem_of_app. right. exact Hin.
Qed.

Lemma accounted_leveled th m st msg d lg0 lg fx :
  accounted lg0 lg fx → accounted lg0 (leveled th m st msg d lg) fx.
Proof.
  intros (calls & Hc & Hr). destruct (console_leveled th m st msg d lg) as [post Hp].
  exists (calls ++ post). split.
  - rewrite Hp, Hc, app_assoc. reflexivity.
  - intros c e H. destruct (Hr c e H) as (call & Hin & Hrep).
    exists call. split; [|exact Hrep]. apply elem_of_app. left. exact Hin.
Qed.

Lemma accounted_error m d lg0 lg fx :
  accounted lg0 lg fx → accounted lg0 (error m d lg) fx.
Proof.
  intros (calls & Hc & Hr). destruct (console_error m d lg) as [post Hp].
  exists (calls ++ post). split.
  - rewrite Hp, Hc, app_assoc. reflexivity.
  - intros c e H. destruct (Hr c e H) as (call & Hin & Hrep).
    exists call. split; [|exact Hrep]. apply elem_of_app. left. exact Hin.
Qed.

(** A call that returned needs no report. *)
Lemma accounted_returned c lg0 lg fx :
  accounted lg0 lg fx → accounted lg0 lg (fx ++ [(c, None)]).
Proof.
  intros (calls & Hc & Hr). exists calls. split; [exact Hc|].
  intros c' e H. apply elem_of_app in H as [H|H]; [eauto|].
  apply list_elem_of_singleton in H. discriminate.
Qed.

(** A call that threw is reported by the [Logger.error] of the handler. *)
Lemma accounted_caught c e msg lg0 lg fx :
  accounted lg0 lg fx →
  accounted lg0 (error (VString msg) [e] lg) (fx ++ [(c, Some e)]).
Proof.
  intros (calls & Hc & Hr).
  exists (calls ++ [{| method := ConsoleError;
                       args := [tag msg; VString LOG_STYLES_error; e] |}]).
  split.
  - rewrite console_error_string, Hc, app_assoc. reflexivity.
  - intros c' e' H. apply elem_of_app in H as [H|H].
    + destruct (Hr c' e' H) as (call & Hin & Hrep).
      exists call. split; [|exact Hrep]. apply elem_of_app. left. exact Hin.
    + apply list_elem_of_singleton in H. injection H as -> ->.
      eexists. split; [apply elem_of_app; right; apply list_elem_of_singleton; reflexivity|].
      split; [reflexivity|]. simpl. rewrite !elem_of_cons. auto.
Qed.

End ConsoleFacts.

Ltac known := repeat first [apply list_elem_of_here | apply list_elem_of_further].

Ltac account :=
  unfold Logger.info, Logger.warn, Logger.debug;
  repeat first
    [ apply accounted_refl
    | apply accounted_caught
    | apply (accounted_caught _ _ _ _ _ [])
    | apply accounted_returned
    | apply (accounted_returned _ _ _ [])
    | apply accounted_leveled
    | apply accounted_error ].

Ltac same_world :=
  cbv [action_result schedule_rebuild]; unfold_world; f_equal; f_equal;
  solve [reflexivity | rewrite <- ?app_assoc; reflexivity | symmetry; apply app_nil_r].

(** Close a path of an action, given whether it scheduled a rebuild. *)
Ltac settle nav :=
  do 2 eexists; exists nav; split; [same_world | account].

Section ActionFacts.

Variable env : Env.

Lemma fireMoreInfo_result e w :
  ∃ lg fx nav, fireMoreInfo env e w = (Ret tt, action_result lg fx nav w)
               ∧ accounted (logger w) lg fx.
Proof.
  open_world w. unfold fireMoreInfo. destruct (String.eqb e ""); unfold_m; unfold_world.
  - settle false.
  - destruct (raises _ _); settle false.
Qed.

Lemma handleNavigation_result a w :
  ∃ lg fx nav, handleNavigation env a w = (Ret tt, action_result lg fx nav w)
               ∧ accounted (logger w) lg fx.
Proof.
  open_world w. unfold handleNavigation, dispatchLocationChanged, navigationListener.
  destruct (negb _); unfold_m; unfold_world; [settle false|].
  destruct (raises _ (HistoryPushState _)); [settle false|].
  destruct (raises _ WindowDispatchLocationChanged); [settle false|].
  destruct nav_on; [settle true | settle false].
Qed.

Lemma callService_result a w :
  ∃ lg fx nav, callService env a w = (Ret tt, action_result lg fx nav w)
               ∧ accounted (logger w) lg fx.
Proof.
  open_world w. unfold callService.
  destruct (negb _); [unfold_m; unfold_world; settle false|].
  destruct (split _ _) as [|d [|s [|? ?]]]; unfold_m; unfold_world; try settle false.
  destruct (raises _ _); settle false.
Qed.

Lemma openUrl_result a w :
  ∃ lg fx nav, openUrl env a w = (Ret tt, action_result lg fx nav w)
               ∧ accounted (logger w) lg fx.
Proof.
  open_world w. unfold openUrl.
  destruct (negb (truthy _)); [unfold_m; unfold_world; settle false|].
  destruct (_ && _); unfold_m; unfold_world.
  all: destruct (raises _ (WindowOpen _)); [settle false|].
  all: destruct (opens_tab _ _); [|settle false].
  all: destruct (raises _ (ClearOpener _)); settle false.
Qed.

Lemma handleAction_result actionConfig w :
  ∃ lg fx nav,
    handleAction env actionConfig w = (Ret tt, action_result lg fx nav w)
    ∧ accounted (logger w) lg fx
    ∧ (dispatches actionConfig = false → fx = [] ∧ nav = false).
Proof.
  unfold handleAction. destruct actionConfig as [a|].
  2:{ open_world w; unfold_m; unfold_world.
      do 2 eexists; exists false. split; [same_world|]. split; [account | done]. }
  destruct (_ || _) eqn:Hnone.
  { open_world w; unfold_m; unfold_world.
    do 2 eexists; exists false. split; [same_world|]. split; [account | done]. }
  apply orb_false_iff in Hnone as [Htruthy _]. apply negb_false_iff in Htruthy.
  unfold dispatches. destruct (action a) as [name|]; [|discriminate]. simpl default.
  unfold bind at 1, Logger_info at 1, modify at 1, try_catch.
  set (w1 := on_logger _ w).
  assert (Hlater : ∀ lg fx, accounted (logger w1) lg fx → accounted (logger w) lg fx).
  { intros lg fx. apply accounted_after. }
  assert (Hknown : ∀ known, (name =? known)%string = true →
                   known ∈ ["more-info"; "navigate"; "call-service"; "url"; "expand"] →
                   bool_decide (name ∈ ["more-info"; "navigate"; "call-service"; "url"; "expand"])
                   = false → ∀ P : Prop, P).
  { intros known Heq Hin Hd P. apply String.eqb_eq in Heq. subst known.
    apply bool_decide_eq_false in Hd. contradiction. }
  destruct (name =? "more-info")%string eqn:E1.
  { destruct (fireMoreInfo_result (entityId env) w1) as (lg & fx & nav & -> & Hacc).
    exists lg, fx, nav. split; [reflexivity|]. split; [auto|].
    intros Hd. eapply Hknown; [exact E1 | | exact Hd]. known. }
  destruct (name =? "navigate")%string eqn:E2.
  { destruct (handleNavigation_result a w1) as (lg & fx & nav & -> & Hacc).
    exists lg, fx, nav. split; [reflexivity|]. split; [auto|].
    intros Hd. eapply Hknown; [exact E2 | | exact Hd]. known. }
  destruct (name =? "call-service")%string eqn:E3.
  { assert (Hin : "call-service" ∈ ["more-info"; "navigate"; "call-service"; "url"; "expand"])
      by known.
    destruct (hass env).
    - destruct (callService_result a w1) as (lg & fx & nav & -> & Hacc).
      exists lg, fx, nav. split; [reflexivity|]. split; [auto|].
      intros Hd. eapply Hknown; [exact E3 | exact Hin | exact Hd].
    - subst w1. open_world w; unfold_m; unfold_world.
      do 2 eexists; exists false. split; [same_world|]. split; [account|].
      intros Hd. eapply Hknown; [exact E3 | exact Hin | exact Hd]. }
  destruct (name =? "url")%string eqn:E4.
  { destruct (openUrl_result a w1) as (lg & fx & nav & -> & Hacc).
    exists lg, fx, nav. split; [reflexivity|]. split; [auto|].
    intros Hd. eapply Hknown; [exact E4 | | exact Hd]. known. }
  destruct (name =? "expand")%string eqn:E5.
  { subst w1. open_world w; unfold_m; unfold_world.
    destruct (raises _ _).
    all: do 2 eexists; exists false; (split; [same_world|]); (split; [account|]).
    all: intros Hd; eapply Hknown; [exact E5 | | exact Hd]; known. }
  subst w1. open_world w; unfold_m; unfold_world.
  do 2 eexists; exists false. split; [same_world|]. split; [account | done].
Qed.

End ActionFacts.

(** ** Handlers, path by path *)

Ltac unfold_handlers :=
  cbv [handlePointerUp handlePointerMove handlePointerCancel pointerDownHandler holdCallback
       resetInteractions clearRippleContainer cleanup navigationListener runCallback
       createRippleEffect createHoldIndicator removeRippleEffect removeHoldIndicator
       clearHoldTimer clearTimeout createElement Date_now assign gesture assign_gesture once
       bind ret modify gets skip try_catch deliver external Logger_debug Logger_info
       Logger_warn Logger_error setTimeout fireTimer
       on_state replace_state on_activeRipples on_gestures set_downAttached
       set_navigationAttached on_rippleChildren on_bodyChildren set_isConnected on_timers
       set_now bump_nextElement bump_nextHandle on_logger on_effects on_fired on_uncaught
       state stateRef activeRipples gestures downAttached navigationAttached rippleChildren
       bodyChildren isConnected timers now nextRef nextElement nextHandle logger effects
       fired uncaught action_result schedule_rebuild createFreshState removeChild
       with_holdTimer with_holdTriggered with_holdIndicator with_activePointerId
       with_lastActionTime with_pendingHoldAction
       state_instanceId holdTimer holdTriggered holdIndicator activePointerId lastActionTime
       pendingHoldAction fst snd].

Ltac fold_projections :=
  cbn [state stateRef activeRipples gestures downAttached navigationAttached rippleChildren
       bodyChildren isConnected timers now nextRef nextElement nextHandle logger effects
       fired uncaught state_instanceId holdTimer holdTriggered holdIndicator activePointerId
       lastActionTime pendingHoldAction fst snd].

(** Replace a call of [handleAction] by its result. *)
Ltac use_action :=
  match goal with
  | |- context [handleAction ?env ?ac ?W] =>
      let lg := fresh "lg" in let fx := fresh "fx" in let nav := fresh "nav" in
      let E := fresh "E" in
      destruct (handleAction_result env ac W) as (lg & fx & nav & E & _);
      rewrite E; clear E; destruct nav
  end.

(** Split on the condition the execution is stuck on. *)
Ltac split_path :=
  match goal with
  | |- context [match ?x with _ => _ end] =>
      match x with
      | context [match _ with _ => _ end] => fail 1
      | context [handleAction] => fail 1
      | _ => destruct x eqn:?
      end
  end.

Ltac explore := unfold_handlers; repeat (first [use_action | split_path]; unfold_handlers).

Ltac in_list H :=
  repeat match type of H with
  | _ ∈ _ ++ _ => apply elem_of_app in H as [H|H]
  | _ ∈ filter _ _ => apply list_elem_of_filter in H as [? H]
  | _ ∈ [_] => apply list_elem_of_singleton in H; subst
  | _ ∈ [] => inversion H
  | _ ∈ _ :: _ => apply elem_of_cons in H as [H|H]; [subst|]
  | _ ∈ delete _ _ => apply (λ H, elem_of_sublist _ _ _ H (sublist_delete _ _)) in H
  end.

Ltac finish1 :=
  first [ discriminate | assumption | lia | congruence
        | let E := fresh "E" in intros E; injection E as E; lia ].

Ltac finish := cbn in *; first [finish1 | split; finish1].

Ltac put_in_list :=
  repeat first
    [ assumption
    | apply list_elem_of_singleton; reflexivity
    | apply elem_of_app; right; apply list_elem_of_singleton; reflexivity
    | apply elem_of_app; left
    | apply list_elem_of_filter; split; [congruence|] ].

(** The seven fields of [Inv] for the world a path ends in, from the fields
    [H1] .. [H7] of the world it started from. *)
Ltac inv_handles H1 :=
  let t := fresh "t" in let Hin := fresh "Hin" in
  intros t Hin; in_list Hin; try (apply H1 in Hin); finish.

Ltac inv_hold H2 :=
  let t := fresh "t" in let Hin := fresh "Hin" in let Hh := fresh "Hh" in
  intros t Hin Hh; in_list Hin; try (specialize (H2 _ Hin Hh)); finish.

Ltac inv_indicator H3 H4 :=
  first
    [ exact H3
    | let j := fresh "j" in let Hj := fresh "Hj" in
      intros j Hj;
      first [ discriminate Hj
            | injection Hj as <-; split; [put_in_list | finish]
            | destruct (H3 _ Hj) as [? ?]; split; [put_in_list | finish] ] ].

Ltac inv_removal H3 H4 :=
  let t := fresh "t" in let j := fresh "j" in
  let Hin := fresh "Hin" in let Hc := fresh "Hc" in
  intros t j Hin Hc; in_list Hin;
  first [ discriminate Hc
        | injection Hc as <-; finish
        | destruct (H4 _ _ Hin Hc) as [? ?]; finish ].

Ltac inv_ripples H5 H6 :=
  first
    [ exact H5
    | apply NoDup_nil; exact I
    | eapply sublist_NoDup; [exact H5 | apply sublist_delete]
    | apply NoDup_app; split; [exact H5|]; split; [|apply NoDup_singleton];
      let x := fresh "x" in let Hx := fresh "Hx" in let Hy := fresh "Hy" in
      intros x Hx Hy; apply H6 in Hx; apply list_elem_of_singleton in Hy; lia ].

Ltac inv_ripples_fresh H6 :=
  first
    [ exact H6
    | let r := fresh "r" in let Hr := fresh "Hr" in
      intros r Hr; in_list Hr; try (apply H6 in Hr); finish ].

Ltac inv_solve H1 H2 H3 H4 H5 H6 H7 :=
  try (let Ha := fresh "Hattached" in let Hf := fresh "Hfresh" in
       destruct (H3 _ eq_refl) as [Ha Hf]);
  constructor; fold_projections;
  [ inv_handles H1 | inv_hold H2 | inv_indicator H3 H4 | inv_removal H3 H4
  | inv_ripples H5 H6 | inv_ripples_fresh H6 | finish ].

Ltac open_inv w :=
  let H1 := fresh "H1" in let H2 := fresh "H2" in let H3 := fresh "H3" in
  let H4 := fresh "H4" in let H5 := fresh "H5" in let H6 := fresh "H6" in
  let H7 := fresh "H7" in
  destruct w as [[sid ht htr hi ap lat pha] ref ripples gs down nav_on rchildren bchildren
                 connected ts clock nref nelem nh lg0 fx0 fd uc];
  intros [H1 H2 H3 H4 H5 H6 H7]; cbn in H1, H2, H3, H4, H5, H6, H7.

Section Invariants.

Variable env : Env.

Lemma Inv_setup p : Inv (setupInteractions env p).
Proof.
  unfold setupInteractions.
  repeat match goal with |- context [if ?c then _ else _] => destruct c end.
  all: constructor; cbn;
    [ intros t H; inversion H | intros t H; inversion H | discriminate
    | intros t i H; inversion H | apply NoDup_nil; exact I | intros r H; inversion H | lia ].
Qed.

Lemma Inv_up i upEv w :
  Inv w →
  Inv (deliver (once (with_upListener false) (fun i => handlePointerUp env i upEv) i) w).
Proof.
  open_inv w. explore.
  all: inv_solve H1 H2 H3 H4 H5 H6 H7.
Qed.

Lemma Inv_move i moveEv w : Inv w → Inv (deliver (handlePointerMove i moveEv) w).
Proof.
  open_inv w. explore.
  all: inv_solve H1 H2 H3 H4 H5 H6 H7.
Qed.

Lemma Inv_cancel i w :
  Inv w → Inv (deliver (once (with_cancelListener false) handlePointerCancel i) w).
Proof.
  open_inv w. explore.
  all: inv_solve H1 H2 H3 H4 H5 H6 H7.
Qed.

Lemma Inv_down downEv w : Inv w → Inv (deliver (pointerDownHandler env downEv) w).
Proof.
  open_inv w. explore.
  all: inv_solve H1 H2 H3 H4 H5 H6 H7.
Qed.

Lemma Inv_navigation w : Inv w → Inv (deliver (navigationListener env) w).
Proof.
  open_inv w. explore.
  all: inv_solve H1 H2 H3 H4 H5 H6 H7.
Qed.

Lemma Inv_cleanup w : Inv w → Inv (deliver (cleanup env) w).
Proof.
  open_inv w. explore.
  all: inv_solve H1 H2 H3 H4 H5 H6 H7.
Qed.

Lemma find_handle h ts t :
  List.find (fun t => Nat.eqb (handle t) h) ts = Some t → t ∈ ts ∧ handle t = h.
Proof.
  intros H. apply find_some in H as [Hin Heq]. split.
  - apply list_elem_of_In. exact Hin.
  - apply Nat.eqb_eq. exact Heq.
Qed.

Lemma Inv_fire h w : Inv w → Inv (fireTimer env h w).
Proof.
  open_inv w. unfold fireTimer. cbn [timers now].
  destruct (List.find _ ts) as [t|] eqn:Hfind; [|constructor; assumption].
  apply find_handle in Hfind as [Hin Hh].
  destruct (due t <=? clock)%N; [|constructor; assumption].
  destruct (callback t) eqn:Hcb.
  - pose proof (H2 _ Hin) as Hmine. unfold is_hold in Hmine. rewrite Hcb in Hmine.
    specialize (Hmine eq_refl). cbn in Hmine. subst ht h.
    explore. all: inv_solve H1 H2 H3 H4 H5 H6 H7.
  - explore. all: inv_solve H1 H2 H3 H4 H5 H6 H7.
  - explore. all: inv_solve H1 H2 H3 H4 H5 H6 H7.
  - explore. all: inv_solve H1 H2 H3 H4 H5 H6 H7.
  - destruct (H4 _ _ Hin Hcb) as [Hother _]. cbn in Hother.
    explore. all: inv_solve H1 H2 H3 H4 H5 H6 H7.
  - explore. all: inv_solve H1 H2 H3 H4 H5 H6 H7.
Qed.

Lemma Inv_dispatch registered listener w :
  (∀ i w, Inv w → Inv (deliver (listener i) w)) →
  Inv w → Inv (dispatch registered listener w).
Proof.
  intros Hl. unfold dispatch. generalize (seq 0 (length (gestures w))). intros l.
  revert w. induction l as [|i l IH]; intros w Hw; [exact Hw|].
  simpl. apply IH. destruct (gestures w !! i) as [g|]; [|exact Hw].
  destruct (registered g); [apply Hl|]; exact Hw.
Qed.

Lemma Inv_step w e : Inv w → Inv (step env w e).
Proof.
  intros Hw. destruct e; simpl.
  - destruct (downAttached w); [apply Inv_down|]; exact Hw.
  - apply Inv_dispatch; [intros; apply Inv_move; assumption | exact Hw].
  - apply Inv_dispatch; [intros; apply Inv_up; assumption | exact Hw].
  - apply Inv_dispatch; [intros; apply Inv_cancel; assumption | exact Hw].
  - destruct (navigationAttached w); [apply Inv_navigation|]; exact Hw.
  - apply Inv_fire, Hw.
  - destruct Hw; constructor; assumption.
  - destruct Hw; constructor; assumption.
  - apply Inv_cleanup, Hw.
Qed.

Lemma Inv_reachable w : reachable env w → Inv w.
Proof. induction 1; [apply Inv_setup | apply Inv_step; assumption]. Qed.

Lemma reachable_run w es : reachable env w → reachable env (run env w es).
Proof.
  revert w. induction es as [|e es IH]; intros w Hw; [exact Hw|].
  simpl. apply IH. constructor. exact Hw.
Qed.

End Invariants.

(** ** One gesture *)


Section Gestures.

Variable env : Env.



Lemma dormant_foreign pid g :
  dormant pid g = true → moveListener g = true ∨ upListener g = true →
  pointerId (ev g) ≠ pid.
Proof.
  unfold dormant. intros H Hl E. rewrite E, Z.eqb_refl in H. simpl in H.
  apply andb_true_iff in H as [H1 H2].
  apply negb_true_iff in H1, H2. destruct Hl; congruence.
Qed.


(** *** Movement *)








(** *** Time *)




Lemma run_app w es1 es2 : run env w (es1 ++ es2) = run env (run env w es1) es2.
Proof. apply fold_left_app. Qed.



(** *** Pointer down *)

Lemma find_appended h (l : list Timer) t0 :
  (∀ t, t ∈ l → handle t < h) → handle t0 = h →
  List.find (fun t => Nat.eqb (handle t) h) (l ++ [t0]) = Some t0.
Proof.
  intros Hl H0. induction l as [|t l IH]; simpl.
  - rewrite H0, Nat.eqb_refl. reflexivity.
  - assert (handle t < h) by (apply Hl, list_elem_of_here).
    replace (handle t =? h) with false by (symmetry; apply Nat.eqb_neq; lia).
    apply IH. intros t' Ht'. apply Hl, list_elem_of_further, Ht'.
Qed.

Lemma find_absent h (l : list Timer) :
  (∀ t, t ∈ l → handle t ≠ h) → List.find (fun t => Nat.eqb (handle t) h) l = None.
Proof.
  intros Hl. induction l as [|t l IH]; simpl; [reflexivity|].
  replace (handle t =? h) with false
    by (symmetry; apply Nat.eqb_neq, Hl, list_elem_of_here).
  apply IH. intros t' Ht'. apply Hl, list_elem_of_further, Ht'.
Qed.


(** *** The hold timer *)

Lemma armed_set_now w t h d downEv : armed w h d downEv → armed (set_now t w) h d downEv.
Proof. intros H. exact H. Qed.


(** *** Pointer up *)

Lemma up_foreign j u w g :
  gestures w !! j = Some g →
  activePointerId (state w) ≠ Some (pointerId (ev g)) →
  deliver (once (with_upListener false) (fun i => handlePointerUp env i u) j) w
  = on_gestures (fun gs => alter (with_moveListener false) j
                             (alter (with_upListener false) j gs)) w.
Proof.
  intros Hg Hne. unfold_handlers. fold (gestures w). fold (state w).
  fold (activePointerId (state w)).
  rewrite !list_lookup_alter_eq, Hg. cbn [fmap option_fmap option_map].
  cbn [ev with_moveListener with_upListener].
  rewrite bool_decide_eq_false_2 by exact Hne. destruct w; reflexivity.
Qed.

Lemma on_gestures_const w gs : gestures w = gs → on_gestures (fun _ => gs) w = w.
Proof. destruct w. cbn. intros ->. reflexivity. Qed.

(** The up listeners of the stale closures only unregister themselves. *)
Lemma up_stale u pid g todo :
  ∀ pre w,
    gestures w = pre ++ todo ++ [g] →
    activePointerId (state w) = Some pid →
    forallb (dormant pid) todo = true →
    ∃ todo',
      length todo' = length todo ∧
      fold_left
        (fun w i =>
           match gestures w !! i with
           | Some g =>
               if upListener g
               then deliver (once (with_upListener false)
                               (fun i => handlePointerUp env i u) i) w
               else w
           | None => w
           end)
        (seq (length pre) (length todo)) w
      = on_gestures (fun _ => pre ++ todo' ++ [g]) w.
Proof.
  induction todo as [|s todo IH]; intros pre w Hg Ha Hs.
  - exists []. split; [reflexivity|]. simpl. symmetry. apply on_gestures_const. exact Hg.
  - simpl in Hs. apply andb_true_iff in Hs as [Hs Hss].
    simpl seq. simpl fold_left.
    assert (Hl : gestures w !! length pre = Some s).
    { rewrite Hg, lookup_app_r, Nat.sub_diag by lia. reflexivity. }
    rewrite Hl.
    destruct (upListener s) eqn:Hup.
    + rewrite (up_foreign _ u w s Hl).
      2:{ rewrite Ha. intros [= E]. symmetry in E. revert E.
          apply dormant_foreign; auto. }
      set (s' := with_moveListener false (with_upListener false s)).
      destruct (IH (pre ++ [s'])
                  (on_gestures (fun gs => alter (with_moveListener false) (length pre)
                                            (alter (with_upListener false) (length pre) gs)) w))
        as (todo' & Hlen & Hfold).
      * cbn [gestures on_gestures]. destruct w; cbn in *. subst.
        rewrite <- !app_assoc. simpl.
        rewrite !(alter_app_r_alt _ pre _ (length pre)) by lia.
        rewrite Nat.sub_diag. reflexivity.
      * destruct w; exact Ha.
      * exact Hss.
      * exists (s' :: todo'). split; [simpl; congruence|].
        rewrite length_app in Hfold. simpl in Hfold.
        rewrite Nat.add_1_r in Hfold. rewrite Hfold.
        destruct w; cbn. rewrite <- !app_assoc. reflexivity.
    + destruct (IH (pre ++ [s]) w) as (todo' & Hlen & Hfold).
      * rewrite Hg, <- !app_assoc. reflexivity.
      * exact Ha.
      * exact Hss.
      * exists (s :: todo'). split; [simpl; congruence|].
        rewrite length_app in Hfold. simpl in Hfold.
        rewrite Nat.add_1_r in Hfold. rewrite Hfold.
        rewrite <- !app_assoc. reflexivity.
Qed.

(** The closure that owns the state resolves the gesture and cleans up. *)
Lemma up_owner i u w g :
  gestures w !! i = Some g →
  activePointerId (state w) = Some (pointerId (ev g)) →
  let w' := deliver (once (with_upListener false) (fun i => handlePointerUp env i u) i) w in
  fired w' = fired w
             ++ (if pendingHoldAction (state w) && negb (hasMoved g) then
                   if configured (hold_action (config env)) then [FiredHold] else []
                 else if negb (holdTriggered (state w)) && negb (hasMoved g)
                         && configured (tap_action (config env)) then [FiredTap]
                 else [])
  ∧ idle (state w') ∧ now w' = now w ∧ uncaught w' = uncaught w
  ∧ gestures w' = alter (fun g => with_cancelListener false
                                    (with_moveListener false (with_upListener false g)))
                    i (gestures w).
Proof.
  destruct w as [[sid ht htr hi ap lat pha] ref ripples gs down nav_on rchildren bchildren
                 connected ts clock nref nelem nh lg0 fx0 fd uc].
  cbn [gestures state activePointerId pendingHoldAction holdTriggered fired now uncaught].
  intros Hg ->. unfold_handlers.
  rewrite !list_lookup_alter_eq, Hg. cbn [fmap option_fmap option_map].
  cbn [ev hasMoved ripple with_moveListener with_upListener].
  rewrite bool_decide_eq_true_2 by reflexivity. cbn [negb].
  assert (Hgs : ∀ l : list Gesture,
             alter (with_cancelListener false) i
               (alter (with_upListener false) i
                  (alter (with_moveListener false) i (alter (with_upListener false) i l)))
             = alter (fun g => with_cancelListener false
                                 (with_moveListener false (with_upListener false g))) i l).
  { intros l. rewrite !list_alter_alter_eq. apply list_alter_ext; [|reflexivity].
    intros [] _. reflexivity. }
  explore.
  all: unfold idle; fold_projections; rewrite ?app_nil_r, Hgs; auto 10.
Qed.

Lemma up_tracking w downEv stale r moved held u :
  tracking w downEv stale r moved held →
  ∃ stale',
    length stale' = length stale ∧
    step env w (PointerUp u)
    = deliver (once (with_upListener false) (fun i => handlePointerUp env i u) (length stale))
        (on_gestures
           (fun _ => stale' ++ [{| ev := downEv; ripple := r; hasMoved := moved;
                                   moveListener := true; upListener := true;
                                   cancelListener := true |}]) w).
Proof.
  intros [Ha Hg Hs Hp Ht].
  destruct (up_stale u (pointerId downEv) _ stale [] w Hg Ha Hs) as (stale' & Hlen & Hfold).
  exists stale'. split; [exact Hlen|].
  simpl step. unfold dispatch. rewrite Hg at 1. rewrite length_app. simpl length.
  rewrite Nat.add_1_r, seq_S, fold_left_app.
  simpl length in Hfold. rewrite Hfold. clear Hfold. simpl fold_left. cbn [Nat.add].
  cbn [gestures on_gestures]. rewrite lookup_app_r, Hlen, Nat.sub_diag by lia.
  reflexivity.
Qed.


(** *** After the gesture has moved *)


End Gestures.

(** ** The gesture claims *)

Section GestureClaims.

Variable env : Env.

Lemma no_hold_timer w :
  Inv w → holdTimer (state w) = None → ∀ t, t ∈ timers w → is_hold t = false.
Proof.
  intros HI Hn t Ht. destruct (is_hold t) eqn:E; [|reflexivity].
  pose proof (inv_hold w HI t Ht E) as H. congruence.
Qed.


End GestureClaims.











(** ** One pointer at a time *)

(** C5, as the code has it.  One pointer is tracked at a time, and it is
    the most recent one to go down: a pointer-down always becomes the active
    pointer and clears the two hold flags; with a hold action configured it
    cancels the hold timer of the earlier pointer and starts its own, so the
    only hold timer pending afterwards is the new one; and the up listener
    of an earlier gesture of another pointer then only unregisters itself. *)
Theorem latest_pointer_owns env w downEv :
  reachable env w →
  downAttached w = true →
  let w' := step env w (PointerDown downEv) in
  activePointerId (state w') = Some (pointerId downEv)
  ∧ holdTriggered (state w') = false
  ∧ pendingHoldAction (state w') = false
  ∧ fired w' = fired w
  ∧ (configured (hold_action (config env)) = true →
     holdTimer (state w') = Some (nextHandle w)
     ∧ ∀ t, t ∈ timers w' → is_hold t = true →
            handle t = nextHandle w ∧ due t = (now w + 500)%N
            ∧ ∃ isTouch, callback t = HoldCallback downEv isTouch)
  ∧ (∀ j g upEv,
       gestures w !! j = Some g → pointerId (ev g) ≠ pointerId downEv →
       let w'' := deliver (once (with_upListener false)
                             (fun i => handlePointerUp env i upEv) j) w' in
       state w'' = state w' ∧ fired w'' = fired w' ∧ timers w'' = timers w').
Proof.
  intros Hr Hd w'.
  assert (Ha : activePointerId (state w') = Some (pointerId downEv)
               ∧ gestures w' = gestures w
                                 ++ [{| ev := downEv; ripple := nextElement w;
                                        hasMoved := false; moveListener := true;
                                        upListener := true; cancelListener := true |}]).
  { subst w'. simpl step. rewrite Hd. destruct w as [[] ? ? ? ? ? ? ? ? ? ? ? ? ? ? ? ? ?].
    explore; split; reflexivity. }
  destruct Ha as [Ha Hg].
  split; [exact Ha|].
  assert (Hrest : holdTriggered (state w') = false
     ∧ pendingHoldAction (state w') = false
     ∧ fired w' = fired w
     ∧ (configured (hold_action (config env)) = true →
        holdTimer (state w') = Some (nextHandle w)
        ∧ ∀ t, t ∈ timers w' → is_hold t = true →
               handle t = nextHandle w ∧ due t = (now w + 500)%N
               ∧ ∃ isTouch, callback t = HoldCallback downEv isTouch)).
  { subst w'. clear Ha Hg. pose proof (Inv_reachable env w Hr) as HI. revert HI Hd.
    open_inv w. intros Hd. cbn in Hd. subst down. simpl step. explore.
    all: do 3 (split; [reflexivity|]).
    all: try discriminate.
    all: intros _; split; [reflexivity|]; fold_projections.
    all: intros t Ht Hh; in_list Ht; try (specialize (H2 _ Ht Hh); cbn in H2; congruence).
    all: cbn; eauto. }
  destruct Hrest as (H1 & H2 & H3 & H4).
  do 4 (split; [assumption|]).
  intros j g upEv Hj Hne w''. subst w''.
  rewrite (up_foreign env j upEv w' g).
  - destruct w'; repeat split; reflexivity.
  - rewrite Hg. apply lookup_app_l_Some. exact Hj.
  - rewrite Ha. congruence.
Qed.

Lemma latest_pointer_owns_witness :
  activePointerId (state (step Sample.env Sample.held (PointerDown Sample.thumb)))
  = Some (pointerId Sample.thumb)
  ∧ pendingHoldAction (state (step Sample.env Sample.held (PointerDown Sample.thumb))) = false
  ∧ holdTimer (state (step Sample.env Sample.held (PointerDown Sample.thumb)))
    = Some (nextHandle Sample.held).
Proof.
  assert (Hr : reachable Sample.env Sample.held) by (apply reachable_run, reachable_setup).
  assert (Hd : downAttached Sample.held = true) by reflexivity.
  assert (Hc : configured (hold_action (config Sample.env)) = true) by reflexivity.
  pose proof (latest_pointer_owns Sample.env Sample.held Sample.thumb Hr Hd) as H.
  exact (conj (proj1 H)
           (conj (proj1 (proj2 (proj2 H)))
                 (proj1 (proj1 (proj2 (proj2 (proj2 (proj2 H)))) Hc)))).
Defined.

(** C5 as stated fails: the first finger owns the interaction and its hold
    is pending; a second finger going down becomes the active pointer and
    clears the pending hold, and pointer up then executes the tap action. *)
Lemma second_pointer_counterexample :
  activePointerId (state Sample.held) = Some (pointerId Sample.finger)
  ∧ pendingHoldAction (state Sample.held) = true
  ∧ pointerId Sample.thumb ≠ pointerId Sample.finger
  ∧ activePointerId (state Sample.taken_over) = Some (pointerId Sample.thumb)
  ∧ pendingHoldAction (state Sample.taken_over) = false
  ∧ fired (step Sample.env Sample.taken_over (PointerUp Sample.finger)) = [FiredTap].
Proof. repeat split; try reflexivity. discriminate. Qed.

(** ** Actions and cleanup *)

Section Cleanup.

Variable env : Env.

Lemma handlePointerUp_returns i upEv w :
  ∃ w', handlePointerUp env i upEv w = (Ret tt, w').
Proof.
  destruct w as [[] ? ? ? ? ? ? ? ? ? ? ? ? ? ? ? ? ?].
  explore; eexists; reflexivity.
Qed.

Lemma handlePointerUp_cleans i upEv w g :
  gestures w !! i = Some g →
  activePointerId (state w) = Some (pointerId (ev g)) →
  let w' := snd (handlePointerUp env i upEv w) in
  idle (state w')
  ∧ gestures w' !! i
    = Some (with_cancelListener false (with_upListener false (with_moveListener false g)))
  ∧ ∃ t, t ∈ timers w' ∧ callback t = RippleReleaseCallback (ripple g).
Proof.
  destruct w as [[sid ht htr hi ap lat pha] ref ripples gs down nav_on rchildren bchildren
                 connected ts clock nref nelem nh lg0 fx0 fd uc].
  cbn [gestures state activePointerId]. intros Hg ->. unfold_handlers.
  rewrite !list_lookup_alter_eq, Hg. cbn [fmap option_fmap option_map].
  cbn [ev hasMoved ripple with_moveListener].
  rewrite bool_decide_eq_true_2 by reflexivity. cbn [negb].
  explore.
  all: unfold idle; fold_projections.
  all: rewrite !list_lookup_alter_eq, Hg; cbn [fmap option_fmap option_map].
  all: split; [auto|]; split; [reflexivity|].
  all: eexists; split; [apply elem_of_app; right; apply list_elem_of_singleton; reflexivity|].
  all: reflexivity.
Qed.

(** No listener and no timer callback lets an exception escape. *)
Lemma down_quietly downEv w :
  uncaught (deliver (pointerDownHandler env downEv) w) = uncaught w.
Proof. destruct w as [[] ? ? ? ? ? ? ? ? ? ? ? ? ? ? ? ? ?]. explore; reflexivity. Qed.

Lemma move_quietly i moveEv w :
  uncaught (deliver (handlePointerMove i moveEv) w) = uncaught w.
Proof. destruct w as [[] ? ? ? ? ? ? ? ? ? ? ? ? ? ? ? ? ?]. explore; reflexivity. Qed.

Lemma up_quietly i upEv w :
  uncaught (deliver (once (with_upListener false) (fun i => handlePointerUp env i upEv) i) w)
  = uncaught w.
Proof. destruct w as [[] ? ? ? ? ? ? ? ? ? ? ? ? ? ? ? ? ?]. explore; reflexivity. Qed.

Lemma cancel_quietly i w :
  uncaught (deliver (once (with_cancelListener false) handlePointerCancel i) w) = uncaught w.
Proof. destruct w as [[] ? ? ? ? ? ? ? ? ? ? ? ? ? ? ? ? ?]. explore; reflexivity. Qed.

Lemma navigation_quietly w : uncaught (deliver (navigationListener env) w) = uncaught w.
Proof. destruct w. reflexivity. Qed.

Lemma cleanup_quietly w : uncaught (deliver (cleanup env) w) = uncaught w.
Proof. destruct w as [[] ? ? ? ? ? ? ? ? ? ? ? ? ? ? ? ? ?]. explore; reflexivity. Qed.

Lemma fire_quietly h w : uncaught (fireTimer env h w) = uncaught w.
Proof.
  unfold fireTimer. destruct (List.find _ _) as [t|]; [|reflexivity].
  destruct (due t <=? now w)%N; [|reflexivity].
  destruct w as [[] ? ? ? ? ? ? ? ? ? ? ? ? ? ? ? ? ?].
  destruct (callback t); explore; reflexivity.
Qed.

Lemma dispatch_quietly registered listener w :
  (∀ i w, uncaught (deliver (listener i) w) = uncaught w) →
  uncaught (dispatch registered listener w) = uncaught w.
Proof.
  intros Hl. unfold dispatch. generalize (seq 0 (length (gestures w))). intros l.
  revert w. induction l as [|i l IH]; intros w; [reflexivity|].
  simpl. rewrite IH. destruct (gestures w !! i) as [g|]; [|reflexivity].
  destruct (registered g); [apply Hl | reflexivity].
Qed.

Lemma step_quietly w e : uncaught (step env w e) = uncaught w.
Proof.
  destruct e; simpl.
  - destruct (downAttached w); [apply down_quietly | reflexivity].
  - apply dispatch_quietly. intros. apply move_quietly.
  - apply dispatch_quietly. intros. apply up_quietly.
  - apply dispatch_quietly. intros. apply cancel_quietly.
  - destruct (navigationAttached w); [apply navigation_quietly | reflexivity].
  - apply fire_quietly.
  - reflexivity.
  - reflexivity.
  - apply cleanup_quietly.
Qed.

Lemma reachable_quietly w : reachable env w → uncaught w = [].
Proof.
  induction 1 as [p|w e _ IH]; [|rewrite step_quietly; exact IH].
  unfold setupInteractions. repeat match goal with |- context [if ?c then _ else _] =>
                                     destruct c end; reflexivity.
Qed.

End Cleanup.

(** C8. [handleAction] never raises to its caller.  For a missing
    descriptor, an action of ['none'] (or none at all) and an unknown action
    type it makes no external call and schedules nothing.  Whatever an
    external call throws is caught and reported through [console.error].
    It changes nothing of the gesture state.  [handlePointerUp], which calls
    it, therefore always returns, and for the gesture that owns the state
    its cleanup has run: the state is idle, the three listeners are removed
    and the release of the ripple is scheduled.  No event lets an exception
    escape a listener or a timer callback.  (The console and the DOM
    operations are taken not to throw; the external calls throw as the host
    decides.) *)
Theorem handleAction_never_raises env w :
  (∀ actionConfig,
     ∃ w' calls logged,
       handleAction env actionConfig w = (Ret tt, w')
       ∧ effects w' = effects w ++ calls
       ∧ Logger.console (logger w') = Logger.console (logger w) ++ logged
       ∧ (∀ c e, (c, Some e) ∈ calls → ∃ call, call ∈ logged ∧ reports e call)
       ∧ (dispatches actionConfig = false → calls = [] ∧ timers w' = timers w)
       ∧ state w' = state w ∧ gestures w' = gestures w
       ∧ fired w' = fired w ∧ uncaught w' = uncaught w)
  ∧ (∀ i upEv,
       ∃ w', handlePointerUp env i upEv w = (Ret tt, w')
             ∧ ∀ g, gestures w !! i = Some g →
                    activePointerId (state w) = Some (pointerId (ev g)) →
                    idle (state w')
                    ∧ gestures w' !! i
                      = Some (with_cancelListener false
                                (with_upListener false (with_moveListener false g)))
                    ∧ ∃ t, t ∈ timers w' ∧ callback t = RippleReleaseCallback (ripple g))
  ∧ (∀ e, uncaught (step env w e) = uncaught w).
Proof.
  split; [|split; [|apply step_quietly]].
  - intros actionConfig.
    destruct (handleAction_result env actionConfig w)
      as (lg & fx & nav & E & (logged & Hc & Hrep) & Hinert).
    exists (action_result lg fx nav w), fx, logged.
    split; [exact E|]. split; [destruct nav; reflexivity|].
    split; [destruct nav; exact Hc|]. split; [exact Hrep|].
    split.
    + intros Hd. destruct (Hinert Hd) as [-> ->]. split; reflexivity.
    + destruct nav; repeat split; reflexivity.
  - intros i upEv. destruct (handlePointerUp_returns env i upEv w) as [w' E].
    exists w'. split; [exact E|]. intros g Hg Ha.
    pose proof (handlePointerUp_cleans env i upEv w g Hg Ha) as H.
    rewrite E in H. exact H.
Qed.

Lemma handleAction_never_raises_witness :
  (∃ w' calls logged,
     handleAction (Sample.card Sample.failingHost) (Some (Sample.act "expand")) Sample.held
     = (Ret tt, w')
     ∧ effects w' = effects Sample.held ++ calls
     ∧ Logger.console (logger w') = Logger.console (logger Sample.held) ++ logged
     ∧ (∀ c e, (c, Some e) ∈ calls → ∃ call, call ∈ logged ∧ reports e call))
  ∧ (∃ w' calls,
       handleAction (Sample.card Sample.failingHost) (Some (Sample.act "frobnicate"))
         Sample.held = (Ret tt, w')
       ∧ effects w' = effects Sample.held ++ calls ∧ calls = [])
  ∧ idle (state (snd (handlePointerUp (Sample.card Sample.failingHost) 0 Sample.finger
                        Sample.held))).
Proof.
  pose proof (handleAction_never_raises (Sample.card Sample.failingHost) Sample.held)
    as (Hact & Hup & _).
  split; [|split].
  - destruct (Hact (Some (Sample.act "expand")))
      as (w' & calls & logged & E & Hfx & Hlg & Hrep & _).
    exists w', calls, logged. auto.
  - destruct (Hact (Some (Sample.act "frobnicate")))
      as (w' & calls & logged & E & Hfx & _ & _ & Hinert & _).
    exists w', calls. destruct (Hinert eq_refl) as [Hnil _]. auto.
  - destruct (Hup 0%nat Sample.finger) as (w' & E & Hclean).
    rewrite E. apply (Hclean Sample.finger_closure); reflexivity.
Defined.

(** ** Navigation *)

Section Navigation.

Variable env : Env.

(** With no active pointer the up listeners only unregister themselves. *)
Lemma up_idle_fold u l :
  ∀ w, activePointerId (state w) = None →
       ∃ gs',
         fold_left
           (fun w i =>
              match gestures w !! i with
              | Some g =>
                  if upListener g
                  then deliver (once (with_upListener false)
                                  (fun i => handlePointerUp env i u) i) w
                  else w
              | None => w
              end) l w
         = on_gestures (fun _ => gs') w.
Proof.
  induction l as [|i l IH]; intros w Ha.
  - exists (gestures w). simpl. symmetry. apply on_gestures_const. reflexivity.
  - simpl. destruct (gestures w !! i) as [g|] eqn:Hg; [|apply IH, Ha].
    destruct (upListener g); [|apply IH, Ha].
    rewrite (up_foreign env i u w g Hg) by (rewrite Ha; discriminate).
    destruct (IH (on_gestures
                    (fun gs => alter (with_moveListener false) i
                                 (alter (with_upListener false) i gs)) w) Ha)
      as [gs' Hfold].
    exists gs'. rewrite Hfold. reflexivity.
Qed.

Lemma up_idle u w :
  activePointerId (state w) = None → fired (step env w (PointerUp u)) = fired w.
Proof.
  intros Ha. simpl step. unfold dispatch.
  destruct (up_idle_fold u (seq 0 (length (gestures w))) w Ha) as [gs' ->].
  reflexivity.
Qed.

Lemma navigation_schedules w :
  navigationAttached w = true →
  let w1 := step env w LocationChanged in
  timers w1 = timers w ++ [{| handle := nextHandle w; due := (now w + 250)%N;
                              callback := RebuildCallback |}]
  ∧ state w1 = state w ∧ stateRef w1 = stateRef w
  ∧ fired w1 = fired w ∧ effects w1 = effects w.
Proof.
  intros Hn. simpl step. rewrite Hn. destruct w. repeat split; reflexivity.
Qed.

(** The navigation event, the settling delay, the rebuild timer. *)
Lemma navigation_settles w :
  reachable env w → navigationAttached w = true →
  let w2 := run env w [LocationChanged; Elapse 250] in
  reachable env w2
  ∧ List.find (fun t => Nat.eqb (handle t) (nextHandle w)) (timers w2)
    = Some {| handle := nextHandle w; due := (now w + 250)%N; callback := RebuildCallback |}
  ∧ now w2 = (now w + 250)%N ∧ isConnected w2 = isConnected w
  ∧ state w2 = state w ∧ stateRef w2 = stateRef w ∧ nextRef w2 = nextRef w
  ∧ bodyChildren w2 = bodyChildren w
  ∧ fired w2 = fired w ∧ effects w2 = effects w ∧ uncaught w2 = uncaught w.
Proof.
  intros Hr Hn w2. split; [apply reachable_run, Hr|].
  pose proof (inv_handles w (Inv_reachable env w Hr)) as Hfresh.
  subst w2. unfold run. simpl fold_left. rewrite Hn. destruct w.
  split; [apply find_appended; [exact Hfresh | reflexivity]|].
  repeat split; reflexivity.
Qed.

Lemma rebuild w h t :
  Inv w →
  List.find (fun t => Nat.eqb (handle t) h) (timers w) = Some t →
  callback t = RebuildCallback → (due t <= now w)%N → isConnected w = true →
  let w' := step env w (TimerFires h) in
  state w' = createFreshState env
  ∧ stateRef w' = nextRef w ∧ stateRef w' ≠ stateRef w
  ∧ (∀ t', t' ∈ timers w' → is_hold t' = false)
  ∧ (∀ i, holdIndicator (state w) = Some i → i ∉ bodyChildren w')
  ∧ rippleChildren w' = [] ∧ activeRipples w' = []
  ∧ fired w' = fired w ∧ effects w' = effects w ∧ uncaught w' = uncaught w
  ∧ downAttached w' = true.
Proof.
  intros HI Hfind Hcb Hdue Hconn.
  pose proof (Inv_fire env h w HI) as HI'.
  revert HI'. simpl step. unfold fireTimer. rewrite Hfind, Hcb.
  apply N.leb_le in Hdue. rewrite Hdue. clear Hfind Hcb Hdue.
  destruct HI as [_ _ _ _ _ _ Href]. revert Href Hconn.
  destruct w as [[sid ht htr hi ap lat pha] ref ripples gs down nav_on rchildren bchildren
                 connected ts clock nref nelem nh lg0 fx0 fd uc].
  cbn [isConnected stateRef nextRef]. intros Href ->.
  explore.
  all: intros HI'; fold_projections.
  all: split; [reflexivity|]; split; [reflexivity|]; split; [lia|].
  all: split; [apply (no_hold_timer _ HI'); reflexivity|].
  all: split; [|repeat split; reflexivity].
  all: intros j Hj; try discriminate Hj; injection Hj as <-.
  - intros Hin. apply list_elem_of_filter in Hin as [Hne _]. congruence.
  - apply bool_decide_eq_false in Heqb. exact Heqb.
  - intros Hin. apply list_elem_of_filter in Hin as [Hne _]. congruence.
  - apply bool_decide_eq_false in Heqb. exact Heqb.
Qed.

End Navigation.

(** C6, as the code has it.  A navigation event schedules the rebuild 250 ms
    later and changes nothing else of the gesture.  When that timer fires
    and the element is still connected, no hold timer is left pending, the
    hold indicator is out of the document, the ripple container and the list
    of ripples are empty, [state] is a new object with the values of
    [createFreshState], the pointer-down handler is attached again, nothing
    was executed, and a pointer-up that follows executes nothing either.
    The third part puts the two together for a card that stays connected.
    Every [setupInteractions] call registers its own listener over its own
    variables, so this is the behaviour of every instance. *)
Theorem navigation_rebuilds env w :
  reachable env w →
  (navigationAttached w = true →
   let w1 := step env w LocationChanged in
   timers w1 = timers w ++ [{| handle := nextHandle w; due := (now w + 250)%N;
                               callback := RebuildCallback |}]
   ∧ state w1 = state w ∧ stateRef w1 = stateRef w
   ∧ fired w1 = fired w ∧ effects w1 = effects w)
  ∧ (∀ h t,
       List.find (fun t => Nat.eqb (handle t) h) (timers w) = Some t →
       callback t = RebuildCallback → (due t <= now w)%N → isConnected w = true →
       let w' := step env w (TimerFires h) in
       state w' = createFreshState env
       ∧ stateRef w' = nextRef w ∧ stateRef w' ≠ stateRef w
       ∧ (∀ t', t' ∈ timers w' → is_hold t' = false)
       ∧ (∀ i, holdIndicator (state w) = Some i → i ∉ bodyChildren w')
       ∧ rippleChildren w' = [] ∧ activeRipples w' = []
       ∧ fired w' = fired w ∧ effects w' = effects w ∧ uncaught w' = uncaught w
       ∧ downAttached w' = true
       ∧ ∀ upEv, fired (step env w' (PointerUp upEv)) = fired w)
  ∧ (navigationAttached w = true → isConnected w = true →
     let w' := run env w [LocationChanged; Elapse 250; TimerFires (nextHandle w)] in
     state w' = createFreshState env
     ∧ stateRef w' ≠ stateRef w
     ∧ (∀ t', t' ∈ timers w' → is_hold t' = false)
     ∧ (∀ i, holdIndicator (state w) = Some i → i ∉ bodyChildren w')
     ∧ rippleChildren w' = [] ∧ activeRipples w' = []
     ∧ fired w' = fired w ∧ effects w' = effects w ∧ uncaught w' = uncaught w
     ∧ ∀ upEv, fired (step env w' (PointerUp upEv)) = fired w).
Proof.
  intros Hr. split; [apply navigation_schedules|].
  assert (Hfires : ∀ w h t,
            reachable env w →
            List.find (fun t => Nat.eqb (handle t) h) (timers w) = Some t →
            callback t = RebuildCallback → (due t <= now w)%N → isConnected w = true →
            let w' := step env w (TimerFires h) in
            state w' = createFreshState env
            ∧ stateRef w' = nextRef w ∧ stateRef w' ≠ stateRef w
            ∧ (∀ t', t' ∈ timers w' → is_hold t' = false)
            ∧ (∀ i, holdIndicator (state w) = Some i → i ∉ bodyChildren w')
            ∧ rippleChildren w' = [] ∧ activeRipples w' = []
            ∧ fired w' = fired w ∧ effects w' = effects w ∧ uncaught w' = uncaught w
            ∧ downAttached w' = true
            ∧ ∀ upEv, fired (step env w' (PointerUp upEv)) = fired w).
  { clear w Hr. intros w h t Hr Hfind Hcb Hdue Hconn w'.
    destruct (rebuild env w h t (Inv_reachable env w Hr) Hfind Hcb Hdue Hconn)
      as (H1 & H2 & H3 & H4 & H5 & H6 & H7 & H8 & H9 & H10 & H11).
    fold w' in H1, H2, H3, H4, H5, H6, H7, H8, H9, H10, H11.
    do 11 (split; [assumption|]).
    intros upEv. rewrite up_idle; [exact H8|]. rewrite H1. reflexivity. }
  split; [intros h t; apply Hfires, Hr|].
  intros Hn Hc w'.
  destruct (navigation_settles env w Hr Hn)
    as (Hr2 & Hfind & Hnow & Hconn & Hst & Href & _ & _ & Hf & He & Hu).
  set (w2 := run env w [LocationChanged; Elapse 250]) in *.
  destruct (Hfires w2 (nextHandle w) _ Hr2 Hfind eq_refl)
    as (H1 & H2 & H3 & H4 & H5 & H6 & H7 & H8 & H9 & H10 & _ & H12).
  { cbn [due]. rewrite Hnow. lia. }
  { rewrite Hconn. exact Hc. }
  change (step env w2 (TimerFires (nextHandle w))) with w' in *.
  split; [exact H1|]. split; [congruence|]. split; [exact H4|].
  split; [intros i Hi; apply H5; rewrite Hst; exact Hi|].
  do 2 (split; [assumption|]).
  split; [congruence|]. split; [congruence|]. split; [congruence|].
  intros upEv. rewrite H12. exact Hf.
Qed.

Lemma navigation_rebuilds_witness :
  state (run Sample.env Sample.pressed
           [LocationChanged; Elapse 250; TimerFires (nextHandle Sample.pressed)])
  = createFreshState Sample.env
  ∧ (∀ t', t' ∈ timers (run Sample.env Sample.pressed
                          [LocationChanged; Elapse 250;
                           TimerFires (nextHandle Sample.pressed)]) →
           is_hold t' = false)
  ∧ stateRef (run Sample.env Sample.pressed
                [LocationChanged; Elapse 250; TimerFires (nextHandle Sample.pressed)])
    ≠ stateRef Sample.pressed
  ∧ fired (step Sample.env
             (run Sample.env Sample.pressed
                [LocationChanged; Elapse 250; TimerFires (nextHandle Sample.pressed)])
             (PointerUp Sample.finger))
    = fired Sample.pressed.
Proof.
  assert (Hr : reachable Sample.env Sample.pressed)
    by (apply reachable_step, reachable_setup).
  assert (Hn : navigationAttached Sample.pressed = true) by reflexivity.
  assert (Hc : isConnected Sample.pressed = true) by reflexivity.
  pose proof (proj2 (proj2 (navigation_rebuilds Sample.env Sample.pressed Hr)) Hn Hc)
    as (H1 & H2 & H3 & _ & _ & _ & _ & _ & _ & H10).
  exact (conj H1 (conj H3 (conj H2 (H10 Sample.finger)))).
Defined.

(** C6 as stated fails: a navigation during the first gesture, the element
    detached before the 250 ms have passed.  When the rebuild timer has
    fired the hold timer is still pending, the ripple is still in its
    container, [state] is still the first object, and the hold then takes
    its course: the timer fires and pointer up executes the hold action. *)
Lemma navigation_detached_counterexample :
  timers Sample.detached
  = [{| handle := 0; due := 1500; callback := HoldCallback Sample.finger true |}]
  ∧ stateRef Sample.detached = stateRef Sample.start
  ∧ rippleChildren Sample.detached = [0%nat]
  ∧ fired (run Sample.env Sample.detached
             [Elapse 250; TimerFires 0; PointerUp Sample.finger]) = [FiredHold].
Proof. repeat split; reflexivity. Qed.

(** ** Pointer cancel *)

Section Cancel.

Lemma indexOf_lookup x l i : indexOf x l = Some i → l !! i = Some x.
Proof.
  revert i. induction l as [|y l IH]; intros i; simpl; [discriminate|].
  destruct (Nat.eqb y x) eqn:E.
  - intros [= <-]. apply Nat.eqb_eq in E. subst. reflexivity.
  - destruct (indexOf x l) as [k|]; simpl; [|discriminate].
    intros [= <-]. simpl. apply IH. reflexivity.
Qed.

Lemma indexOf_None x l : indexOf x l = None → x ∉ l.
Proof.
  induction l as [|y l IH]; simpl; [intros _; apply not_elem_of_nil|].
  destruct (Nat.eqb y x) eqn:E; [discriminate|].
  destruct (indexOf x l); simpl; [discriminate|]. intros _.
  apply Nat.eqb_neq in E. rewrite elem_of_cons. intros [->|H]; [congruence|].
  apply IH; [reflexivity | exact H].
Qed.

Lemma delete_removes (x : nat) (l : list nat) (i : nat) : NoDup l → l !! i = Some x → x ∉ delete i l.
Proof.
  revert i. induction l as [|y l IH]; intros i Hnd Hi; [discriminate|].
  apply NoDup_cons in Hnd as [Hy Hnd]. destruct i as [|i]; simpl in *.
  - injection Hi as ->. exact Hy.
  - rewrite elem_of_cons. intros [->|H].
    + apply Hy. apply (list_elem_of_lookup_2 _ _ _ Hi).
    + eapply IH; eassumption.
Qed.





End Cancel.



(** * Further properties *)

(** ** The logger: levels and the banner *)

Section LoggerLevels.

Import Logger.

Lemma emit_printed m a s : printed s (emit m a s).
Proof.
  unfold printed, emit. simpl. intros H.
  apply (f_equal length) in H. rewrite length_app in H. simpl in H. lia.
Qed.

Lemma leveled_printed th m st msg d s :
  printed s (leveled th m st msg d s) ↔ (level th <= level (CURRENT_LOG_LEVEL s))%Z.
Proof.
  unfold leveled. destruct (Z.leb_spec (level th) (level (CURRENT_LOG_LEVEL s))) as [H|H].
  - split; [intros _; exact H|]. intros _. destruct d; apply emit_printed.
  - split; [|lia]. intros Hp. exfalso. apply Hp. reflexivity.
Qed.

Lemma heads_emit m a l :
  m ≠ ConsoleGroupCollapsed →
  banner_heads (l ++ [{| method := m; args := a |}]) = banner_heads l.
Proof.
  intros Hm. unfold banner_heads. rewrite filter_app, filter_cons, filter_nil.
  destruct m; simpl; try contradiction; apply app_nil_r.
Qed.

Lemma heads_error m d s :
  banner_heads (console (error m d s)) = banner_heads (console s)
  ∧ BANNER_SHOWN (error m d s) = BANNER_SHOWN s.
Proof.
  unfold error. destruct (_ <? _)%Z; [done|].
  destruct m as [msg|n msg [st|]|l], d as [|d0 d]; simpl;
    repeat match goal with |- context [if ?c then _ else _] => destruct c end;
    simpl; rewrite ?heads_emit by discriminate; done.
Qed.

Lemma heads_leveled th m st msg d s :
  m ≠ ConsoleGroupCollapsed →
  banner_heads (console (leveled th m st msg d s)) = banner_heads (console s)
  ∧ BANNER_SHOWN (leveled th m st msg d s) = BANNER_SHOWN s.
Proof.
  intros Hm. unfold leveled. destruct (_ <=? _)%Z; [|done].
  destruct d; simpl; rewrite heads_emit by exact Hm; done.
Qed.

Lemma heads_keeps c s :
  prints_banner c = false →
  banner_heads (console (call c s)) = banner_heads (console s)
  ∧ BANNER_SHOWN (call c s) = BANNER_SHOWN s.
Proof.
  destruct c; simpl; try discriminate; intros _.
  - apply heads_error.
  - apply heads_leveled; discriminate.
  - apply heads_leveled; discriminate.
  - apply heads_leveled; discriminate.
  - done.
  - unfold setDebugMode, info.
    destruct (heads_leveled INFO ConsoleLog LOG_STYLES_prefix
                ("Debug mode " +:+ (if enable then "enabled" else "disabled")) []
                (set_mode enable s)) as [Hb Hs]; [discriminate|].
    split; [exact Hb | exact Hs].
  - unfold logError.
    match goal with |- context [error ?m ?d s] =>
      destruct (heads_error m d s) as [Hb Hs]; set (s' := error m d s) in * end.
    destruct err as [?|? ? [st|]|?]; try done.
    destruct (String.eqb st ""); [done|].
    simpl. rewrite heads_emit by discriminate. done.
  - apply heads_error.
Qed.

Lemma heads_banner v s :
  banner_heads (console (printVersionBanner v s))
  = banner_heads (console s) ++ (if BANNER_SHOWN s then [] else take 1 (banner v))
  ∧ BANNER_SHOWN (printVersionBanner v s) = true.
Proof.
  unfold printVersionBanner. destruct (BANNER_SHOWN s) eqn:E.
  - rewrite app_nil_r. done.
  - split; [|reflexivity]. simpl.
    rewrite !heads_emit by discriminate.
    unfold banner_heads. rewrite filter_app. reflexivity.
Qed.

Lemma heads_session cs :
  ∀ s, let s' := fold_left (fun s c => call c s) cs s in
       banner_heads (console s')
       = banner_heads (console s)
         ++ (if BANNER_SHOWN s then []
             else match first_version cs with
                  | Some v => take 1 (banner v)
                  | None => []
                  end).
Proof.
  induction cs as [|c cs IH]; intros s; simpl.
  - destruct (BANNER_SHOWN s); rewrite app_nil_r; reflexivity.
  - rewrite IH. destruct (prints_banner c) eqn:Ec.
    + destruct c as [v d|v| | | | | | | |]; try discriminate; simpl.
      * unfold initializeLogger.
        destruct (heads_banner v (set_mode d s)) as [Hh ->]. rewrite Hh.
        rewrite app_nil_r. reflexivity.
      * destruct (heads_banner v s) as [Hh ->]. rewrite Hh.
        rewrite app_nil_r. reflexivity.
    + destruct (heads_keeps c s Ec) as [-> ->].
      destruct c; try discriminate; reflexivity.
Qed.

End LoggerLevels.

(** X1. [error] is never filtered: at every log level it prints at least
    one line, through [console.error] only, and changes nothing else of the
    logger.  (The guard [CURRENT_LOG_LEVEL < LogLevel.ERROR] cannot hold:
    [ERROR] is the lowest level.) *)
Theorem error_is_never_filtered (messageOrError : Value) (data : list Value) (s : Logger.State) :
  ∃ line lines,
    Logger.console (Logger.error messageOrError data s) = Logger.console s ++ line :: lines
    ∧ Forall (fun c => Logger.method c = Logger.ConsoleError) (line :: lines)
    ∧ Logger.CURRENT_LOG_LEVEL (Logger.error messageOrError data s) = Logger.CURRENT_LOG_LEVEL s
    ∧ Logger.BANNER_SHOWN (Logger.error messageOrError data s) = Logger.BANNER_SHOWN s.
Proof.
  unfold Logger.error.
  replace (Logger.level (Logger.CURRENT_LOG_LEVEL s) <? Logger.level Logger.ERROR)%Z with false
    by (symmetry; apply Z.ltb_ge; destruct (Logger.CURRENT_LOG_LEVEL s); simpl; lia).
  destruct messageOrError as [msg|n msg [st|]|l], data as [|d0 d]; simpl;
    repeat match goal with |- context [if ?c then _ else _] => destruct c end;
    simpl; rewrite <- ?app_assoc; simpl; do 2 eexists;
    (split; [reflexivity|]); (split; [|done]); repeat constructor.
Qed.

(** X2. Which level shows what: [debug] prints exactly at level [DEBUG],
    [info] at [INFO] and [DEBUG], [warn] at every level but [ERROR]; so
    whatever [debug] prints [info] prints, and whatever [info] prints [warn]
    prints. *)
Theorem log_levels_are_nested (message : string) (data : list Value) (s : Logger.State) :
  (printed s (Logger.debug message data s) ↔ Logger.CURRENT_LOG_LEVEL s = Logger.DEBUG)
  ∧ (printed s (Logger.info message data s)
     ↔ Logger.CURRENT_LOG_LEVEL s = Logger.INFO ∨ Logger.CURRENT_LOG_LEVEL s = Logger.DEBUG)
  ∧ (printed s (Logger.warn message data s) ↔ Logger.CURRENT_LOG_LEVEL s ≠ Logger.ERROR)
  ∧ (printed s (Logger.debug message data s) → printed s (Logger.info message data s))
  ∧ (printed s (Logger.info message data s) → printed s (Logger.warn message data s)).
Proof.
  unfold Logger.debug, Logger.info, Logger.warn. rewrite !leveled_printed.
  destruct (Logger.CURRENT_LOG_LEVEL s); simpl;
    repeat split; intros; try lia; try discriminate; try congruence; auto;
    try (match goal with H : _ ∨ _ |- _ => destruct H; discriminate end).
Qed.

(** X3. [setDebugMode(true)] raises the level to [DEBUG] and prints one
    line, ["Debug mode enabled"]; [setDebugMode(false)] lowers the level to
    [WARN] first, so its own ["Debug mode disabled"] message is filtered and
    nothing is printed.  Both record the flag on [window]. *)
Theorem setDebugMode_announces_only_enabling (s : Logger.State) :
  (Logger.console (Logger.setDebugMode true s)
   = Logger.console s
     ++ [{| Logger.method := Logger.ConsoleLog;
            Logger.args := [Logger.tag "Debug mode enabled";
                            VString Logger.LOG_STYLES_prefix] |}]
   ∧ Logger.CURRENT_LOG_LEVEL (Logger.setDebugMode true s) = Logger.DEBUG
   ∧ Logger.window_debug (Logger.setDebugMode true s) = Some true)
  ∧ (Logger.console (Logger.setDebugMode false s) = Logger.console s
     ∧ Logger.CURRENT_LOG_LEVEL (Logger.setDebugMode false s) = Logger.WARN
     ∧ Logger.window_debug (Logger.setDebugMode false s) = Some false)
  ∧ ∀ enable, Logger.BANNER_SHOWN (Logger.setDebugMode enable s) = Logger.BANNER_SHOWN s.
Proof.
  split; [|split].
  - repeat split.
  - repeat split.
  - intros []; reflexivity.
Qed.

(** X4. The banner a session shows is the banner of its first banner call:
    a later [initializeLogger] or [printVersionBanner], with whatever
    version, adds none. *)
Theorem banner_carries_first_version (cs : list Logger.Call) :
  banner_heads (Logger.console (Logger.session cs))
  = match first_version cs with
    | Some version => take 1 (Logger.banner version)
    | None => []
    end.
Proof.
  unfold Logger.session. rewrite heads_session. reflexivity.
Qed.

(** X20. For an [Error] with a message, [logError] without a context
    prints what [error] prints for it: the line ["Error: "] with the
    message and then the stack, if it has one.  With a context the line
    reads ["Error during "] the context.  (For an [Error] with an empty
    message [error] prints ["Unknown error"], [logError] an empty
    message.) *)
Theorem logError_agrees_with_error (name message : string) (stack : option string)
    (s : Logger.State) :
  message ≠ "" →
  Logger.logError (VError name message stack) None s
  = Logger.error (VError name message stack) [] s
  ∧ ∀ context, context ≠ "" →
      ∃ rest,
        Logger.console (Logger.logError (VError name message stack) (Some context) s)
        = Logger.console s
          ++ {| Logger.method := Logger.ConsoleError;
                Logger.args := [Logger.tag ("Error during " +:+ context +:+ ": " +:+ message);
                                VString Logger.LOG_STYLES_error] |} :: rest.
Proof.
  intros Hm. apply String.eqb_neq in Hm.
  assert (Hl : (Logger.level (Logger.CURRENT_LOG_LEVEL s) <? Logger.level Logger.ERROR)%Z = false).
  { apply Z.ltb_ge. destruct (Logger.CURRENT_LOG_LEVEL s); simpl; lia. }
  split.
  - unfold Logger.logError, Logger.error. rewrite Hl, Hm.
    destruct stack as [st|]; [|reflexivity].
    destruct (String.eqb st ""); reflexivity.
  - intros context Hc. apply String.eqb_neq in Hc.
    unfold Logger.logError, Logger.error. rewrite Hl, Hc.
    destruct stack as [st|]; [|eexists; reflexivity].
    destruct (String.eqb st ""); [eexists; reflexivity|].
    cbn [Logger.console Logger.emit]. rewrite <- app_assoc. eexists. reflexivity.
Qed.

Lemma logError_agrees_with_error_witness :
  Logger.logError (VError "TypeError" "hass is undefined" (Some "at callService")) None
    Logger.initial
  = Logger.error (VError "TypeError" "hass is undefined" (Some "at callService")) []
      Logger.initial.
Proof.
  apply (logError_agrees_with_error "TypeError" "hass is undefined" (Some "at callService")
           Logger.initial).
  discriminate.
Defined.

(** ** The actions, effect by effect *)

Section SplitFacts.

Lemma split_cons sep c rest :
  split sep (String c rest)
  = if Ascii.eqb c sep then EmptyString :: split sep rest
    else match split sep rest with
         | part :: parts => String c part :: parts
         | [] => [String c EmptyString]
         end.
Proof. reflexivity. Qed.

Lemma split_nonempty sep s : split sep s ≠ [].
Proof.
  destruct s as [|c rest]; [discriminate|]. rewrite split_cons.
  destruct (Ascii.eqb c sep); [discriminate|].
  destruct (split sep rest); discriminate.
Qed.

(** [parts.join(sep)] undoes [s.split(sep)]. *)
Lemma concat_split sep s : String.concat (String sep "") (split sep s) = s.
Proof.
  induction s as [|c rest IH]; [reflexivity|]. rewrite split_cons.
  destruct (Ascii.eqb c sep) eqn:E.
  - apply Ascii.eqb_eq in E. subst c.
    destruct (split sep rest) as [|part parts] eqn:Er; [destruct (split_nonempty _ _ Er)|].
    cbn [String.concat]. cbn [String.concat] in IH. rewrite IH. reflexivity.
  - destruct (split sep rest) as [|part parts] eqn:Er; [destruct (split_nonempty _ _ Er)|].
    cbn [String.concat] in *. destruct parts as [|p ps].
    + rewrite IH. reflexivity.
    + rewrite <- IH. reflexivity.
Qed.

Lemma length_split sep s : length (split sep s) = S (occurrences sep s).
Proof.
  induction s as [|c rest IH]; [reflexivity|]. rewrite split_cons. cbn [occurrences].
  destruct (Ascii.eqb c sep).
  - simpl. rewrite IH. reflexivity.
  - destruct (split sep rest) as [|part parts] eqn:Er; [destruct (split_nonempty _ _ Er)|].
    simpl in *. exact IH.
Qed.

Lemma occurrences_append sep s t :
  occurrences sep (s +:+ t) = occurrences sep s + occurrences sep t.
Proof.
  induction s as [|c s IH]; [reflexivity|].
  change (String c s +:+ t) with (String c (s +:+ t)).
  cbn [occurrences]. rewrite IH. lia.
Qed.

Lemma split_two sep s a b :
  split sep s = [a; b] →
  s = a +:+ String sep "" +:+ b
  ∧ occurrences sep s = 1 ∧ occurrences sep a = 0 ∧ occurrences sep b = 0.
Proof.
  intros H.
  assert (Hs : s = a +:+ String sep "" +:+ b).
  { rewrite <- (concat_split sep s), H. reflexivity. }
  assert (Hn : occurrences sep s = 1).
  { pose proof (length_split sep s) as Hl. rewrite H in Hl. simpl in Hl. lia. }
  split; [exact Hs|]. split; [exact Hn|].
  rewrite Hs, !occurrences_append in Hn. cbn [occurrences] in Hn.
  rewrite Ascii.eqb_refl in Hn. lia.
Qed.

End SplitFacts.

Section ActionEffects.

Variable env : Env.

Lemma effects_action_result lg fx nav w :
  effects (action_result lg fx nav w) = effects w ++ fx
  ∧ timers (action_result lg fx nav w)
    = timers w ++ (if nav then [{| handle := nextHandle w; due := (now w + 250)%N;
                                   callback := RebuildCallback |}] else []).
Proof. destruct w, nav; cbn; rewrite ?app_nil_r; split; reflexivity. Qed.

(** Present the world an action ends in as [action_result]. *)
Ltac present nav :=
  do 2 eexists; exists nav; split; [same_world|].

Lemma fireMoreInfo_calls e w :
  ∃ lg fx nav,
    fireMoreInfo env e w = (Ret tt, action_result lg fx nav w)
    ∧ nav = false
    ∧ (fx = [] ∨ e ≠ "" ∧ ∃ r, fx = [(ElementDispatchMoreInfo e, r)]).
Proof.
  open_world w. unfold fireMoreInfo. destruct (String.eqb e "") eqn:E;
    unfold_m; unfold_world.
  - present false. auto.
  - apply String.eqb_neq in E.
    destruct (raises _ _); present false; (split; [reflexivity|]); right; eauto.
Qed.

Lemma handleNavigation_calls a w :
  ∃ lg fx nav,
    handleNavigation env a w = (Ret tt, action_result lg fx nav w)
    ∧ (fx = [] ∧ nav = false ∧ truthy (navigation_path a) = false
       ∨ ∃ path, navigation_path a = Some path ∧ path ≠ "" ∧
           ((∃ e, fx = [(HistoryPushState path, Some e)] ∧ nav = false)
            ∨ (∃ e, fx = [(HistoryPushState path, None);
                          (WindowDispatchLocationChanged, Some e)] ∧ nav = false)
            ∨ (fx = [(HistoryPushState path, None); (WindowDispatchLocationChanged, None)]
               ∧ nav = navigationAttached w))).
Proof.
  open_world w. unfold handleNavigation, dispatchLocationChanged, navigationListener.
  destruct (truthy (navigation_path a)) eqn:Hp; cbn [negb]; unfold_m; unfold_world.
  2:{ present false. auto. }
  destruct (navigation_path a) as [path|]; [|discriminate].
  change (default "" (Some path)) with path.
  assert (Hne : path ≠ "").
  { cbn in Hp. apply negb_true_iff, String.eqb_neq in Hp. exact Hp. }
  destruct (raises _ (HistoryPushState _)) as [e|].
  { present false. right. exists path. eauto 10. }
  destruct (raises _ WindowDispatchLocationChanged) as [e|].
  { present false. right. exists path. eauto 10. }
  destruct nav_on.
  - present true. right. exists path. eauto 10.
  - present false. right. exists path. eauto 10.
Qed.

Lemma callService_calls a w :
  ∃ lg fx nav,
    callService env a w = (Ret tt, action_result lg fx nav w)
    ∧ nav = false
    ∧ match split "." (default "" (service a)) with
      | [domain; name] =>
          if truthy (service a) then
            ∃ r, fx = [(HassCallService domain name (default [] (service_data a)), r)]
          else fx = []
      | _ => fx = []
      end.
Proof.
  open_world w. unfold callService.
  destruct (truthy (service a)) eqn:Ht; cbn [negb].
  2:{ unfold_m; unfold_world. present false. split; [reflexivity|].
      destruct (split _ _) as [|d [|s [|? ?]]]; reflexivity. }
  destruct (split _ _) as [|d [|s [|? ?]]]; unfold_m; unfold_world;
    try (present false; split; reflexivity).
  destruct (raises _ _); present false; (split; [reflexivity|]); eauto.
Qed.

Lemma openUrl_calls a w :
  ∃ lg fx nav,
    openUrl env a w = (Ret tt, action_result lg fx nav w)
    ∧ nav = false
    ∧ (fx = []
       ∨ ∃ path, url_path a = Some path ∧
           let url := if checked_url path then path else "https://" +:+ path in
           ((∃ e, fx = [(WindowOpen url, Some e)])
            ∨ (fx = [(WindowOpen url, None)] ∧ opens_tab (host env) url = false)
            ∨ (∃ r, fx = [(WindowOpen url, None); (ClearOpener url, r)]
                    ∧ opens_tab (host env) url = true))).
Proof.
  open_world w. unfold openUrl.
  destruct (truthy (url_path a)) eqn:Ht; cbn [negb].
  2:{ unfold_m; unfold_world. present false. auto. }
  destruct (url_path a) as [path|]; [|discriminate].
  change (default "" (Some path)) with path.
  replace (negb (String.prefix "http://" path) && negb (String.prefix "https://" path)
           && negb (String.prefix "/" path))
    with (negb (checked_url path))
    by (unfold checked_url; rewrite !negb_orb; reflexivity).
  destruct (checked_url path) eqn:Hc; cbn [negb]; unfold_m; unfold_world.
  all: destruct (raises _ (WindowOpen _)) as [e|];
    [present false; (split; [reflexivity|]); right; exists path;
     (split; [reflexivity|]); cbn zeta; rewrite Hc; eauto 10|].
  all: destruct (opens_tab _ _) eqn:Ho;
    [|present false; (split; [reflexivity|]); right; exists path;
      (split; [reflexivity|]); cbn zeta; rewrite Hc; eauto 10].
  all: destruct (raises _ (ClearOpener _));
    present false; (split; [reflexivity|]); right; exists path;
    (split; [reflexivity|]); cbn zeta; rewrite Hc; right; right; eauto.
Qed.

Lemma handleAction_calls actionConfig w :
  ∃ lg fx nav,
    handleAction env actionConfig w = (Ret tt, action_result lg fx nav w)
    ∧ ∀ c r, (c, r) ∈ fx →
        ∃ a, actionConfig = Some a ∧ action a = effect_of c
             ∧ match c with
               | ElementDispatchMoreInfo e => e = entityId env ∧ e ≠ ""
               | HassCallService _ _ _ => hass env = true
               | _ => True
               end.
Proof.
  unfold handleAction. destruct actionConfig as [a|].
  2:{ open_world w; unfold_m; unfold_world. present false. intros c r H. inversion H. }
  destruct (_ || _) eqn:Hnone.
  { open_world w; unfold_m; unfold_world. present false. intros c r H. inversion H. }
  apply orb_false_iff in Hnone as [Htruthy _]. apply negb_false_iff in Htruthy.
  destruct (action a) as [name|] eqn:Hname; [|discriminate]. simpl default.
  unfold bind at 1, Logger_info at 1, modify at 1, try_catch.
  set (w1 := on_logger _ w).
  destruct (name =? "more-info")%string eqn:E1.
  { apply String.eqb_eq in E1. subst name.
    destruct (fireMoreInfo_calls (entityId env) w1) as (lg & fx & nav & -> & _ & Hfx).
    exists lg, fx, nav. split; [reflexivity|]. intros c r Hin.
    destruct Hfx as [-> | (Hne & r' & ->)]; [inversion Hin|].
    apply list_elem_of_singleton in Hin. injection Hin as -> ->.
    exists a. auto. }
  destruct (name =? "navigate")%string eqn:E2.
  { apply String.eqb_eq in E2. subst name.
    destruct (handleNavigation_calls a w1) as (lg & fx & nav & -> & Hfx).
    exists lg, fx, nav. split; [reflexivity|]. intros c r Hin.
    destruct Hfx as [(-> & _) | (path & _ & _ & [(e & -> & _) | [(e & -> & _) | (-> & _)]])].
    - inversion Hin.
    - apply list_elem_of_singleton in Hin. injection Hin as -> ->. exists a. auto.
    - apply elem_of_cons in Hin as [Hin|Hin]; [|apply list_elem_of_singleton in Hin];
        injection Hin as -> ->; exists a; auto.
    - apply elem_of_cons in Hin as [Hin|Hin]; [|apply list_elem_of_singleton in Hin];
        injection Hin as -> ->; exists a; auto. }
  destruct (name =? "call-service")%string eqn:E3.
  { apply String.eqb_eq in E3. subst name.
    destruct (hass env) eqn:Hh.
    - destruct (callService_calls a w1) as (lg & fx & nav & -> & _ & Hfx).
      exists lg, fx, nav. split; [reflexivity|]. intros c r Hin.
      destruct (split _ _) as [|d [|s [|? ?]]]; try (subst fx; inversion Hin).
      destruct (truthy (service a)); [|subst fx; inversion Hin].
      destruct Hfx as (r' & ->).
      apply list_elem_of_singleton in Hin. injection Hin as -> ->. exists a. auto.
    - subst w1. open_world w; unfold_m; unfold_world. present false.
      intros c r H. inversion H. }
  destruct (name =? "url")%string eqn:E4.
  { apply String.eqb_eq in E4. subst name.
    destruct (openUrl_calls a w1) as (lg & fx & nav & -> & _ & Hfx).
    exists lg, fx, nav. split; [reflexivity|]. intros c r Hin.
    destruct Hfx as [-> | (path & _ & [(e & ->) | [(-> & _) | (r' & -> & _)]])].
    - inversion Hin.
    - apply list_elem_of_singleton in Hin. injection Hin as -> ->. exists a. auto.
    - apply list_elem_of_singleton in Hin. injection Hin as -> ->. exists a. auto.
    - apply elem_of_cons in Hin as [Hin|Hin]; [|apply list_elem_of_singleton in Hin];
        injection Hin as -> ->; exists a; auto. }
  destruct (name =? "expand")%string eqn:E5.
  { apply String.eqb_eq in E5. subst name.
    subst w1. open_world w; unfold_m; unfold_world.
    destruct (raises _ _); present false; intros c r Hin;
      apply list_elem_of_singleton in Hin; injection Hin as -> ->; exists a; auto. }
  subst w1. open_world w; unfold_m; unfold_world. present false.
  intros c r H. inversion H.
Qed.

End ActionEffects.

(** X5. Every URL [openUrl] hands to [window.open] has passed its check: it
    starts with [http://], [https://] or [/].  It is the configured path, or
    that path behind [https://] when the path itself fails the check.
    Whenever [window.open] returns a tab, its [opener] is cleared. *)
Theorem openUrl_opens_only_checked_urls (env : Env) (actionConfig : ActionConfig) (w : World) :
  ∃ calls,
    effects (snd (openUrl env actionConfig w)) = effects w ++ calls
    ∧ (∀ c r, (c, r) ∈ calls →
         ∃ path url,
           url_path actionConfig = Some path
           ∧ (c = WindowOpen url ∨ c = ClearOpener url)
           ∧ checked_url url = true
           ∧ (url = path ∨ checked_url path = false ∧ url = "https://" +:+ path))
    ∧ (∀ url, (WindowOpen url, None) ∈ calls → opens_tab (host env) url = true →
         ∃ r, (ClearOpener url, r) ∈ calls).
Proof.
  destruct (openUrl_calls env actionConfig w) as (lg & fx & nav & -> & _ & Hfx).
  exists fx. split; [apply effects_action_result|].
  destruct Hfx as [-> | (path & Hp & Hfx)].
  { split; [intros c r H | intros url H]; inversion H. }
  cbn zeta in Hfx.
  set (url := if checked_url path then path else "https://" +:+ path) in *.
  assert (Hurl : checked_url url = true
                 ∧ (url = path ∨ checked_url path = false ∧ url = "https://" +:+ path)).
  { subst url. destruct (checked_url path) eqn:Hc; [auto|]. split; [|auto].
    unfold checked_url. apply orb_true_iff. left. apply orb_true_iff. right.
    destruct path; reflexivity. }
  destruct Hurl as [Hok Hwhich].
  destruct Hfx as [(e & ->) | [(-> & Hno) | (r' & -> & Hyes)]].
  - split.
    + intros c r Hin. apply list_elem_of_singleton in Hin. injection Hin as -> ->.
      exists path, url. auto.
    + intros u Hin. apply list_elem_of_singleton in Hin. discriminate.
  - split.
    + intros c r Hin. apply list_elem_of_singleton in Hin. injection Hin as -> ->.
      exists path, url. auto.
    + intros u Hin Ho. apply list_elem_of_singleton in Hin. injection Hin as ->. congruence.
  - split.
    + intros c r Hin.
      apply elem_of_cons in Hin as [Hin|Hin]; [|apply list_elem_of_singleton in Hin];
        injection Hin as -> ->; exists path, url; auto.
    + intros u Hin _. exists r'.
      apply elem_of_cons in Hin as [Hin|Hin]; [|apply list_elem_of_singleton in Hin; discriminate].
      injection Hin as ->. known.
Qed.

(** X6. [callService] calls [hass.callService] exactly when the configured
    service name holds exactly one dot.  It then calls it once, with the
    text before the dot as domain and the text after it as service (either
    may be empty), and with the configured data, or no data when none is
    configured. *)
Theorem callService_splits_at_the_dot (env : Env) (actionConfig : ActionConfig) (w : World) :
  ∃ calls,
    effects (snd (callService env actionConfig w)) = effects w ++ calls
    ∧ (calls ≠ [] ↔ ∃ s, service actionConfig = Some s ∧ occurrences "." s = 1)
    ∧ (∀ c r, (c, r) ∈ calls →
         calls = [(c, r)]
         ∧ ∃ domain name,
             c = HassCallService domain name (default [] (service_data actionConfig))
             ∧ service actionConfig = Some (domain +:+ "." +:+ name)
             ∧ occurrences "." domain = 0 ∧ occurrences "." name = 0).
Proof.
  destruct (callService_calls env actionConfig w) as (lg & fx & nav & -> & _ & Hfx).
  exists fx. split; [apply effects_action_result|].
  assert (Hnone : fx = [] →
            (fx ≠ [] ↔ ∃ s, service actionConfig = Some s ∧ occurrences "." s = 1) →
            (fx ≠ [] ↔ ∃ s, service actionConfig = Some s ∧ occurrences "." s = 1)
            ∧ ∀ c r, (c, r) ∈ fx → fx = [(c, r)]
                ∧ ∃ domain name,
                    c = HassCallService domain name (default [] (service_data actionConfig))
                    ∧ service actionConfig = Some (domain +:+ "." +:+ name)
                    ∧ occurrences "." domain = 0 ∧ occurrences "." name = 0).
  { intros -> H. split; [exact H|]. intros c r Hin. inversion Hin. }
  pose proof (length_split "." (default "" (service actionConfig))) as Hlen.
  destruct (service actionConfig) as [s|] eqn:Hs.
  2:{ change (split "." (default "" None)) with [""] in Hfx.
      apply Hnone; [exact Hfx|]. split; [congruence|]. intros (s & ? & _). discriminate. }
  change (default "" (Some s)) with s in *.
  destruct (split "." s) as [|d [|n [|? ?]]] eqn:E.
  1,2,4: apply Hnone; [exact Hfx|]; split; [congruence|];
         intros (s' & [= <-] & Ho); simpl in Hlen; lia.
  destruct (split_two _ _ _ _ E) as (Hjoin & Hone & Hd & Hn).
  assert (Ht : truthy (Some s) = true).
  { cbn. apply negb_true_iff, String.eqb_neq. intros ->. discriminate. }
  rewrite Ht in Hfx. destruct Hfx as (r' & ->). split.
  - split; [intros _; eauto | intros _; discriminate].
  - intros c r Hin. apply list_elem_of_singleton in Hin. injection Hin as -> ->.
    split; [reflexivity|]. exists d, n. rewrite Hjoin at 1. auto.
Qed.

(** X7. [handleNavigation] dispatches [location-changed] only after
    [history.pushState] has returned: with no navigation path it makes no
    call, and when [pushState] throws the event is not dispatched.  When the
    event is dispatched, the card's own listener (if registered) runs and
    schedules the rebuild of the interaction system 250 ms later; otherwise
    no timer is added. *)
Theorem handleNavigation_signals_after_pushState (env : Env) (actionConfig : ActionConfig)
    (w : World) :
  let w' := snd (handleNavigation env actionConfig w) in
  ∃ calls,
    effects w' = effects w ++ calls
    ∧ (truthy (navigation_path actionConfig) = false → calls = [])
    ∧ (∀ r, (WindowDispatchLocationChanged, r) ∈ calls →
         ∃ path, navigation_path actionConfig = Some path
                 ∧ calls = [(HistoryPushState path, None); (WindowDispatchLocationChanged, r)])
    ∧ (∀ path e, (HistoryPushState path, Some e) ∈ calls →
         calls = [(HistoryPushState path, Some e)])
    ∧ ((WindowDispatchLocationChanged, None) ∈ calls → navigationAttached w = true →
       timers w' = timers w ++ [{| handle := nextHandle w; due := (now w + 250)%N;
                                   callback := RebuildCallback |}])
    ∧ ((WindowDispatchLocationChanged, None) ∉ calls ∨ navigationAttached w = false →
       timers w' = timers w).
Proof.
  intros w'. subst w'.
  destruct (handleNavigation_calls env actionConfig w) as (lg & fx & nav & -> & Hfx).
  exists fx. destruct (effects_action_result lg fx nav w) as [He Ht]. cbn [snd].
  rewrite Ht. split; [exact He|].
  destruct Hfx as [(-> & -> & Hp) | (path & Hp & Hne & Hfx)].
  { split; [reflexivity|]. split; [intros r H; inversion H|].
    split; [intros p e H; inversion H|].
    split; [intros H; inversion H | intros _; apply app_nil_r]. }
  assert (Ht' : truthy (navigation_path actionConfig) = true).
  { rewrite Hp. cbn. apply negb_true_iff, String.eqb_neq. exact Hne. }
  split; [intros H; congruence|].
  destruct Hfx as [(e & -> & ->) | [(e & -> & ->) | (-> & ->)]].
  - split; [intros r H; apply list_elem_of_singleton in H; discriminate|].
    split; [intros p e' H; apply list_elem_of_singleton in H; injection H as -> ->; reflexivity|].
    split; [intros H; apply list_elem_of_singleton in H; discriminate|].
    intros _. apply app_nil_r.
  - split.
    { intros r H. apply elem_of_cons in H as [H|H]; [discriminate|].
      apply list_elem_of_singleton in H. injection H as ->. eauto. }
    split.
    { intros p e' H. apply elem_of_cons in H as [H|H]; [discriminate|].
      apply list_elem_of_singleton in H. discriminate. }
    split.
    { intros H. apply elem_of_cons in H as [H|H]; [discriminate|].
      apply list_elem_of_singleton in H. discriminate. }
    intros _. apply app_nil_r.
  - split.
    { intros r H. apply elem_of_cons in H as [H|H]; [discriminate|].
      apply list_elem_of_singleton in H. injection H as ->. eauto. }
    split.
    { intros p e' H. apply elem_of_cons in H as [H|H]; [discriminate|].
      apply list_elem_of_singleton in H. discriminate. }
    split.
    { intros _ ->. reflexivity. }
    intros [H | ->]; [|apply app_nil_r].
    exfalso. apply H. known.
Qed.

(** X8. [handleAction] makes only the calls of the action type it was
    given: the call of one case never follows from another action (each case
    of the [switch] ends in [break]).  The more-info event is dispatched for
    the entity id passed in, which is then not empty, and [hass.callService]
    is called only when a [hass] object was passed. *)
Theorem handleAction_performs_only_the_named_effect (env : Env)
    (actionConfig : option ActionConfig) (w : World) :
  ∃ calls,
    effects (snd (handleAction env actionConfig w)) = effects w ++ calls
    ∧ ∀ c r, (c, r) ∈ calls →
        ∃ a, actionConfig = Some a ∧ action a = effect_of c
             ∧ match c with
               | ElementDispatchMoreInfo e => e = entityId env ∧ e ≠ ""
               | HassCallService _ _ _ => hass env = true
               | _ => True
               end.
Proof.
  destruct (handleAction_calls env actionConfig w) as (lg & fx & nav & -> & Hfx).
  exists fx. split; [apply effects_action_result | exact Hfx].
Qed.

(** ** The gesture machine, event by event *)

Section Release.

Variable env : Env.

(** What every listener visited keeps, the dispatch keeps. *)
Lemma dispatch_keeps (P : World → Prop) registered listener w :
  (∀ i g w, gestures w !! i = Some g → P w → P (deliver (listener i) w)) →
  P w → P (dispatch registered listener w).
Proof.
  intros Hl. unfold dispatch. generalize (seq 0 (length (gestures w))). intros l.
  revert w. induction l as [|i l IH]; intros w Hw; [exact Hw|].
  simpl. apply IH. destruct (gestures w !! i) as [g|] eqn:Hg; [|exact Hw].
  destruct (registered g); [eapply Hl; eassumption | exact Hw].
Qed.

Lemma down_fires_nothing downEv w :
  fired (deliver (pointerDownHandler env downEv) w) = fired w.
Proof. destruct w as [[] ? ? ? ? ? ? ? ? ? ? ? ? ? ? ? ? ?]. explore; reflexivity. Qed.

Lemma move_fires_nothing i moveEv w :
  fired (deliver (handlePointerMove i moveEv) w) = fired w.
Proof. destruct w as [[] ? ? ? ? ? ? ? ? ? ? ? ? ? ? ? ? ?]. explore; reflexivity. Qed.

Lemma cancel_fires_nothing i w :
  fired (deliver (once (with_cancelListener false) handlePointerCancel i) w) = fired w.
Proof. destruct w as [[] ? ? ? ? ? ? ? ? ? ? ? ? ? ? ? ? ?]. explore; reflexivity. Qed.

Lemma navigation_fires_nothing w : fired (deliver (navigationListener env) w) = fired w.
Proof. destruct w. reflexivity. Qed.

Lemma cleanup_fires_nothing w : fired (deliver (cleanup env) w) = fired w.
Proof. destruct w as [[] ? ? ? ? ? ? ? ? ? ? ? ? ? ? ? ? ?]. explore; reflexivity. Qed.

Lemma timer_fires_nothing h w : fired (fireTimer env h w) = fired w.
Proof.
  unfold fireTimer. destruct (List.find _ _) as [t|]; [|reflexivity].
  destruct (due t <=? now w)%N; [|reflexivity].
  destruct w as [[] ? ? ? ? ? ? ? ? ? ? ? ? ? ? ? ? ?].
  destruct (callback t); explore; reflexivity.
Qed.

(** One closure at most resolves a pointer-up: it leaves no active
    pointer for the closures called after it. *)
Lemma up_fires_once u w :
  ∃ l, fired (step env w (PointerUp u)) = fired w ++ l ∧ length l ≤ 1.
Proof.
  cbn [step].
  set (P := fun w' : World =>
              ∃ l, fired w' = fired w ++ l
                   ∧ (l = [] ∨ length l = 1 ∧ activePointerId (state w') = None)).
  assert (HP : P (dispatch upListener
                    (once (with_upListener false) (fun i => handlePointerUp env i u)) w)).
  { apply dispatch_keeps.
    2:{ exists []. split; [symmetry; apply app_nil_r | auto]. }
    intros i g w' Hg (l & Hl & Hcase). unfold P.
    destruct (decide (activePointerId (state w') = Some (pointerId (ev g)))) as [Ha|Ha].
    - destruct (up_owner env i u w' g Hg Ha) as (Hf & (_ & Hidle & _) & _).
      destruct Hcase as [-> | [_ Hnone]]; [|congruence].
      rewrite app_nil_r in Hl. rewrite Hf, Hl.
      eexists. split; [reflexivity|].
      repeat match goal with |- context [if ?c then _ else _] => destruct c end;
        auto.
    - rewrite (up_foreign env i u w' g Hg Ha).
      exists l. split; [destruct w'; exact Hl|].
      destruct Hcase as [-> | [? ?]]; [auto|]. right. destruct w'; auto. }
  destruct HP as (l & Hl & Hcase). exists l. split; [exact Hl|].
  destruct Hcase as [-> | [-> _]]; simpl; lia.
Qed.

End Release.

(** X9. Actions fire on release only, and one at most: a pointer-up event
    reaches at most one call site of [handleAction], whatever closures are
    listening, and no other event (pointer-down, movement, cancel, a timer,
    navigation, cleanup) reaches any.  In particular the hold action does not
    fire when its timer does. *)
Theorem actions_fire_on_release_only (env : Env) (w : World) (e : Event) :
  match e with
  | PointerUp _ => ∃ l, fired (step env w e) = fired w ++ l ∧ length l ≤ 1
  | _ => fired (step env w e) = fired w
  end.
Proof.
  destruct e; cbn [step].
  - destruct (downAttached w); [apply down_fires_nothing | reflexivity].
  - apply (dispatch_keeps (fun w' => fired w' = fired w)); [|reflexivity].
    intros i g w' _ H. rewrite move_fires_nothing. exact H.
  - apply up_fires_once.
  - apply (dispatch_keeps (fun w' => fired w' = fired w)); [|reflexivity].
    intros i g w' _ H. rewrite cancel_fires_nothing. exact H.
  - destruct (navigationAttached w); [apply navigation_fires_nothing | reflexivity].
  - apply timer_fires_nothing.
  - reflexivity.
  - reflexivity.
  - apply cleanup_fires_nothing.
Qed.

(** ** What holds between two events *)

Section Order.

Variable env : Env.

Abbreviation holds := (filter (fun t => is_hold t = true)).

Lemma holds_filter (Q : Timer → Prop) `{∀ t, Decision (Q t)} (ts : list Timer) :
  length (holds (filter Q ts)) ≤ length (holds ts).
Proof.
  induction ts as [|t ts IH]; [reflexivity|].
  rewrite (filter_cons Q). destruct (decide (Q t)).
  - rewrite !(filter_cons (fun t => is_hold t = true)).
    destruct (decide (is_hold t = true)); simpl; lia.
  - rewrite (filter_cons (fun t => is_hold t = true) t ts).
    destruct (decide (is_hold t = true)); simpl; lia.
Qed.

Lemma holds_none (ts : list Timer) :
  (∀ t, t ∈ ts → is_hold t = true → False) → holds ts = [].
Proof.
  induction ts as [|t ts IH]; intros H; [reflexivity|].
  rewrite filter_cons. destruct (decide (is_hold t = true)) as [Ht|Ht].
  - destruct (H t (list_elem_of_here _ _) Ht).
  - apply IH. intros t' Hin. apply H. apply list_elem_of_further, Hin.
Qed.

Lemma holds_cleared h (ts : list Timer) :
  (∀ t, t ∈ ts → is_hold t = true → handle t = h) →
  holds (filter (fun t => handle t ≠ h) ts) = [].
Proof.
  intros H. apply holds_none. intros t Hin Ht.
  apply list_elem_of_filter in Hin as [Hne Hin]. apply Hne, H; assumption.
Qed.

Lemma holds_snoc (ts : list Timer) t :
  holds (ts ++ [t]) = holds ts ++ (if is_hold t then [t] else []).
Proof.
  rewrite filter_app, filter_cons, filter_nil.
  destruct (decide (is_hold t = true)) as [Ht|Ht].
  - rewrite Ht. reflexivity.
  - apply not_true_is_false in Ht. rewrite Ht. reflexivity.
Qed.

End Order.

Ltac flags_ok O1 := first [reflexivity | exact O1 | cbn in *; congruence].

Ltac listeners_ok O2 :=
  first
    [ exact O2
    | apply Forall_app; split; [exact O2 | repeat constructor]
    | rewrite ?list_alter_alter_eq; apply Forall_alter; [exact O2|];
      let g := fresh "g" in let Hl := fresh "Hl" in let Hg := fresh "Hg" in
      intros g Hl Hg;
      first
        [ destruct g as [? ? ? [] [] []]; first [discriminate Hg | reflexivity]
        | exfalso;
          match goal with
          | Hn : _ !! _ = None |- _ =>
              rewrite !list_lookup_alter_eq, Hl in Hn; discriminate Hn
          end ] ].

Ltac hold_ok O3 H2 :=
  rewrite ?holds_snoc; cbn [is_hold callback]; rewrite ?app_nil_r;
  repeat (eapply Nat.le_trans; [apply holds_filter|]);
  first
    [ exact O3
    | simpl; lia
    | rewrite holds_cleared;
      [simpl; lia
      | let t := fresh "t" in let Hin := fresh "Hin" in let Ht := fresh "Ht" in
        intros t Hin Ht; in_list Hin; specialize (H2 t Hin Ht); cbn in H2; congruence]
    | rewrite holds_none;
      [simpl; lia
      | let t := fresh "t" in let Hin := fresh "Hin" in let Ht := fresh "Ht" in
        intros t Hin Ht; in_list Hin; specialize (H2 t Hin Ht); cbn in H2; congruence] ].

Ltac handle_ok O4 :=
  let h := fresh "h" in let E := fresh "E" in
  intros h E;
  first [ discriminate E
        | injection E as <-; lia
        | specialize (O4 _ E); lia ].

Ltac open_orderly :=
  let O1 := fresh "O1" in let O2 := fresh "O2" in let O3 := fresh "O3" in
  let O4 := fresh "O4" in
  intros [O1 O2 O3 O4]; unfold hold_timers in O3; cbn in O1, O2, O4; cbn [timers] in O3.

Ltac orderly_solve O1 O2 O3 O4 H2 :=
  constructor; unfold hold_timers; fold_projections;
  [flags_ok O1 | listeners_ok O2 | hold_ok O3 H2 | handle_ok O4].

Section Orderliness.

Variable env : Env.

Lemma Orderly_setup p : Orderly (setupInteractions env p).
Proof.
  unfold setupInteractions.
  repeat match goal with |- context [if ?c then _ else _] => destruct c end.
  all: constructor; cbn; first [reflexivity | lia | discriminate | constructor].
Qed.

Lemma Orderly_up i upEv w :
  Inv w → Orderly w →
  Orderly (deliver (once (with_upListener false) (fun i => handlePointerUp env i upEv) i) w).
Proof.
  open_inv w. open_orderly. explore. all: orderly_solve O1 O2 O3 O4 H2.
Qed.

Lemma Orderly_move i moveEv w :
  Inv w → Orderly w → Orderly (deliver (handlePointerMove i moveEv) w).
Proof.
  open_inv w. open_orderly. explore. all: orderly_solve O1 O2 O3 O4 H2.
Qed.

Lemma Orderly_cancel i w :
  Inv w → Orderly w →
  Orderly (deliver (once (with_cancelListener false) handlePointerCancel i) w).
Proof.
  open_inv w. open_orderly. explore. all: orderly_solve O1 O2 O3 O4 H2.
Qed.

Lemma Orderly_down downEv w :
  Inv w → Orderly w → Orderly (deliver (pointerDownHandler env downEv) w).
Proof.
  open_inv w. open_orderly. explore. all: orderly_solve O1 O2 O3 O4 H2.
Qed.

Lemma Orderly_navigation w :
  Inv w → Orderly w → Orderly (deliver (navigationListener env) w).
Proof.
  open_inv w. open_orderly. explore. all: orderly_solve O1 O2 O3 O4 H2.
Qed.

Lemma Orderly_cleanup w : Inv w → Orderly w → Orderly (deliver (cleanup env) w).
Proof.
  open_inv w. open_orderly. explore. all: orderly_solve O1 O2 O3 O4 H2.
Qed.

Lemma Orderly_fire h w : Inv w → Orderly w → Orderly (fireTimer env h w).
Proof.
  open_inv w. open_orderly. unfold fireTimer. cbn [timers now].
  destruct (List.find _ ts) as [t|] eqn:Hfind; [|constructor; assumption].
  apply find_handle in Hfind as [Hin Hh].
  destruct (due t <=? clock)%N; [|constructor; assumption].
  destruct (callback t) eqn:Hcb.
  all: explore.
  all: orderly_solve O1 O2 O3 O4 H2.
Qed.

Lemma Orderly_step w e : Inv w → Orderly w → Orderly (step env w e).
Proof.
  intros HI HO.
  assert (Hd : ∀ registered listener,
             (∀ i w, Inv w → Inv (deliver (listener i) w)) →
             (∀ i w, Inv w → Orderly w → Orderly (deliver (listener i) w)) →
             Orderly (dispatch registered listener w)).
  { intros registered listener Hi Ho.
    apply (dispatch_keeps (fun w => Inv w ∧ Orderly w)); [|auto].
    intros i g w' _ [? ?]. auto. }
  destruct e; simpl.
  - destruct (downAttached w); [apply Orderly_down|]; assumption.
  - apply Hd; intros; [apply Inv_move | apply Orderly_move]; assumption.
  - apply Hd; intros; [apply Inv_up | apply Orderly_up]; assumption.
  - apply Hd; intros; [apply Inv_cancel | apply Orderly_cancel]; assumption.
  - destruct (navigationAttached w); [apply Orderly_navigation|]; assumption.
  - apply Orderly_fire; assumption.
  - destruct HO; constructor; assumption.
  - destruct HO; constructor; assumption.
  - apply Orderly_cleanup; assumption.
Qed.

Lemma Orderly_reachable w : reachable env w → Orderly w.
Proof.
  induction 1 as [p|w e Hw IH]; [apply Orderly_setup|].
  apply Orderly_step; [apply (Inv_reachable env); exact Hw | exact IH].
Qed.

End Orderliness.

(** ** Listeners and timers between events *)

Section Listeners.

Variable env : Env.

(** A dispatch leaves every closure as its listener leaves it, or as it
    was when the listener was not registered. *)
Lemma dispatch_visits (R : Gesture → Prop) registered listener w :
  (∀ i g w, gestures w !! i = Some g → registered g = true →
     ∃ f, gestures (deliver (listener i) w) = alter f i (gestures w) ∧ R (f g)) →
  (∀ g, g ∈ gestures w → registered g = false → R g) →
  Forall R (gestures (dispatch registered listener w)).
Proof.
  intros Hvisit Hrest. unfold dispatch.
  set (visit := fun w i => match gestures w !! i with
                           | Some g => if registered g then deliver (listener i) w else w
                           | None => w
                           end).
  assert (Hgen : ∀ n k w,
             k + n = length (gestures w) →
             (∀ j g, j < k → gestures w !! j = Some g → R g) →
             (∀ j g, k ≤ j → gestures w !! j = Some g → registered g = false → R g) →
             Forall R (gestures (fold_left visit (seq k n) w))).
  { induction n as [|n IH]; intros k w0 Hlen Hdone Htodo.
    - simpl. apply Forall_lookup. intros j g Hj. apply (Hdone j g); [|exact Hj].
      apply lookup_lt_Some in Hj. lia.
    - simpl. destruct (lookup_lt_is_Some_2 (gestures w0) k) as [g Hg]; [lia|].
      apply IH.
      + unfold visit. rewrite Hg. destruct (registered g) eqn:Hr; [|lia].
        destruct (Hvisit k g w0 Hg Hr) as (f & -> & _). rewrite length_alter. lia.
      + intros j g' Hj. unfold visit. rewrite Hg. destruct (registered g) eqn:Hr.
        * destruct (Hvisit k g w0 Hg Hr) as (f & -> & HR).
          destruct (decide (j = k)) as [->|Hne].
          -- rewrite list_lookup_alter_eq, Hg. intros [= <-]. exact HR.
          -- rewrite list_lookup_alter_ne by congruence. apply Hdone. lia.
        * destruct (decide (j = k)) as [->|Hne].
          -- rewrite Hg. intros [= <-]. apply (Htodo k g); [lia | exact Hg | exact Hr].
          -- apply Hdone. lia.
      + intros j g' Hj. unfold visit. rewrite Hg. destruct (registered g) eqn:Hr.
        * destruct (Hvisit k g w0 Hg Hr) as (f & -> & HR).
          rewrite list_lookup_alter_ne by lia. apply Htodo. lia.
        * apply Htodo. lia. }
  apply Hgen.
  - reflexivity.
  - intros; lia.
  - intros j g _ Hj. apply Hrest. apply (list_elem_of_lookup_2 _ j). exact Hj.
Qed.

Lemma up_visit i u w g :
  gestures w !! i = Some g →
  ∃ f, gestures (deliver (once (with_upListener false)
                            (fun i => handlePointerUp env i u) i) w)
       = alter f i (gestures w)
       ∧ moveListener (f g) = false ∧ upListener (f g) = false.
Proof.
  intros Hg.
  destruct (decide (activePointerId (state w) = Some (pointerId (ev g)))) as [Ha|Ha].
  - destruct (up_owner env i u w g Hg Ha) as (_ & _ & _ & _ & ->).
    eexists. split; [reflexivity|]. split; reflexivity.
  - rewrite (up_foreign env i u w g Hg Ha). clear Hg Ha. open_world w.
    cbn [gestures on_gestures]. rewrite list_alter_alter_eq. eexists. split; [reflexivity|]. split; reflexivity.
Qed.

Lemma cancel_visit i w g :
  gestures w !! i = Some g →
  gestures (deliver (once (with_cancelListener false) handlePointerCancel i) w)
  = alter (fun g => with_cancelListener false
                      (with_upListener false (with_moveListener false g))) i (gestures w).
Proof.
  destruct w as [[sid ht htr hi ap lat pha] ref ripples gs down nav_on rchildren bchildren
                 connected ts clock nref nelem nh lg0 fx0 fd uc].
  cbn [gestures]. intros Hg. unfold_handlers.
  rewrite !list_lookup_alter_eq, Hg. cbn [fmap option_fmap option_map].
  assert (Hgs : ∀ l : list Gesture,
             alter (with_cancelListener false) i
               (alter (with_upListener false) i
                  (alter (with_moveListener false) i
                     (alter (with_cancelListener false) i l)))
             = alter (fun g => with_cancelListener false
                                 (with_upListener false (with_moveListener false g))) i l).
  { intros l. rewrite !list_alter_alter_eq. apply list_alter_ext; [|reflexivity].
    intros [] _. reflexivity. }
  explore. all: fold_projections; rewrite Hgs; reflexivity.
Qed.

End Listeners.

(** X10. Between two events at most one hold timer is pending, and it is
    the one [state.holdTimer] refers to: a pointer-down clears the timer of
    the gesture before it starts its own. *)
Theorem at_most_one_hold_timer (env : Env) (w : World) :
  reachable env w →
  length (hold_timers w) ≤ 1
  ∧ ∀ t, t ∈ hold_timers w → holdTimer (state w) = Some (handle t).
Proof.
  intros Hw. split.
  - apply (Orderly_reachable env), Hw.
  - intros t Ht. apply list_elem_of_filter in Ht as [Hh Hin].
    apply (Inv_reachable env) in Hw. apply (inv_hold w Hw t Hin Hh).
Qed.

Lemma at_most_one_hold_timer_witness :
  length (hold_timers Sample.pressed) ≤ 1
  ∧ ∀ t, t ∈ hold_timers Sample.pressed → holdTimer (state Sample.pressed) = Some (handle t).
Proof.
  apply (at_most_one_hold_timer Sample.env).
  apply reachable_step. apply reachable_setup.
Defined.

(** X11. Between two events the flags [holdTriggered] and
    [pendingHoldAction] have the same value: every handler that sets one
    sets the other. *)
Theorem hold_flags_agree (env : Env) (w : World) :
  reachable env w → holdTriggered (state w) = pendingHoldAction (state w).
Proof. intros Hw. apply (Orderly_reachable env), Hw. Qed.

Lemma hold_flags_agree_witness :
  holdTriggered (state Sample.held) = pendingHoldAction (state Sample.held).
Proof.
  apply (hold_flags_agree Sample.env).
  unfold Sample.held. apply reachable_run. apply reachable_setup.
Defined.

(** X12. A pointer-up ends all movement tracking: after it no closure of
    the instance has its move or its up listener, whichever pointer went up
    and whichever closure owned the state.  (A closure that did not own the
    state keeps its cancel listener.) *)
Theorem pointer_up_ends_tracking (env : Env) (w : World) (u : PointerEvent) :
  reachable env w →
  Forall (fun g => moveListener g = false ∧ upListener g = false)
    (gestures (step env w (PointerUp u))).
Proof.
  intros Hw. cbn [step]. apply dispatch_visits.
  - intros i g w' Hg _. destruct (up_visit env i u w' g Hg) as (f & Hf & Hm & Hu). eauto.
  - intros g Hin Hup. split; [|exact Hup].
    pose proof (orderly_listeners w (Orderly_reachable env w Hw)) as Ho.
    rewrite Forall_forall in Ho. specialize (Ho g Hin). unfold unwinding in Ho.
    rewrite Hup in Ho. destruct (moveListener g); [discriminate | reflexivity].
Qed.

Lemma pointer_up_ends_tracking_witness :
  Forall (fun g => moveListener g = false ∧ upListener g = false)
    (gestures (step Sample.env Sample.taken_over (PointerUp Sample.finger))).
Proof.
  apply pointer_up_ends_tracking.
  unfold Sample.taken_over, Sample.held. apply reachable_step, reachable_run, reachable_setup.
Defined.

(** X13. A pointer-cancel unregisters every window listener of the
    instance: after it no closure has a move, an up or a cancel listener. *)
Theorem pointer_cancel_unregisters_all (env : Env) (w : World) (c : PointerEvent) :
  reachable env w →
  Forall (fun g => moveListener g = false ∧ upListener g = false ∧ cancelListener g = false)
    (gestures (step env w (PointerCancel c))).
Proof.
  intros Hw. cbn [step]. apply dispatch_visits.
  - intros i g w' Hg _. eexists. split; [apply (cancel_visit i w' g Hg)|]. auto.
  - intros g Hin Hc.
    pose proof (orderly_listeners w (Orderly_reachable env w Hw)) as Ho.
    rewrite Forall_forall in Ho. specialize (Ho g Hin). unfold unwinding in Ho.
    rewrite Hc in Ho. destruct (moveListener g), (upListener g); try discriminate; auto.
Qed.

Lemma pointer_cancel_unregisters_all_witness :
  Forall (fun g => moveListener g = false ∧ upListener g = false ∧ cancelListener g = false)
    (gestures (step Sample.env Sample.taken_over (PointerCancel Sample.finger))).
Proof.
  apply pointer_cancel_unregisters_all.
  unfold Sample.taken_over, Sample.held. apply reachable_step, reachable_run, reachable_setup.
Defined.

(** ** Cleanup *)

Ltac open_retired :=
  let Hd := fresh "Hdown" in let Hn := fresh "Hnav" in let Hp := fresh "Hpointer" in
  intros [Hd Hn Hp Htimers]; cbn in Hd, Hn, Hp; cbn [timers] in Htimers; subst.

(** The guard of a move or up listener cannot pass with no active pointer. *)
Ltac absurd_guard :=
  match goal with
  | H : context [bool_decide (None = Some ?x)] |- _ =>
      rewrite (bool_decide_eq_false_2 (None = Some x)) in H by discriminate;
      discriminate H
  end.

Ltac retired_timers Ht :=
  let t := fresh "t" in let Hin := fresh "Hin" in
  intros t Hin; in_list Hin;
  first [ apply Ht in Hin; exact Hin | split; reflexivity ].

Ltac retired_solve Ht :=
  first
    [ absurd_guard
    | split; [constructor; fold_projections;
              [reflexivity | reflexivity | reflexivity | retired_timers Ht]
             | split; reflexivity] ].

Section Retirement.

Variable env : Env.

Lemma retired_move i moveEv w :
  retired w → still w (deliver (handlePointerMove i moveEv) w).
Proof.
  unfold still.
  destruct w as [[sid ht htr hi ap lat pha] ref ripples gs down nav_on rchildren bchildren
                 connected ts clock nref nelem nh lg0 fx0 fd uc].
  open_retired. explore. all: retired_solve Htimers.
Qed.

Lemma retired_up i upEv w :
  retired w →
  still w (deliver (once (with_upListener false) (fun i => handlePointerUp env i upEv) i) w).
Proof.
  unfold still.
  destruct w as [[sid ht htr hi ap lat pha] ref ripples gs down nav_on rchildren bchildren
                 connected ts clock nref nelem nh lg0 fx0 fd uc].
  open_retired. explore. all: retired_solve Htimers.
Qed.

Lemma retired_cancel i w :
  retired w →
  still w (deliver (once (with_cancelListener false) handlePointerCancel i) w).
Proof.
  unfold still.
  destruct w as [[sid ht htr hi ap lat pha] ref ripples gs down nav_on rchildren bchildren
                 connected ts clock nref nelem nh lg0 fx0 fd uc].
  open_retired. explore. all: retired_solve Htimers.
Qed.

Lemma retired_cleanup w : retired w → still w (deliver (cleanup env) w).
Proof.
  unfold still.
  destruct w as [[sid ht htr hi ap lat pha] ref ripples gs down nav_on rchildren bchildren
                 connected ts clock nref nelem nh lg0 fx0 fd uc].
  open_retired. explore. all: retired_solve Htimers.
Qed.

Lemma retired_fire h w : retired w → still w (fireTimer env h w).
Proof.
  unfold still.
  destruct w as [[sid ht htr hi ap lat pha] ref ripples gs down nav_on rchildren bchildren
                 connected ts clock nref nelem nh lg0 fx0 fd uc].
  open_retired. unfold fireTimer. cbn [timers now].
  destruct (List.find _ ts) as [t|] eqn:Hfind.
  2:{ split; [constructor; auto | auto]. }
  apply find_handle in Hfind as [Hin Hh].
  destruct (due t <=? clock)%N.
  2:{ split; [constructor; auto | auto]. }
  destruct (Htimers t Hin) as [Hhold Hrebuild]. unfold is_hold, is_rebuild in Hhold, Hrebuild.
  destruct (callback t) eqn:Hcb; try discriminate.
  all: explore.
  all: retired_solve Htimers.
Qed.

Lemma still_trans w0 w1 w2 : still w0 w1 → still w1 w2 → still w0 w2.
Proof. intros (_ & ? & ?) (? & ? & ?). split; [assumption|]. split; congruence. Qed.

Lemma still_refl w : retired w → still w w.
Proof. intros H. split; [exact H|]. split; reflexivity. Qed.

Lemma retired_dispatch registered listener w :
  (∀ i w, retired w → still w (deliver (listener i) w)) →
  retired w → still w (dispatch registered listener w).
Proof.
  intros Hl Hw. apply (dispatch_keeps (still w)); [|apply still_refl, Hw].
  intros i g w' _ Hs. eapply still_trans; [exact Hs|]. apply Hl. apply Hs.
Qed.

Lemma retired_step w e : retired w → still w (step env w e).
Proof.
  intros Hw. destruct e; cbn [step].
  - rewrite (retired_down w Hw). apply still_refl, Hw.
  - apply retired_dispatch; [intros; apply retired_move; assumption | exact Hw].
  - apply retired_dispatch; [intros; apply retired_up; assumption | exact Hw].
  - apply retired_dispatch; [intros; apply retired_cancel; assumption | exact Hw].
  - rewrite (retired_navigation w Hw). apply still_refl, Hw.
  - apply retired_fire, Hw.
  - split; [destruct Hw; constructor; assumption | split; reflexivity].
  - split; [destruct Hw; constructor; assumption | split; reflexivity].
  - apply retired_cleanup, Hw.
Qed.

Lemma retired_run es : ∀ w, retired w → still w (run env w es).
Proof.
  induction es as [|e es IH]; intros w Hw; [apply still_refl, Hw|].
  cbn [run fold_left]. eapply still_trans; [apply retired_step, Hw|].
  apply IH. apply retired_step, Hw.
Qed.

(** What the cleanup function leaves, and that it retires the instance
    unless a rebuild is pending. *)
Lemma cleanup_retires w :
  Inv w →
  let w' := step env w Cleanup in
  fired w' = fired w ∧ effects w' = effects w
  ∧ state w' = createFreshState env
  ∧ hold_timers w' = []
  ∧ (∀ t, t ∈ timers w' → t ∈ timers w)
  ∧ rippleChildren w' = [] ∧ activeRipples w' = []
  ∧ gestures w' = gestures w
  ∧ (∀ i, holdIndicator (state w) = Some i → i ∉ bodyChildren w')
  ∧ downAttached w' = false ∧ navigationAttached w' = false
  ∧ now w' = now w ∧ isConnected w' = isConnected w.
Proof.
  open_inv w. cbn [step]. explore.
  all: unfold hold_timers; fold_projections.
  all: do 3 (split; [reflexivity|]).
  all: split; [apply holds_none; intros t Hin Hh; in_list Hin;
               specialize (H2 t Hin Hh); cbn in H2; congruence|].
  all: split; [intros t Hin; in_list Hin; exact Hin|].
  all: do 3 (split; [reflexivity|]).
  all: split; [|repeat split; reflexivity].
  all: intros j Hj; try discriminate Hj; injection Hj as <-.
  all: first [ intros Hin; apply list_elem_of_filter in Hin as [Hne _]; congruence
             | apply bool_decide_eq_false in Heqb; exact Heqb ].
Qed.

Lemma cleanup_retired w :
  Inv w → (∀ t, t ∈ timers w → is_rebuild t = false) → retired (step env w Cleanup).
Proof.
  intros HI Hnr.
  destruct (cleanup_retires w HI)
    as (_ & _ & Hs & Hh & Hsub & _ & _ & _ & _ & Hd & Hn & _).
  constructor; [exact Hd | exact Hn | rewrite Hs; reflexivity |].
  intros t Hin. split; [|apply Hnr, Hsub, Hin].
  destruct (is_hold t) eqn:Ht; [|reflexivity].
  assert (Hmem : t ∈ hold_timers (step env w Cleanup))
    by (apply list_elem_of_filter; auto).
  rewrite Hh in Hmem. inversion Hmem.
Qed.

Lemma fire_keeps_listeners h w :
  navigationAttached (fireTimer env h w) = navigationAttached w.
Proof.
  unfold fireTimer. destruct (List.find _ _) as [t|]; [|reflexivity].
  destruct (due t <=? now w)%N; [|reflexivity].
  destruct w as [[] ? ? ? ? ? ? ? ? ? ? ? ? ? ? ? ? ?].
  destruct (callback t); explore; reflexivity.
Qed.

Lemma find_filter h (Q : Timer → Prop) `{∀ t, Decision (Q t)} (ts : list Timer) t :
  List.find (fun t => Nat.eqb (handle t) h) ts = Some t → Q t →
  List.find (fun t => Nat.eqb (handle t) h) (filter Q ts) = Some t.
Proof.
  induction ts as [|x ts IH]; [discriminate|]. simpl. intros Hf HQ.
  destruct (handle x =? h) eqn:E.
  - injection Hf as ->. rewrite filter_cons. destruct (decide (Q t)); [|contradiction].
    simpl. rewrite E. reflexivity.
  - rewrite filter_cons. destruct (decide (Q x)); [|auto]. simpl. rewrite E. auto.
Qed.

End Retirement.

(** X14. What the cleanup function leaves behind: the state is a fresh
    object with no hold timer pending, the hold indicator is out of the
    document, the ripple container and the list of ripples are empty, the
    pointer-down and the navigation listener are removed, and no action
    fires.  The window listeners of gesture closures are not removed. *)
Theorem cleanup_releases (env : Env) (w : World) :
  interactive env = true → reachable env w →
  let w' := step env w Cleanup in
  state w' = createFreshState env
  ∧ hold_timers w' = []
  ∧ (∀ i, holdIndicator (state w) = Some i → i ∉ bodyChildren w')
  ∧ rippleChildren w' = [] ∧ activeRipples w' = []
  ∧ downAttached w' = false ∧ navigationAttached w' = false
  ∧ fired w' = fired w ∧ effects w' = effects w
  ∧ gestures w' = gestures w.
Proof.
  intros _ Hw. apply (Inv_reachable env) in Hw.
  destruct (cleanup_retires env w Hw)
    as (Hf & He & Hs & Hh & _ & Hr & Ha & Hg & Hi & Hd & Hn & _).
  cbv zeta. auto 12.
Qed.

Lemma cleanup_releases_witness :
  state (step Sample.env Sample.held Cleanup) = createFreshState Sample.env
  ∧ hold_timers (step Sample.env Sample.held Cleanup) = []
  ∧ gestures (step Sample.env Sample.held Cleanup) = [Sample.finger_closure].
Proof.
  assert (Hr : reachable Sample.env Sample.held)
    by (unfold Sample.held; apply reachable_run, reachable_setup).
  destruct (cleanup_releases Sample.env Sample.held eq_refl Hr)
    as (Hs & Hh & _ & _ & _ & _ & _ & _ & _ & Hg).
  split; [exact Hs|]. split; [exact Hh|]. rewrite Hg. reflexivity.
Defined.

(** X15. Cleanup is final when no rebuild is pending: whatever events
    follow, no action fires, no call leaves the module, and neither the
    pointer-down nor the navigation listener is registered again. *)
Theorem cleanup_is_final (env : Env) (w : World) (es : list Event) :
  interactive env = true → reachable env w →
  (∀ t, t ∈ timers w → is_rebuild t = false) →
  let w' := run env (step env w Cleanup) es in
  fired w' = fired w ∧ effects w' = effects w
  ∧ downAttached w' = false ∧ navigationAttached w' = false
  ∧ activePointerId (state w') = None.
Proof.
  intros _ Hw Hnr. apply (Inv_reachable env) in Hw.
  pose proof (cleanup_retired env w Hw Hnr) as Hret.
  destruct (cleanup_retires env w Hw) as (Hf & He & _).
  destruct (retired_run env es _ Hret) as ([Hd Hn Hp _] & Hf' & He').
  cbv zeta. rewrite Hf', He'. auto 10.
Qed.

Lemma cleanup_is_final_witness :
  fired (run Sample.env (step Sample.env Sample.held Cleanup)
           [PointerUp Sample.finger; PointerDown Sample.thumb; LocationChanged])
  = fired Sample.held
  ∧ downAttached (run Sample.env (step Sample.env Sample.held Cleanup)
                    [PointerUp Sample.finger; PointerDown Sample.thumb; LocationChanged])
    = false.
Proof.
  assert (Hr : reachable Sample.env Sample.held)
    by (unfold Sample.held; apply reachable_run, reachable_setup).
  assert (Hnr : ∀ t, t ∈ timers Sample.held → is_rebuild t = false).
  { intros t Hin. vm_compute in Hin. inversion Hin. }
  destruct (cleanup_is_final Sample.env Sample.held
              [PointerUp Sample.finger; PointerDown Sample.thumb; LocationChanged]
              eq_refl Hr Hnr) as (Hf & _ & Hd & _).
  split; [exact Hf | exact Hd].
Defined.

(** X16. The cleanup function does not cancel a rebuild that a navigation
    has scheduled: when the element is still connected 250 ms after the
    navigation, the rebuild attaches the pointer-down handler again, after
    the cleanup.  (The navigation listener stays removed.) *)
Theorem rebuild_outlives_cleanup (env : Env) (w : World) :
  reachable env w → navigationAttached w = true → isConnected w = true →
  let w' := run env w [LocationChanged; Cleanup; Elapse 250; TimerFires (nextHandle w)] in
  downAttached w' = true ∧ navigationAttached w' = false ∧ fired w' = fired w.
Proof.
  intros Hw Hnav Hconn.
  destruct (navigation_schedules env w Hnav) as (Ht1 & Hs1 & _ & Hf1 & _).
  set (w1 := step env w LocationChanged) in *.
  assert (Hw1 : reachable env w1) by (apply reachable_step, Hw).
  pose proof (Inv_reachable env w1 Hw1) as HI1.
  destruct (cleanup_retires env w1 HI1)
    as (Hf2 & _ & _ & _ & _ & _ & _ & _ & _ & _ & Hn2 & Hnow2 & Hc2).
  set (w2 := step env w1 Cleanup) in *.
  assert (Hw2 : reachable env w2) by (apply reachable_step, Hw1).
  set (rb := {| handle := nextHandle w; due := (now w + 250)%N; callback := RebuildCallback |}).
  assert (Hfind1 : List.find (fun t => Nat.eqb (handle t) (nextHandle w)) (timers w1) = Some rb).
  { rewrite Ht1. apply find_appended; [|reflexivity].
    apply (inv_handles w (Inv_reachable env w Hw)). }
  assert (Hfind2 : List.find (fun t => Nat.eqb (handle t) (nextHandle w)) (timers w2) = Some rb).
  { pose proof (orderly_handle w (Orderly_reachable env w Hw)) as Hh.
    rewrite <- Hs1 in Hh. clearbody w1. clear - Hfind1 Hh.
    subst w2. revert Hfind1 Hh.
    destruct w1 as [[sid ht htr hi ap lat pha] ref ripples gs down nav_on rchildren bchildren
                    connected ts clock nref nelem nh lg0 fx0 fd uc].
    cbn [timers state holdTimer]. intros Hfind1 Hh. cbn [step]. explore.
    all: fold_projections; try exact Hfind1.
    all: apply find_filter; [exact Hfind1|]; cbn [handle rb];
      specialize (Hh _ eq_refl); lia. }
  set (w3 := step env w2 (Elapse 250)).
  assert (Hw3 : reachable env w3) by (apply reachable_step, Hw2).
  assert (Hnow1 : now w1 = now w).
  { subst w1. cbn [step]. rewrite Hnav. destruct w; reflexivity. }
  assert (Hc1 : isConnected w1 = true).
  { subst w1. cbn [step]. rewrite Hnav. destruct w; exact Hconn. }
  destruct (rebuild env w3 (nextHandle w) rb (Inv_reachable env w3 Hw3))
    as (_ & _ & _ & _ & _ & _ & _ & Hf4 & _ & _ & Hd4).
  { subst w3. destruct w2; exact Hfind2. }
  { reflexivity. }
  { subst w3. cbn [step]. replace (now (set_now (now w2 + 250) w2)) with (now w2 + 250)%N
      by (destruct w2; reflexivity).
    cbn [due rb]. rewrite Hnow2, Hnow1. lia. }
  { subst w3. cbn [step]. replace (isConnected (set_now (now w2 + 250) w2)) with (isConnected w2)
      by (destruct w2; reflexivity).
    rewrite Hc2. exact Hc1. }
  change (run env w [LocationChanged; Cleanup; Elapse 250; TimerFires (nextHandle w)])
    with (step env w3 (TimerFires (nextHandle w))).
  cbv zeta. split; [exact Hd4|]. split.
  - cbn [step]. rewrite fire_keeps_listeners. subst w3. cbn [step].
    replace (navigationAttached (set_now (now w2 + 250) w2)) with (navigationAttached w2)
      by (destruct w2; reflexivity).
    exact Hn2.
  - rewrite Hf4. subst w3. cbn [step].
    replace (fired (set_now (now w2 + 250) w2)) with (fired w2) by (destruct w2; reflexivity).
    rewrite Hf2, Hf1. reflexivity.
Qed.

Lemma rebuild_outlives_cleanup_witness :
  downAttached (run Sample.env Sample.pressed
                  [LocationChanged; Cleanup; Elapse 250; TimerFires (nextHandle Sample.pressed)])
  = true.
Proof.
  apply (rebuild_outlives_cleanup Sample.env Sample.pressed).
  - unfold Sample.pressed. apply reachable_step, reachable_setup.
  - reflexivity.
  - reflexivity.
Defined.

(** ** Setup without actions *)

Section Bare.

Variable env : Env.

Lemma bare_step w e :
  bare w → is_cleanup e = false →
  ∃ t c, step env w e = set_isConnected c (set_now t w).
Proof.
  intros (Hd & Hn & Hg & Ht) He.
  assert (Hsame : ∃ t c, w = set_isConnected c (set_now t w)).
  { exists (now w), (isConnected w). destruct w; reflexivity. }
  destruct e; try discriminate He; cbn [step].
  - rewrite Hd. exact Hsame.
  - unfold dispatch. rewrite Hg. exact Hsame.
  - unfold dispatch. rewrite Hg. exact Hsame.
  - unfold dispatch. rewrite Hg. exact Hsame.
  - rewrite Hn. exact Hsame.
  - unfold fireTimer. rewrite Ht. exact Hsame.
  - exists (now w + dt)%N, (isConnected w). destruct w; reflexivity.
  - exists (now w), connected. destruct w; reflexivity.
Qed.

Lemma bare_run es :
  ∀ w, bare w → forallb (fun e => negb (is_cleanup e)) es = true →
       ∃ t c, run env w es = set_isConnected c (set_now t w).
Proof.
  induction es as [|e es IH]; intros w Hw Hes.
  - exists (now w), (isConnected w). destruct w; reflexivity.
  - cbn [forallb] in Hes. apply andb_true_iff in Hes as [He Hes].
    apply negb_true_iff in He.
    destruct (bare_step w e Hw He) as (t1 & c1 & Hstep).
    cbn [run fold_left]. rewrite Hstep.
    destruct (IH (set_isConnected c1 (set_now t1 w))) as (t & c & Hrun).
    + destruct Hw as (? & ? & ? & ?). destruct w; repeat split; assumption.
    + exact Hes.
    + exists t, c. unfold run in Hrun. rewrite Hrun. destruct w; reflexivity.
Qed.

Lemma bare_setup p : interactive env = false → bare (setupInteractions env p).
Proof.
  unfold interactive, setupInteractions. intros H.
  destruct (configured (tap_action (config env))),
           (configured (hold_action (config env))), (hasRippleContainer env);
    try discriminate H; repeat split.
Qed.

End Bare.

(** X17. With no action configured, or with no ripple container in the
    element, [setupInteractions] registers nothing: whatever pointer events,
    navigation events and timers follow, only the clock and the connected
    flag of the page differ from the world it returned in: after the setup
    no ripple is drawn, no timer started, nothing logged, no action fired. *)
Theorem setup_without_actions_is_inert (env : Env) (p : Page) (es : list Event) :
  interactive env = false →
  forallb (fun e => negb (is_cleanup e)) es = true →
  bare (setupInteractions env p)
  ∧ ∃ t c, run env (setupInteractions env p) es
           = set_isConnected c (set_now t (setupInteractions env p)).
Proof.
  intros Hi Hes. split; [apply bare_setup, Hi|].
  apply bare_run; [apply bare_setup, Hi | exact Hes].
Qed.

Lemma setup_without_actions_is_inert_witness :
  ∃ t c, run Plain.env (setupInteractions Plain.env Sample.page)
           [PointerDown Sample.finger; Elapse 500; TimerFires 0; PointerUp Sample.finger;
            LocationChanged]
         = set_isConnected c (set_now t (setupInteractions Plain.env Sample.page)).
Proof.
  apply (setup_without_actions_is_inert Plain.env Sample.page
           [PointerDown Sample.finger; Elapse 500; TimerFires 0; PointerUp Sample.finger;
            LocationChanged]); reflexivity.
Defined.

(** ** Ripples and the hold indicator leave the document *)

Section Feedback.

Variable env : Env.

Lemma find_app_l h (l l' : list Timer) t :
  List.find (fun t => Nat.eqb (handle t) h) l = Some t →
  List.find (fun t => Nat.eqb (handle t) h) (l ++ l') = Some t.
Proof.
  induction l as [|x l IH]; [discriminate|]. simpl.
  destruct (handle x =? h); [auto | exact IH].
Qed.

Ltac find_timer H1 :=
  first
    [ apply find_appended;
      [ let t := fresh "t" in let Hin := fresh "Hin" in
        intros t Hin; in_list Hin; try (apply H1 in Hin); cbn; lia
      | reflexivity ]
    | apply find_app_l; find_timer H1 ].

(** The closure that owns the state schedules the release of its ripple
    and the removal of the hold indicator. *)
Lemma up_owner_schedules i u w g :
  Inv w → gestures w !! i = Some g →
  activePointerId (state w) = Some (pointerId (ev g)) →
  let w' := deliver (once (with_upListener false) (fun i => handlePointerUp env i u) i) w in
  (∃ h, List.find (fun t => Nat.eqb (handle t) h) (timers w')
        = Some {| handle := h; due := (now w + 100)%N;
                  callback := RippleReleaseCallback (ripple g) |})
  ∧ activeRipples w' = activeRipples w ∧ rippleChildren w' = rippleChildren w
  ∧ bodyChildren w' = bodyChildren w
  ∧ now w' = now w
  ∧ holdIndicator (state w') = None
  ∧ ∀ ind, holdIndicator (state w) = Some ind →
      ∃ h, List.find (fun t => Nat.eqb (handle t) h) (timers w')
           = Some {| handle := h; due := (now w + 300)%N;
                     callback := IndicatorRemoveCallback ind |}.
Proof.
  open_inv w. cbn [gestures state activePointerId]. intros Hg ->. unfold_handlers.
  rewrite !list_lookup_alter_eq, Hg. cbn [fmap option_fmap option_map].
  cbn [ev hasMoved ripple with_moveListener with_upListener].
  rewrite bool_decide_eq_true_2 by reflexivity. cbn [negb].
  explore.
  all: try match goal with
           | Ha : ?b = true, Hb : negb ?b = true |- _ => rewrite Ha in Hb; discriminate Hb
           | Ha : ?b = false, Hb : negb ?b = false |- _ => rewrite Ha in Hb; discriminate Hb
           end.
  all: fold_projections.
  all: try (destruct (H3 _ eq_refl) as [Habs _];
            match goal with Hb : bool_decide _ = false |- _ =>
              apply bool_decide_eq_false in Hb; contradiction end).
  all: split; [eexists; find_timer H1|].
  all: do 5 (split; [reflexivity|]).
  all: intros ind Hind; try discriminate Hind; injection Hind as <-.
  all: eexists; find_timer H1.
Qed.

Lemma elapse_facts w d :
  let w' := step env w (Elapse d) in
  timers w' = timers w ∧ now w' = (now w + d)%N
  ∧ activeRipples w' = activeRipples w ∧ rippleChildren w' = rippleChildren w
  ∧ bodyChildren w' = bodyChildren w ∧ state w' = state w.
Proof. destruct w. repeat split; reflexivity. Qed.

Lemma fire_absent w : Inv w → step env w (TimerFires (nextHandle w)) = w.
Proof.
  intros HI. cbn [step]. unfold fireTimer. rewrite find_absent; [reflexivity|].
  intros t Hin. pose proof (inv_handles w HI t Hin). lia.
Qed.

Ltac open_timer Hfind Hcb Hdue :=
  cbn [step]; unfold fireTimer; cbn [timers now] in *; rewrite Hfind, Hcb;
  apply N.leb_le in Hdue; rewrite Hdue; clear Hfind Hcb Hdue.

Lemma fire_release h t r w :
  Inv w → List.find (fun t => Nat.eqb (handle t) h) (timers w) = Some t →
  callback t = RippleReleaseCallback r → (due t <= now w)%N →
  let w' := step env w (TimerFires h) in
  (r ∉ activeRipples w')
  ∧ (∀ x, x ∈ activeRipples w' → x ∈ activeRipples w)
  ∧ rippleChildren w' = rippleChildren w ∧ bodyChildren w' = bodyChildren w
  ∧ now w' = now w
  ∧ (r ∈ activeRipples w → r ∈ rippleChildren w →
     ∃ h2, List.find (fun t => Nat.eqb (handle t) h2) (timers w')
           = Some {| handle := h2; due := (now w + 100)%N;
                     callback := RippleFadeCallback r |}).
Proof.
  open_inv w. intros Hfind Hcb Hdue. open_timer Hfind Hcb Hdue. explore.
  all: fold_projections.
  - split; [apply (delete_removes r ripples n H5), indexOf_lookup; assumption|].
    split; [intros x Hx; in_list Hx; exact Hx|].
    do 3 (split; [reflexivity|]). intros _ Hc.
    apply negb_true_iff, bool_decide_eq_false in Heqb. contradiction.
  - split; [apply (delete_removes r ripples n H5), indexOf_lookup; assumption|].
    split; [intros x Hx; in_list Hx; exact Hx|].
    do 3 (split; [reflexivity|]). intros _ _. eexists. find_timer H1.
  - apply indexOf_None in Heqo.
    split; [exact Heqo|]. split; [auto|]. do 3 (split; [reflexivity|]).
    intros Ha. contradiction.
Qed.

Lemma fire_fade h t r w :
  Inv w → List.find (fun t => Nat.eqb (handle t) h) (timers w) = Some t →
  callback t = RippleFadeCallback r → (due t <= now w)%N →
  let w' := step env w (TimerFires h) in
  activeRipples w' = activeRipples w
  ∧ rippleChildren w' = rippleChildren w ∧ now w' = now w
  ∧ ∃ h3, List.find (fun t => Nat.eqb (handle t) h3) (timers w')
          = Some {| handle := h3; due := (now w + 300)%N;
                    callback := RippleRemoveCallback r |}.
Proof.
  open_inv w. intros Hfind Hcb Hdue. open_timer Hfind Hcb Hdue. explore.
  fold_projections. do 3 (split; [reflexivity|]). eexists. find_timer H1.
Qed.

Lemma fire_remove h t r w :
  List.find (fun t => Nat.eqb (handle t) h) (timers w) = Some t →
  callback t = RippleRemoveCallback r → (due t <= now w)%N →
  let w' := step env w (TimerFires h) in
  activeRipples w' = activeRipples w ∧ (r ∉ rippleChildren w').
Proof.
  open_world w. intros Hfind Hcb Hdue. open_timer Hfind Hcb Hdue. explore.
  fold_projections. split; [reflexivity|].
  intros Hin. apply list_elem_of_filter in Hin as [Hne _]. congruence.
Qed.

Lemma fire_indicator h t i w :
  List.find (fun t => Nat.eqb (handle t) h) (timers w) = Some t →
  callback t = IndicatorRemoveCallback i → (due t <= now w)%N →
  let w' := step env w (TimerFires h) in
  state w' = state w ∧ (i ∉ bodyChildren w').
Proof.
  open_world w. intros Hfind Hcb Hdue. open_timer Hfind Hcb Hdue. explore.
  fold_projections. split; [reflexivity|].
  intros Hin. apply list_elem_of_filter in Hin as [Hne _]. congruence.
Qed.

Lemma Inv_on_gestures f w : Inv w → Inv (on_gestures f w).
Proof. destruct w. intros [? ? ? ? ? ? ?]. constructor; assumption. Qed.

(** The pointer-up of a tracked gesture, as its owner's listener leaves
    the world. *)
Lemma release_schedules w downEv stale r moved held u :
  Inv w → tracking w downEv stale r moved held →
  let w' := step env w (PointerUp u) in
  (∃ h, List.find (fun t => Nat.eqb (handle t) h) (timers w')
        = Some {| handle := h; due := (now w + 100)%N;
                  callback := RippleReleaseCallback r |})
  ∧ activeRipples w' = activeRipples w ∧ rippleChildren w' = rippleChildren w
  ∧ bodyChildren w' = bodyChildren w
  ∧ now w' = now w
  ∧ holdIndicator (state w') = None
  ∧ ∀ ind, holdIndicator (state w) = Some ind →
      ∃ h, List.find (fun t => Nat.eqb (handle t) h) (timers w')
           = Some {| handle := h; due := (now w + 300)%N;
                     callback := IndicatorRemoveCallback ind |}.
Proof.
  intros HI Ht. destruct (up_tracking env w downEv stale r moved held u Ht)
    as (stale' & Hlen & Hstep).
  cbv zeta. rewrite Hstep.
  set (g := {| ev := downEv; ripple := r; hasMoved := moved; moveListener := true;
               upListener := true; cancelListener := true |}) in *.
  set (w0 := on_gestures (fun _ => stale' ++ [g]) w).
  assert (Hg : gestures w0 !! length stale = Some g).
  { subst w0. cbn [gestures on_gestures].
    rewrite lookup_app_r by lia. rewrite Hlen, Nat.sub_diag. reflexivity. }
  assert (Ha : activePointerId (state w0) = Some (pointerId (ev g))).
  { exact (tracking_active _ _ _ _ _ _ Ht). }
  pose proof (up_owner_schedules (length stale) u w0 g (Inv_on_gestures _ w HI) Hg Ha) as H.
  cbv zeta in H.
  replace (activeRipples w0) with (activeRipples w) in H by reflexivity.
  replace (rippleChildren w0) with (rippleChildren w) in H by reflexivity.
  replace (bodyChildren w0) with (bodyChildren w) in H by reflexivity.
  replace (now w0) with (now w) in H by reflexivity.
  replace (state w0) with (state w) in H by reflexivity.
  exact H.
Qed.

End Feedback.

(** X18. The ripple of a released gesture leaves the document: 100 ms after
    the pointer-up it is taken off the list of active ripples, after another
    100 ms its fade-out starts, and 300 ms later it is removed from the
    ripple container, whether or not an action fired. *)
Theorem ripple_leaves_after_release (env : Env) (w : World) (downEv : PointerEvent)
    (stale : list Gesture) (r : nat) (moved held : bool) (u : PointerEvent) :
  reachable env w → tracking w downEv stale r moved held → r ∈ activeRipples w →
  ∃ h1 h2 h3,
    let w' := run env w [PointerUp u; Elapse 100; TimerFires h1; Elapse 100; TimerFires h2;
                         Elapse 300; TimerFires h3] in
    (r ∉ rippleChildren w') ∧ (r ∉ activeRipples w').
Proof.
  intros Hw Ht Hr.
  destruct (release_schedules env w downEv stale r moved held u (Inv_reachable env w Hw) Ht)
    as ((h1 & Hf1) & Ha1 & Hc1 & _ & Hn1 & _).
  set (w1 := step env w (PointerUp u)) in *.
  assert (Hw1 : reachable env w1) by (apply reachable_step, Hw).
  destruct (elapse_facts env w1 100) as (Ht2 & Hn2 & Ha2 & Hc2 & _).
  set (w2 := step env w1 (Elapse 100)) in *.
  assert (Hw2 : reachable env w2) by (apply reachable_step, Hw1).
  destruct (fire_release env h1 {| handle := h1; due := (now w + 100)%N; callback := RippleReleaseCallback r |} r w2 (Inv_reachable env w2 Hw2))
    as (Hout & _ & Hc3 & _ & Hn3 & Hfade).
  { rewrite Ht2. exact Hf1. }
  { reflexivity. }
  { cbn [due]. rewrite Hn2, Hn1. lia. }
  set (w3 := step env w2 (TimerFires h1)) in *.
  assert (Hw3 : reachable env w3) by (apply reachable_step, Hw2).
  destruct (elapse_facts env w3 100) as (Ht4 & Hn4 & Ha4 & Hc4 & _).
  set (w4 := step env w3 (Elapse 100)) in *.
  assert (Hw4 : reachable env w4) by (apply reachable_step, Hw3).
  exists h1.
  destruct (decide (r ∈ rippleChildren w)) as [Hin|Hnot].
  - destruct Hfade as (h2 & Hf3); [rewrite Ha2, Ha1; exact Hr | rewrite Hc2, Hc1; exact Hin|].
    destruct (fire_fade env h2 {| handle := h2; due := (now w2 + 100)%N; callback := RippleFadeCallback r |} r w4 (Inv_reachable env w4 Hw4)) as (Ha5 & Hc5 & Hn5 & h3 & Hf5).
    { rewrite Ht4. exact Hf3. }
    { reflexivity. }
    { cbn [due]. rewrite Hn4, Hn3. lia. }
    set (w5 := step env w4 (TimerFires h2)) in *.
    destruct (elapse_facts env w5 300) as (Ht6 & Hn6 & Ha6 & Hc6 & _).
    set (w6 := step env w5 (Elapse 300)) in *.
    destruct (fire_remove env h3 {| handle := h3; due := (now w4 + 300)%N; callback := RippleRemoveCallback r |} r w6) as (Ha7 & Hgone).
    { rewrite Ht6. exact Hf5. }
    { reflexivity. }
    { cbn [due]. rewrite Hn6, Hn5. lia. }
    exists h2, h3.
    change (run env w [PointerUp u; Elapse 100; TimerFires h1; Elapse 100; TimerFires h2;
                       Elapse 300; TimerFires h3])
      with (step env w6 (TimerFires h3)).
    cbv zeta. split; [exact Hgone|]. rewrite Ha7, Ha6, Ha5, Ha4. exact Hout.
  - set (w6 := step env w4 (Elapse 300)).
    assert (Hw6 : reachable env w6) by (apply reachable_step, Hw4).
    exists (nextHandle w4), (nextHandle w6).
    change (run env w [PointerUp u; Elapse 100; TimerFires h1; Elapse 100;
                       TimerFires (nextHandle w4); Elapse 300; TimerFires (nextHandle w6)])
      with (step env (step env (step env w4 (TimerFires (nextHandle w4))) (Elapse 300))
              (TimerFires (nextHandle w6))).
    rewrite (fire_absent env w4 (Inv_reachable env w4 Hw4)). fold w6.
    rewrite (fire_absent env w6 (Inv_reachable env w6 Hw6)).
    destruct (elapse_facts env w4 300) as (_ & _ & Ha6 & Hc6 & _). fold w6 in Ha6, Hc6.
    cbv zeta. rewrite Hc6, Hc4, Hc3, Hc2, Hc1, Ha6, Ha4. split; [exact Hnot | exact Hout].
Qed.

Lemma ripple_leaves_after_release_witness :
  ∃ h1 h2 h3,
    0 ∉ rippleChildren
          (run Sample.env Sample.pressed
             [PointerUp Sample.finger; Elapse 100; TimerFires h1; Elapse 100; TimerFires h2;
              Elapse 300; TimerFires h3]).
Proof.
  destruct (ripple_leaves_after_release Sample.env Sample.pressed Sample.finger [] 0 false false
              Sample.finger) as (h1 & h2 & h3 & Hgone & _).
  - unfold Sample.pressed. apply reachable_step, reachable_setup.
  - constructor; reflexivity.
  - vm_compute. apply list_elem_of_here.
  - exists h1, h2, h3. exact Hgone.
Defined.

(** X19. The hold indicator of a released gesture leaves the document:
    the pointer-up drops the reference to it at once and removes the element
    from the body 300 ms later, also when the gesture had moved and no
    action fired. *)
Theorem hold_indicator_leaves_after_release (env : Env) (w : World) (downEv : PointerEvent)
    (stale : list Gesture) (r : nat) (moved held : bool) (u : PointerEvent) (ind : nat) :
  reachable env w → tracking w downEv stale r moved held →
  holdIndicator (state w) = Some ind →
  ∃ h,
    holdIndicator (state (step env w (PointerUp u))) = None
    ∧ let w' := run env w [PointerUp u; Elapse 300; TimerFires h] in
      holdIndicator (state w') = None ∧ (ind ∉ bodyChildren w').
Proof.
  intros Hw Ht Hi.
  destruct (release_schedules env w downEv stale r moved held u (Inv_reachable env w Hw) Ht)
    as (_ & _ & _ & _ & Hn1 & Hnone & Hsched).
  destruct (Hsched ind Hi) as (h & Hf1).
  set (w1 := step env w (PointerUp u)) in *.
  destruct (elapse_facts env w1 300) as (Ht2 & Hn2 & _ & _ & _ & Hs2).
  set (w2 := step env w1 (Elapse 300)) in *.
  destruct (fire_indicator env h {| handle := h; due := (now w + 300)%N; callback := IndicatorRemoveCallback ind |} ind w2) as (Hs3 & Hgone).
  { rewrite Ht2. exact Hf1. }
  { reflexivity. }
  { cbn [due]. rewrite Hn2, Hn1. lia. }
  exists h. split; [exact Hnone|].
  change (run env w [PointerUp u; Elapse 300; TimerFires h]) with (step env w2 (TimerFires h)).
  cbv zeta. rewrite Hs3, Hs2. split; [exact Hnone | exact Hgone].
Qed.

Lemma hold_indicator_leaves_after_release_witness :
  ∃ h, 1 ∉ bodyChildren (run Sample.env Sample.held
                           [PointerUp Sample.finger; Elapse 300; TimerFires h]).
Proof.
  destruct (hold_indicator_leaves_after_release Sample.env Sample.held Sample.finger [] 0
              false true Sample.finger 1) as (h & _ & _ & Hgone).
  - unfold Sample.held. apply reachable_run, reachable_setup.
  - constructor; reflexivity.
  - reflexivity.
  - exists h. exact Hgone.
Defined.

(** ** An indicator that stays *)

Ltac orphan_shown :=
  repeat first
    [ assumption
    | apply elem_of_app; left
    | apply list_elem_of_filter; split; [congruence|] ].

Ltac orphan_solve Hshown Hlost Hold Htimers :=
  constructor; fold_projections;
  [ orphan_shown
  | first [ exact Hlost | discriminate | intros [= E]; lia | congruence ]
  | lia
  | let t := fresh "t" in let Hin := fresh "Hin" in
    intros t Hin; in_list Hin;
    first [ apply Htimers; exact Hin | discriminate | cbn; congruence ] ].

Ltac open_orphaned :=
  let Hshown := fresh "Hshown" in let Hlost := fresh "Hlost" in
  let Hold := fresh "Hold" in
  intros [Hshown Hlost Hold Horphan];
  cbn in Hshown, Hlost, Hold; cbn [timers] in Horphan.

Section Orphans.

Variable env : Env.
Variable i : nat.

Lemma orphaned_up k upEv w :
  orphaned i w →
  orphaned i (deliver (once (with_upListener false) (fun k => handlePointerUp env k upEv) k) w).
Proof.
  destruct w as [[sid ht htr hi ap lat pha] ref ripples gs down nav_on rchildren bchildren
                 connected ts clock nref nelem nh lg0 fx0 fd uc].
  open_orphaned. explore. all: orphan_solve Hshown Hlost Hold Horphan.
Qed.

Lemma orphaned_move k moveEv w :
  orphaned i w → orphaned i (deliver (handlePointerMove k moveEv) w).
Proof.
  destruct w as [[sid ht htr hi ap lat pha] ref ripples gs down nav_on rchildren bchildren
                 connected ts clock nref nelem nh lg0 fx0 fd uc].
  open_orphaned. explore. all: orphan_solve Hshown Hlost Hold Horphan.
Qed.

Lemma orphaned_cancel k w :
  orphaned i w →
  orphaned i (deliver (once (with_cancelListener false) handlePointerCancel k) w).
Proof.
  destruct w as [[sid ht htr hi ap lat pha] ref ripples gs down nav_on rchildren bchildren
                 connected ts clock nref nelem nh lg0 fx0 fd uc].
  open_orphaned. explore. all: orphan_solve Hshown Hlost Hold Horphan.
Qed.

Lemma orphaned_down downEv w :
  orphaned i w → orphaned i (deliver (pointerDownHandler env downEv) w).
Proof.
  destruct w as [[sid ht htr hi ap lat pha] ref ripples gs down nav_on rchildren bchildren
                 connected ts clock nref nelem nh lg0 fx0 fd uc].
  open_orphaned. explore. all: orphan_solve Hshown Hlost Hold Horphan.
Qed.

Lemma orphaned_navigation w :
  orphaned i w → orphaned i (deliver (navigationListener env) w).
Proof.
  destruct w as [[sid ht htr hi ap lat pha] ref ripples gs down nav_on rchildren bchildren
                 connected ts clock nref nelem nh lg0 fx0 fd uc].
  open_orphaned. explore. all: orphan_solve Hshown Hlost Hold Horphan.
Qed.

Lemma orphaned_cleanup w : orphaned i w → orphaned i (deliver (cleanup env) w).
Proof.
  destruct w as [[sid ht htr hi ap lat pha] ref ripples gs down nav_on rchildren bchildren
                 connected ts clock nref nelem nh lg0 fx0 fd uc].
  open_orphaned. explore. all: orphan_solve Hshown Hlost Hold Horphan.
Qed.

Lemma orphaned_fire h w : orphaned i w → orphaned i (fireTimer env h w).
Proof.
  destruct w as [[sid ht htr hi ap lat pha] ref ripples gs down nav_on rchildren bchildren
                 connected ts clock nref nelem nh lg0 fx0 fd uc].
  open_orphaned. unfold fireTimer. cbn [timers now].
  destruct (List.find _ ts) as [t|] eqn:Hfind; [|constructor; assumption].
  apply find_handle in Hfind as [Hin Hh].
  destruct (due t <=? clock)%N; [|constructor; assumption].
  pose proof (Horphan t Hin) as Hnot.
  destruct (callback t) eqn:Hcb.
  all: explore.
  all: orphan_solve Hshown Hlost Hold Horphan.
Qed.

Lemma orphaned_step w e : orphaned i w → orphaned i (step env w e).
Proof.
  intros Hw. destruct e; cbn [step].
  - destruct (downAttached w); [apply orphaned_down|]; exact Hw.
  - apply dispatch_keeps; [intros; apply orphaned_move; assumption | exact Hw].
  - apply dispatch_keeps; [intros; apply orphaned_up; assumption | exact Hw].
  - apply dispatch_keeps; [intros; apply orphaned_cancel; assumption | exact Hw].
  - destruct (navigationAttached w); [apply orphaned_navigation|]; exact Hw.
  - apply orphaned_fire, Hw.
  - destruct Hw; constructor; assumption.
  - destruct Hw; constructor; assumption.
  - apply orphaned_cleanup, Hw.
Qed.

Lemma orphaned_run es : ∀ w, orphaned i w → orphaned i (run env w es).
Proof.
  induction es as [|e es IH]; intros w Hw; [exact Hw|].
  cbn [run fold_left]. apply IH, orphaned_step, Hw.
Qed.

End Orphans.

Section Overtaken.

Variable env : Env.

(** A pointer-down while an indicator is shown, and then its own hold
    timer: the state refers to a new indicator and nothing refers to the
    old one. *)
Lemma overtaken w downEv i :
  Inv w → downAttached w = true → configured (hold_action (config env)) = true →
  holdIndicator (state w) = Some i →
  orphaned i (run env w [PointerDown downEv; Elapse 500; TimerFires (nextHandle w)]).
Proof.
  open_inv w. cbn [downAttached state holdIndicator nextHandle]. intros -> Hc ->.
  destruct (H3 _ eq_refl) as [Hshown Hold].
  assert (Hnone : ∀ t, t ∈ ts → callback t ≠ IndicatorRemoveCallback i).
  { intros t Hin Hcb. destruct (H4 t i Hin Hcb) as [Hne _]. congruence. }
  unfold run. cbn [fold_left step]. unfold deliver at 2.
  unfold_handlers. rewrite Hc.
  destruct ht as [h|].
  - unfold_handlers. cbn [handle]. 
    assert (Hfind : List.find (fun t => Nat.eqb (handle t) nh)
                      (filter (fun t => handle t ≠ h) ts
                       ++ [{| handle := nh; due := clock + 500;
                              callback := HoldCallback downEv
                                            (String.eqb (pointerType downEv) "touch") |}])
                    = Some {| handle := nh; due := (clock + 500)%N;
                              callback := HoldCallback downEv
                                            (String.eqb (pointerType downEv) "touch") |}).
    { apply find_appended; [|reflexivity]. intros t Hin. in_list Hin. apply H1, Hin. }
    rewrite Hfind. cbn [due callback]. rewrite N.leb_refl.
    rewrite bool_decide_eq_true_2 by reflexivity.
    explore. all: constructor; fold_projections.
    all: try (apply elem_of_app; left; exact Hshown).
    all: try (intros [= E]; lia).
    all: try lia.
    all: intros t Hin; in_list Hin; first [apply Hnone; exact Hin | discriminate].
  - unfold_handlers. cbn [handle].
    assert (Hfind : List.find (fun t => Nat.eqb (handle t) nh)
                      (ts ++ [{| handle := nh; due := clock + 500;
                                 callback := HoldCallback downEv
                                               (String.eqb (pointerType downEv) "touch") |}])
                    = Some {| handle := nh; due := (clock + 500)%N;
                              callback := HoldCallback downEv
                                            (String.eqb (pointerType downEv) "touch") |}).
    { apply find_appended; [|reflexivity]. intros t Hin. apply H1, Hin. }
    rewrite Hfind. cbn [due callback]. rewrite N.leb_refl.
    rewrite bool_decide_eq_true_2 by reflexivity.
    explore. all: constructor; fold_projections.
    all: try (apply elem_of_app; left; exact Hshown).
    all: try (intros [= E]; lia).
    all: try lia.
    all: intros t Hin; in_list Hin; first [apply Hnone; exact Hin | discriminate].
Qed.

End Overtaken.

(** X24. An indicator can be orphaned: when a pointer goes down while the
    hold indicator of an earlier gesture is shown, and the hold timer of the
    new gesture fires, the state refers to the new indicator only, and the
    old one stays in the document whatever follows: pointer events, timers,
    navigation, the rebuild and the cleanup remove only the indicator the
    state refers to. *)
Theorem overtaken_indicator_stays (env : Env) (w : World) (downEv : PointerEvent) (i : nat)
    (es : list Event) :
  reachable env w → downAttached w = true →
  configured (hold_action (config env)) = true →
  holdIndicator (state w) = Some i →
  let w' := run env w ([PointerDown downEv; Elapse 500; TimerFires (nextHandle w)] ++ es) in
  i ∈ bodyChildren w' ∧ holdIndicator (state w') ≠ Some i.
Proof.
  intros Hw Hd Hc Hi. cbv zeta. rewrite run_app.
  pose proof (overtaken env w downEv i (Inv_reachable env w Hw) Hd Hc Hi) as Ho.
  destruct (orphaned_run env i es _ Ho) as [Hshown Hlost _ _]. auto.
Qed.

Lemma overtaken_indicator_stays_witness :
  1 ∈ bodyChildren
        (run Sample.env Sample.held
           ([PointerDown Sample.thumb; Elapse 500; TimerFires (nextHandle Sample.held)]
            ++ [PointerUp Sample.thumb; PointerUp Sample.finger; Elapse 1000; Cleanup])).
Proof.
  apply (overtaken_indicator_stays Sample.env Sample.held Sample.thumb 1
           [PointerUp Sample.thumb; PointerUp Sample.finger; Elapse 1000; Cleanup]).
  - unfold Sample.held. apply reachable_run, reachable_setup.
  - reflexivity.
  - reflexivity.
  - reflexivity.
Defined.

(** ** The ripple of setupRippleEffects *)

Section RippleHandler.

Variable env : Env.

Lemma rippleHandler_draws ev w :
  Inv w →
  ∃ w1,
    rippleHandler ev w = (Ret (nextElement w, nextHandle w), w1)
    ∧ Inv w1 ∧ nextElement w ∈ rippleChildren w1
    ∧ now w1 = now w ∧ timers w1 = timers w ∧ activeRipples w1 = activeRipples w
    ∧ fired w1 = fired w.
Proof.
  open_inv w. unfold rippleHandler. explore.
  eexists. split; [reflexivity|]. fold_projections.
  split; [inv_solve H1 H2 H3 H4 H5 H6 H7|].
  split; [apply elem_of_app; right; apply list_elem_of_singleton; reflexivity|].
  repeat split; reflexivity.
Qed.

Lemma rippleTimeout_fades r w :
  Inv w → r ∈ rippleChildren w →
  let w' := deliver (rippleTimeout r) w in
  Inv w'
  ∧ rippleChildren w' = rippleChildren w ∧ now w' = now w
  ∧ ∃ h, List.find (fun t => Nat.eqb (handle t) h) (timers w')
         = Some {| handle := h; due := now w; callback := RippleFadeCallback r |}.
Proof.
  open_inv w. cbn [rippleChildren]. intros Hr. unfold rippleTimeout. explore.
  - apply negb_true_iff, bool_decide_eq_false in Heqb. contradiction.
  - fold_projections. split; [inv_solve H1 H2 H3 H4 H5 H6 H7|].
    do 2 (split; [reflexivity|]). eexists.
    rewrite N.add_0_r. apply find_appended; [|reflexivity].
    intros t Hin. apply H1, Hin.
Qed.

End RippleHandler.

(** X25. The ripple drawn by the handler of [setupRippleEffects] leaves the
    ripple container: the handler's timeout calls [removeRippleEffect] after
    300 ms, which starts the fade-out at once and removes the element
    another 300 ms later. *)
Theorem ripple_effect_is_removed (env : Env) (ev : PointerEvent) (w : World) :
  reachable env w →
  ∃ ripple timeout w1 fade remove,
    rippleHandler ev w = (Ret (ripple, timeout), w1)
    ∧ ripple ∈ rippleChildren w1
    ∧ let w2 := deliver (rippleTimeout ripple) (step env w1 (Elapse 300)) in
      (ripple ∉ rippleChildren (run env w2 [TimerFires fade; Elapse 300; TimerFires remove])).
Proof.
  intros Hw. apply (Inv_reachable env) in Hw.
  destruct (rippleHandler_draws ev w Hw) as (w1 & Hrun & HI1 & Hin1 & Hn1 & _).
  set (r := nextElement w) in *.
  pose proof (Inv_step env w1 (Elapse 300) HI1) as HI1'.
  destruct (elapse_facts env w1 300) as (_ & Hn1' & _ & Hc1' & _).
  destruct (rippleTimeout_fades r (step env w1 (Elapse 300)) HI1')
    as (HI2 & Hc2 & Hn2 & fade & Hf2).
  { rewrite Hc1'. exact Hin1. }
  set (w2 := deliver (rippleTimeout r) (step env w1 (Elapse 300))) in *.
  destruct (fire_fade env fade
              {| handle := fade; due := now (step env w1 (Elapse 300));
                 callback := RippleFadeCallback r |} r w2 HI2 Hf2 eq_refl)
    as (_ & Hc3 & Hn3 & remove & Hf3).
  { cbn [due]. rewrite Hn2. lia. }
  set (w3 := step env w2 (TimerFires fade)) in *.
  destruct (elapse_facts env w3 300) as (Ht4 & Hn4 & _).
  destruct (fire_remove env remove
              {| handle := remove; due := (now w2 + 300)%N;
                 callback := RippleRemoveCallback r |} r (step env w3 (Elapse 300)))
    as (_ & Hgone).
  { rewrite Ht4. exact Hf3. }
  { reflexivity. }
  { cbn [due]. rewrite Hn4, Hn3. lia. }
  exists r, (nextHandle w), w1, fade, remove.
  split; [exact Hrun|]. split; [exact Hin1|]. exact Hgone.
Qed.

Lemma ripple_effect_is_removed_witness :
  ∃ ripple timeout w1,
    rippleHandler Sample.finger Sample.start = (Ret (ripple, timeout), w1)
    ∧ ripple ∈ rippleChildren w1.
Proof.
  destruct (ripple_effect_is_removed Sample.env Sample.finger Sample.start)
    as (ripple & timeout & w1 & _ & _ & Hrun & Hin & _).
  - apply reachable_setup.
  - exists ripple, timeout, w1. split; [exact Hrun | exact Hin].
Defined.

(** ** The DOM helpers *)

Section DomFacts.

Import Dom.
Local Open Scope dom_scope.














End DomFacts.



Section RippleSetup.

Import Dom.

Lemma foreign_kept k (others : list string) :
  filter (fun x => x ≠ RippleHandler k) (Foreign <$> others) = Foreign <$> others.
Proof.
  induction others as [|o others IH]; [reflexivity|].
  rewrite fmap_cons, filter_cons_True by discriminate. rewrite IH. reflexivity.
Qed.

Lemma foreign_fresh k (others : list string) : RippleHandler k ∉ Foreign <$> others.
Proof.
  intros H. apply list_elem_of_fmap in H as (o & Ho & _). discriminate.
Qed.

Lemma drop_one_handler others c :
  one_handler others c →
  pointerdown (dropRippleHandler c) = Foreign <$> others
  ∧ _rippleHandler (dropRippleHandler c) = None
  ∧ calls (dropRippleHandler c) = calls c.
Proof.
  intros [Hp Hh]. unfold dropRippleHandler.
  destruct (_rippleHandler c) as [h|] eqn:E.
  - destruct (Hh h eq_refl) as (k & -> & _). cbn.
    rewrite Hp, filter_app, foreign_kept, filter_cons_False, filter_nil, app_nil_r by auto.
    auto.
  - rewrite Hp, E, app_nil_r. auto.
Qed.

Lemma use_one_handler others c u :
  one_handler others c →
  one_handler others (use c u)
  ∧ match u with
    | Setup => _rippleHandler (use c u) = Some (RippleHandler (calls c))
               ∧ calls (use c u) = S (calls c)
    | Cleanup => _rippleHandler (use c u) = None ∧ calls (use c u) = calls c
    end.
Proof.
  intros Hc. destruct u; cbn [use].
  - unfold setupRippleEffects.
    set (c0 := {| _rippleHandler := _rippleHandler c; pointerdown := pointerdown c;
                  calls := calls c;
                  target_console := Logger.info "Setting up ripple effects" []
                                      (target_console c) |}).
    assert (Hc0 : one_handler others c0) by exact Hc.
    destruct (drop_one_handler others c0 Hc0) as (Hp & Hn & Hcalls).
    cbn [_rippleHandler pointerdown calls addEventListener set_rippleHandler].
    rewrite Hp, Hcalls.
    rewrite bool_decide_eq_false_2 by apply foreign_fresh.
    change (calls c0) with (calls c).
    split; [|auto]. split; [reflexivity|].
    intros h [= <-]. eauto.
  - destruct (drop_one_handler others c Hc) as (Hp & Hn & Hcalls).
    split; [|auto]. split.
    + rewrite Hp, Hn, app_nil_r. reflexivity.
    + rewrite Hn. discriminate.
Qed.

Lemma uses_one_handler others lg uses :
  one_handler others (fold_left use uses (untouched others lg)).
Proof.
  induction uses as [|u uses IH] using rev_ind.
  - split; [cbn; rewrite app_nil_r; reflexivity | discriminate].
  - rewrite fold_left_app. cbn [fold_left]. apply use_one_handler, IH.
Qed.

End RippleSetup.

(** X22. However often [setupRippleEffects] and the cleanup functions it
    returned are called for an element, the element has at most one ripple
    handler among its pointer-down listeners, the one of the latest setup,
    and the listeners others registered stay.  Every cleanup function
    removes the handler that is current when it is called, also one that a
    later setup has registered. *)
Theorem setupRippleEffects_keeps_one_handler (others : list string) (lg : Logger.State)
    (uses : list Dom.Use) :
  let c := fold_left Dom.use uses (Dom.untouched others lg) in
  Dom.pointerdown c
  = (Dom.Foreign <$> others)
    ++ match Dom._rippleHandler c with Some h => [h] | None => [] end
  ∧ (∀ h, Dom._rippleHandler c = Some h → h = Dom.RippleHandler (Dom.calls c - 1))
  ∧ Dom.pointerdown (Dom.use c Dom.Cleanup) = Dom.Foreign <$> others
  ∧ Dom.pointerdown (Dom.use c Dom.Setup)
    = (Dom.Foreign <$> others) ++ [Dom.RippleHandler (Dom.calls c)].
Proof.
  intros c. pose proof (uses_one_handler others lg uses) as Hc. fold c in Hc.
  split; [apply Hc|]. split.
  - intros h Hh. destruct Hc as [_ Hk]. destruct (Hk h Hh) as (k & -> & <-).
    f_equal. lia.
  - split.
    + apply (drop_one_handler others c Hc).
    + destruct (use_one_handler others c Dom.Setup Hc) as ([Hp _] & Hh & _).
      rewrite Hp, Hh. reflexivity.
Qed.

Section SetupDom.

Import Dom.
Local Open Scope dom_scope.











End SetupDom.



(** The helpers, run on the sample document. *)
Example createInteractionDom_sample :
  let (r, t') := Dom.createInteractionDom Dom.sample in
  r = Ret {| Dom.Created.container := 4; Dom.Created.bgLayer := 5;
             Dom.Created.rippleContainer := 6; Dom.Created.contentLayer := 7 |}
  ∧ Dom.children_of 4 (Dom.nodes t') = [5; 6; 7]
  ∧ (Dom.classes <$> Dom.nodes t' !! 6) = Some ["card-ripple-container"].
Proof. vm_compute. repeat split; reflexivity. Qed.

(** A layer inside the source cannot take the children of the source. *)
Example moveContentToLayer_into_a_child :
  ∃ e t', Dom.moveContentToLayer 3 0 2 Dom.sample = Some (Throw e, t').
Proof. vm_compute. do 2 eexists. reflexivity. Qed.

